(** * IdleLoops Predictor: a shallow embedding of the prediction engine

    The development follows [idleloops-predictor.user.js]: the classes
    [Koviko.Prediction], [Koviko.Snapshot] and [Koviko.Predictor] become the
    modules and definitions below, with the source's names.

    Modelling choices.
    - A JavaScript number is an exact rational ([Qc]); counters that the code
      only ever moves by whole steps (tick counts, segment indices,
      [completed], [total]) are integers ([Z]).  Rounding of doubles, [NaN]
      and [Infinity] produced by arithmetic are outside the model, except
      that the [Infinity] of [maxSegments] is [None] and the [undefined] and
      [NaN] a [Snapshot] can store are constructors of their own.
    - A JavaScript object used as a dictionary is a [gmap string _].  The
      names of the rule table and of the resources, stats and skills are
      the script's and the game's own, none of them a property of
      [Object.prototype]; the names of the listed actions are input, and
      for them the lookup [this.predictions[name]] of [update] also finds
      what an object inherits from [Object.prototype].  [Object.keys] lists
      the keys in the order of JavaScript: array indices first.
    - The host page's globals ([Koviko.globals] and the few globals the
      script reads directly) are the fields of a record [Host].
    - Objects the source mutates in place ([state], a [Progression], the
      cached [_ticks] of a [Prediction]) are threaded explicitly.  The
      closures [loop.cost(p, a)] and [loop.tick(p, a, s, k, r)] capture these
      mutable objects, so the model applies them to the objects' current
      contents at every call.
    - A [TypeError] the source can raise, and a loop that may not terminate,
      are results of the monad [result]: the two [for] loops of [tick] whose
      number of iterations the code does not bound take fuel.

    The file has the model first, then the definitions that word the
    specification and a small host with a rule table to evaluate the model
    on, then the properties, by component: tick counts, the loop of a tick,
    termination, the invariant of [completed], the accounting of [update],
    snapshots. *)

From Stdlib Require Import ZArith QArith Qcanon Qround Lia Lqa.
From stdpp Require Import base option numbers list gmap strings sorting.

Local Open Scope Z_scope.
Local Open Scope Qc_scope.

(** ** Numbers *)

(** [Math.ceil] *)
Definition ceil (x : Qc) : Z := Qceiling x.

(** The literal [.000001] of [updateTicks]. *)
Definition epsilon : Qc := Q2Qc (1 # 1000000).

(** JavaScript truthiness of a number: everything but zero. *)
Definition truthy (x : Qc) : bool := negb (bool_decide (x = 0)).

(** [Math.min] *)
Definition Qcmin (x y : Qc) : Qc := if bool_decide (x ≤ y) then x else y.

Definition num (n : Z) : Qc := Qc_of_Z n.

(** ** Objects *)

(** The properties every object inherits from [Object.prototype]: reading
    one of these names from an object that has no property of its own by
    that name gives a function ([Object.prototype] itself for [__proto__]),
    which is truthy and has none of the fields of a [Prediction]. *)
Definition objectPrototype : list string :=
  ["constructor"; "__defineGetter__"; "__defineSetter__"; "hasOwnProperty";
   "__lookupGetter__"; "__lookupSetter__"; "isPrototypeOf";
   "propertyIsEnumerable"; "toString"; "valueOf"; "__proto__";
   "toLocaleString"].

Definition inherited (name : string) : bool :=
  bool_decide (name ∈ objectPrototype).

(** The value of a decimal digit. *)
Definition digit (c : Ascii.ascii) : option N :=
  let n := Ascii.N_of_ascii c in
  if bool_decide (48 ≤ n ≤ 57)%N then Some (n - 48)%N else None.

(** The number a string of decimal digits writes, after the digits of
    [acc]. *)
Fixpoint digits (s : string) (acc : N) : option N :=
  match s with
  | EmptyString => Some acc
  | String c s => d ← digit c; digits s (10 * acc + d)%N
  end.

(** An array index: the key is the decimal writing, without leading zeros,
    of an integer from 0 to [2^32 - 2]. *)
Definition arrayIndex (key : string) : option N :=
  match key with
  | EmptyString => None
  | String c rest =>
      if bool_decide (digit c = Some 0%N ∧ rest ≠ EmptyString) then None
      else n ← digits key 0;
           if bool_decide (n < 4294967295)%N then Some n else None
  end.

Definition indexLe (x y : string) : Prop :=
  (default 0 (arrayIndex x) ≤ default 0 (arrayIndex y))%N.

Global Instance indexLe_dec x y : Decision (indexLe x y) :=
  decide (default 0 (arrayIndex x) ≤ default 0 (arrayIndex y))%N.

(** [Object.keys(o)], from the keys of [o] in the order of their creation:
    the array indices in ascending order, then the other keys in the order
    of their creation. *)
Definition objectKeys (created : list string) : list string :=
  merge_sort indexLe (filter (λ x, is_Some (arrayIndex x)) created)
  ++ filter (λ x, ¬ is_Some (arrayIndex x)) created.

(** ** Results: a value, a [TypeError], or a loop that ran out of fuel *)

Inductive result (A : Type) : Type :=
  | Ok (a : A)
  | TypeError
  | OutOfFuel.
Arguments Ok {A} a.
Arguments TypeError {A}.
Arguments OutOfFuel {A}.

Global Instance result_ret : MRet result := λ A a, Ok a.
Global Instance result_bind : MBind result := λ A B f m,
  match m with
  | Ok a => f a
  | TypeError => TypeError
  | OutOfFuel => OutOfFuel
  end.

(** ** Data model *)

(** [Koviko~Action], the host's description of an action. *)
Record Action : Type := {
  a_name : string;
  a_expMult : Qc;
  a_townNum : Z;
  a_varName : string;
  a_segments : Z;
  a_stats : gmap string Qc;
  a_loopStats : list string;
  a_manaCost : Qc;            (* the value of [manaCost()] *)
}.

(** [Koviko.Predictor~Progression] *)
Record Progression : Type := {
  pr_progress : Qc;
  pr_completed : Z;
  pr_total : Z;
}.

(** An effect mutates the resources and the skills it is given. *)
Definition Effect : Type :=
  gmap string Qc → gmap string Qc → gmap string Qc * gmap string Qc.

(** [loop.effect] *)
Record LoopEffect : Type := {
  e_segment : option Effect;
  e_loop : option Effect;
  e_end : option Effect;
}.

(** [Koviko.Prediction~Loop].  [l_cost p a segment] is
    [loop.cost(p, a)(segment)] and [l_tick p a s k r offset] is
    [loop.tick(p, a, s, k, r)(offset)], both on the current contents of the
    captured objects. *)
Record Loop : Type := {
  l_max : option (Action → Z);
  l_cost : Progression → Action → Z → Qc;
  l_tick : Progression → Action → gmap string Qc → gmap string Qc →
           gmap string Qc → Z → Qc;
  l_effect : LoopEffect;
}.

(** A start condition: a fixed boolean or a predicate over the resources. *)
Inductive CanStart : Type :=
  | CanStartBool (b : bool)
  | CanStartFun (f : gmap string Qc → bool).

(** [Koviko.Prediction~Parameters] *)
Record Parameters : Type := {
  par_affected : option (list string);
  par_effect : option Effect;
  par_loop : option Loop;
  par_canStart : option CanStart;
}.

(** [Koviko~ListedAction] *)
Record ListedAction : Type := {
  la_name : string;
  la_loops : Z;
}.

(** The globals of the host page. *)
Record Host : Type := {
  statList : list string;
  skills : gmap string Qc;                 (* lower-cased name ↦ [exp] *)
  towns_total : Z → string → Z;            (* [towns[n]['total' + v]] *)
  translateClassNames : string → Action;
  getLevelFromExp : Qc → Qc;
  getTotalBonusXP : string → Qc;
  getSkillLevel : string → Qc;
  getBuffLevel : string → Qc;
  pow : Qc → Qc → Qc;                      (* [Math.pow] *)
}.

(** [Koviko.Predictor~State] *)
Record State : Type := {
  st_resources : gmap string Qc;
  st_stats : gmap string Qc;
  st_skills : gmap string Qc;
  st_progress : gmap string Progression;
}.

(** Reading a resource; a missing one reads as [0] (the run creates [mana],
    [town] and every affected resource before any entry is simulated). *)
Definition getR (r : gmap string Qc) (k : string) : Qc := default 0 (r !! k).

Definition mana (st : State) : Qc := getR (st_resources st) "mana".

Definition set_resources (st : State) (r : gmap string Qc) : State :=
  {| st_resources := r; st_stats := st_stats st;
     st_skills := st_skills st; st_progress := st_progress st |}.

Definition set_stats (st : State) (s : gmap string Qc) : State :=
  {| st_resources := st_resources st; st_stats := s;
     st_skills := st_skills st; st_progress := st_progress st |}.

Definition set_mana (st : State) (m : Qc) : State :=
  set_resources st (<["mana" := m]> (st_resources st)).

(** Running an optional effect. *)
Definition run_effect (e : option Effect) (rk : gmap string Qc * gmap string Qc)
  : gmap string Qc * gmap string Qc :=
  match e with
  | Some f => f rk.1 rk.2
  | None => rk
  end.

(** ** [Koviko.Prediction] *)

Module Prediction.

Record t : Type := {
  name : string;
  action : Action;
  affected : list string;
  effect : option Effect;
  loop : option Loop;
  canStart : CanStart;
}.

(** [params.canStart || true]: a missing or [false] parameter becomes
    [true]; a function or [true] is kept. *)
Definition canStart_or_true (c : option CanStart) : CanStart :=
  match c with
  | Some (CanStartFun f) => CanStartFun f
  | Some (CanStartBool true) => CanStartBool true
  | Some (CanStartBool false) | None => CanStartBool true
  end.

Definition constructor (g : Host) (name : string) (params : Parameters) : t :=
  {| name := name;
     action := translateClassNames g name;
     affected := default [] (par_affected params);
     effect := par_effect params;
     loop := par_loop params;
     canStart := canStart_or_true (par_canStart params) |}.

Section WithHost.
Variable g : Host.

(** One step of the [reduce] of [updateTicks]. *)
Definition addStatCost (a : Action) (s : gmap string Qc)
    (cost : Qc) (i : string) : Qc :=
  cost + match a_stats a !! i, s !! i with
         | Some w, Some e => w / (1 + getLevelFromExp g e / num 100)
         | _, _ => 0
         end.

(** [updateTicks(a, s)]; the value is also stored in [_ticks]. *)
Definition updateTicks (a : Action) (s : gmap string Qc) : Z :=
  let cost := foldl (addStatCost a s) 0 (statList g) in
  ceil (a_manaCost a * cost - epsilon).

(** [ticks()], on the cached [_ticks]: [this._ticks || this.updateTicks()].
    With a zero [_ticks] the call [updateTicks()] dereferences the
    undefined action and throws. *)
Definition ticks (_ticks : Z) : result Z :=
  if bool_decide (_ticks = 0%Z) then TypeError else Ok _ticks.

(** One step of the [forEach] of [exp]. *)
Definition addStatExp (_ticks : Z) (a : Action)
    (acc : result (gmap string Qc)) (i : string) : result (gmap string Qc) :=
  s ← acc;
  match a_stats a !! i, s !! i with
  | Some w, Some e =>
      n ← ticks _ticks;
      Ok (<[i := e + w * a_expMult a * (a_manaCost a / num n)
                     * getTotalBonusXP g i]> s)
  | _, _ => Ok s
  end.

(** [exp(a, s)] *)
Definition exp (_ticks : Z) (a : Action) (s : gmap string Qc)
  : result (gmap string Qc) :=
  foldl (addStatExp _ticks a) (Ok s) (statList g).

End WithHost.

End Prediction.

(** ** [Koviko.Snapshot] *)

Module Snapshot.

(** What [attributes[i]] reads: a number, or [undefined] for a missing key. *)
Definition read (attributes : gmap string Qc) (i : string) : option Qc :=
  attributes !! i.

(** The [delta] of a comparison. *)
Inductive Delta : Type :=
  | Null
  | NaN
  | Diff (d : Qc).

(** [Koviko.Snapshot~Comparison]; [value] is [None] when it is [undefined]. *)
Record Comparison : Type := {
  value : option Qc;
  delta : Delta;
}.

Record t : Type := {
  attributes : gmap string Comparison;
  _isInitialized : bool;
}.

(** [new - old] on values that may be [undefined]. *)
Definition minus (new old : option Qc) : Delta :=
  match new, old with
  | Some n, Some o => Diff (n - o)
  | _, _ => NaN
  end.

(** [init(attributes)] *)
Definition init (this : t) (attrs : gmap string Qc) : t :=
  {| attributes :=
       ((λ v, {| value := Some v; delta := Null |}) <$> attrs)
         ∪ attributes this;
     _isInitialized := true |}.

(** [new Snapshot(attributes)] *)
Definition constructor (attrs : option (gmap string Qc)) : t :=
  let this := {| attributes := ∅; _isInitialized := false |} in
  match attrs with
  | Some a => init this a
  | None => this
  end.

(** [snap(attributes)] *)
Definition snap (this : t) (attrs : gmap string Qc) : t :=
  let this := if _isInitialized this then this else init this attrs in
  {| attributes :=
       map_imap (λ i c, Some {| value := read attrs i;
                                delta := minus (read attrs i) (value c) |})
                (attributes this);
     _isInitialized := _isInitialized this |}.

(** [get()] *)
Definition get (this : t) : gmap string Comparison := attributes this.

End Snapshot.

(** ** [Koviko.Predictor] *)

Module Predictor.

(** The local variables of the second [for] of [tick], with the objects its
    body mutates. *)
Record Walk : Type := {
  w_segment : Z;
  w_progress : Qc;
  w_progression : Progression;
  w_resources : gmap string Qc;
  w_skills : gmap string Qc;
}.

(** [segment < maxSegments], where [None] is [Infinity]. *)
Definition below (segment : Z) (maxSegments : option Z) : bool :=
  match maxSegments with
  | Some m => bool_decide (segment < m)%Z
  | None => true
  end.

(** [prediction.loop.max ? prediction.loop.max(a) * totalSegments : Infinity] *)
Definition maxSegments (l : Loop) (a : Action) : option Z :=
  match l_max l with
  | Some mx => Some (mx a * a_segments a)%Z
  | None => None
  end.

(** The first [for] of [tick]:
    [for (; progress >= loopCost(segment); progress -= loopCost(segment++));] *)
Fixpoint seek (fuel : nat) (loopCost : Z → Qc) (segment : Z) (progress : Qc)
  : result (Z * Qc) :=
  if bool_decide (loopCost segment ≤ progress) then
    match fuel with
    | O => OutOfFuel
    | S fuel =>
        seek fuel loopCost (segment + 1)%Z (progress - loopCost segment)
    end
  else Ok (segment, progress).

(** The completion of a loop, inside the second [for]. *)
Definition completeLoop (l : Loop) (a : Action) (w : Walk) : Walk :=
  let p := w_progression w in
  let rk := run_effect (e_loop (l_effect l)) (w_resources w, w_skills w) in
  {| w_segment := (w_segment w - a_segments a)%Z;
     w_progress := w_progress w;
     w_progression := {| pr_progress := 0;
                         pr_completed := (pr_completed p + a_segments a)%Z;
                         pr_total := (pr_total p + 1)%Z |};
     w_resources := rk.1;
     w_skills := rk.2 |}.

(** The body of the second [for]. *)
Definition walkBody (l : Loop) (a : Action) (w : Walk) : Walk :=
  let w := if bool_decide (a_segments a - 1 ≤ w_segment w)%Z
           then completeLoop l a w else w in
  let rk := run_effect (e_segment (l_effect l)) (w_resources w, w_skills w) in
  {| w_segment := w_segment w;
     w_progress := w_progress w;
     w_progression := w_progression w;
     w_resources := rk.1;
     w_skills := rk.2 |}.

(** The update [progress -= loopCost(segment++)] of the second [for];
    [loopCost] reads the progression as the body left it. *)
Definition walkNext (l : Loop) (a : Action) (w : Walk) : Walk :=
  {| w_segment := (w_segment w + 1)%Z;
     w_progress := w_progress w - l_cost l (w_progression w) a (w_segment w);
     w_progression := w_progression w;
     w_resources := w_resources w;
     w_skills := w_skills w |}.

(** The condition of the second [for]. *)
Definition walkCond (l : Loop) (a : Action) (w : Walk) : bool :=
  bool_decide (l_cost l (w_progression w) a (w_segment w) ≤ w_progress w)
  && below (w_segment w) (maxSegments l a).

(** The second [for] of [tick]. *)
Fixpoint walk (fuel : nat) (l : Loop) (a : Action) (w : Walk) : result Walk :=
  if walkCond l a w then
    match fuel with
    | O => OutOfFuel
    | S fuel => walk fuel l a (walkNext l a (walkBody l a w))
    end
  else Ok w.

(** What one tick of a loop computes: the progress of the tick and the
    variables at the end of the second [for]. *)
Record LoopTick : Type := {
  additionalProgress : Qc;
  after : Walk;
}.

(** "Accumulate the progress from the tick": the variables the second [for]
    starts from, [additionalProgress] added to the local progress and to
    [progression.progress]. *)
Definition walkStart (state : State) (progression : Progression)
    (segment : Z) (progress additionalProgress : Qc) : Walk :=
  {| w_segment := segment;
     w_progress := progress + additionalProgress;
     w_progression :=
       {| pr_progress := pr_progress progression + additionalProgress;
          pr_completed := pr_completed progression;
          pr_total := pr_total progression |};
     w_resources := st_resources state;
     w_skills := st_skills state |}.

Section WithHost.
Variable g : Host.

(** The loop branch of [tick], up to the [return]. *)
Definition tickLoop (fuel : nat) (p : Prediction.t) (l : Loop) (_ticks : Z)
    (state : State) : result LoopTick :=
  match st_progress state !! Prediction.name p with
  | None => TypeError
  | Some progression =>
      let a := Prediction.action p in
      '(segment, progress) ←
        seek fuel (l_cost l progression a) 0%Z (pr_progress progression);
      n ← Prediction.ticks _ticks;
      let additionalProgress :=
        l_tick l progression a (st_stats state) (st_skills state)
               (st_resources state) segment * (a_manaCost a / num n) in
      w ← walk fuel l a
             (walkStart state progression segment progress additionalProgress);
      Ok {| additionalProgress := additionalProgress; after := w |}
  end.

(** The state a loop tick leaves behind. *)
Definition tickState (p : Prediction.t) (state : State) (w : Walk) : State :=
  {| st_resources := w_resources w;
     st_stats := st_stats state;
     st_skills := w_skills w;
     st_progress := <[Prediction.name p := w_progression w]> (st_progress state) |}.

(** [tick(prediction, state)]; the boolean is the truthiness of the value
    returned, the only thing [predict] looks at. *)
Definition tick (fuel : nat) (p : Prediction.t) (_ticks : Z) (state : State)
  : result (bool * State) :=
  s ← Prediction.exp g _ticks (Prediction.action p) (st_stats state);
  let state := set_stats state s in
  match Prediction.loop p with
  | Some l =>
      lt ← tickLoop fuel p l _ticks state;
      Ok (truthy (additionalProgress lt)
            && below (w_segment (after lt)) (maxSegments l (Prediction.action p)),
          tickState p state (after lt))
  | None => Ok (true, state)
  end.

(** The [for] of [predict]; [n] counts the iterations left, [_ticks] does not
    change while it runs. *)
Fixpoint predictLoop (fuel : nat) (p : Prediction.t) (_ticks : Z) (n : nat)
    (state : State) : result State :=
  match n with
  | O => Ok state
  | S n =>
      let state := set_mana state (mana state - 1) in
      '(continue, state) ← tick fuel p _ticks state;
      if continue : bool then predictLoop fuel p _ticks n state else Ok state
  end.

(** [predict(prediction, state)] *)
Definition predict (fuel : nat) (p : Prediction.t) (state : State)
  : result State :=
  let _ticks := Prediction.updateTicks g (Prediction.action p) (st_stats state) in
  n ← Prediction.ticks _ticks;
  predictLoop fuel p _ticks (Z.to_nat n) state.

(** *** [update] *)

(** What the loop over the repetitions of one entry carries. *)
Record Entry : Type := {
  en_state : State;
  en_isValid : bool;
  en_total : Qc;
  en_totalTicks : Qc;
}.

(** What [template] is given for one entry. *)
Record Report : Type := {
  rp_name : string;
  rp_resources : list (string * Qc);
  rp_isValid : bool;
  rp_stats : gmap string Snapshot.Comparison;
  rp_skills : gmap string Snapshot.Comparison;
}.

(** The variables of [update]. *)
Record Run : Type := {
  run_state : State;
  run_stats : Snapshot.t;
  run_skills : Snapshot.t;
  run_total : Qc;
  run_totalTicks : Qc;
  run_reports : list Report;
}.

(** [typeof(prediction.canStart) === "function" ? ... : prediction.canStart] *)
Definition evalCanStart (c : CanStart) (r : gmap string Qc) : bool :=
  match c with
  | CanStartFun f => f r
  | CanStartBool b => b
  end.

(** The two "Only for Adventure Guild" adjustments. *)
Definition guildBefore (name : string) (state : State) : State :=
  if bool_decide (name = "Adventure Guild")
  then set_mana state (mana state
                       - getR (st_resources state) "adventures" * num 200)
  else state.

Definition guildAfter (name : string) (state : State) : State :=
  if bool_decide (name = "Adventure Guild")
  then set_mana state (mana state
                       + getR (st_resources state) "adventures" * num 200)
  else state.

(** "Calculate time spent" *)
Definition timeSpent (state : State) (spent : Qc) : Qc :=
  let temp := spent / pow g (1 + getSkillLevel g "Chronomancy" / num 60)
                            (Q2Qc (1 # 4)) in
  let town := getR (st_resources state) "town" in
  let ritual := getBuffLevel g "Ritual" in
  if bool_decide (town = 0) && bool_decide (0 < ritual) then
    temp / (1 + Qcmin ritual (num 20) / num 10)
  else if bool_decide (town = 1) && bool_decide (num 20 < ritual) then
    temp / (1 + Qcmin (ritual - num 20) (num 20) / num 20)
  else if bool_decide (town = 2) && bool_decide (num 40 < ritual) then
    temp / (1 + Qcmin (ritual - num 40) (num 20) / num 40)
  else temp.

(** The accounting of one repetition, between [predict] and the effects. *)
Definition account (name : string) (currentMana : Qc) (e : Entry)
    (state : State) : Entry :=
  let isValid := en_isValid e && bool_decide (0 ≤ mana state) in
  let state := guildBefore name state in
  let total := en_total e + (currentMana - mana state) in
  let state := guildAfter name state in
  let temp := timeSpent state (currentMana - mana state) in
  {| en_state := state;
     en_isValid := isValid;
     en_total := total;
     en_totalTicks := en_totalTicks e + temp |}.

(** "Run the effect, now that the mana checks are complete" *)
Definition runEffects (p : Prediction.t) (state : State) : State :=
  let rk := run_effect (Prediction.effect p)
                       (st_resources state, st_skills state) in
  let rk := match Prediction.loop p with
            | Some l => run_effect (e_end (l_effect l)) rk
            | None => rk
            end in
  {| st_resources := rk.1; st_stats := st_stats state;
     st_skills := rk.2; st_progress := st_progress state |}.

(** One repetition: the body of the [for] over [listedAction.loops], after
    the [canStart] test. *)
Definition repetition (fuel : nat) (name : string) (p : Prediction.t)
    (e : Entry) : result Entry :=
  let currentMana := mana (en_state e) in
  state ← predict fuel p (en_state e);
  let e := account name currentMana e state in
  Ok {| en_state := runEffects p (en_state e);
        en_isValid := en_isValid e;
        en_total := en_total e;
        en_totalTicks := en_totalTicks e |}.

(** The [for] over [listedAction.loops]; [n] counts the repetitions left. *)
Fixpoint repetitions (fuel : nat) (name : string) (p : Prediction.t) (n : nat)
    (e : Entry) : result Entry :=
  match n with
  | O => Ok e
  | S n =>
      if evalCanStart (Prediction.canStart p) (st_resources (en_state e)) then
        e ← repetition fuel name p e;
        repetitions fuel name p n e
      else Ok e
  end.

(** [stats[name] = true], on the keys of [stats] in the order of their
    creation. *)
Definition addKey (keys : list string) (name : string) : list string :=
  if decide (name ∈ keys) then keys else keys ++ [name].

(** "Make sure that the loop is properly represented in [state.progress]" *)
Definition ensureProgress (p : Prediction.t) (state : State) : State :=
  match Prediction.loop p, st_progress state !! Prediction.name p with
  | Some _, None =>
      let a := Prediction.action p in
      {| st_resources := st_resources state; st_stats := st_stats state;
         st_skills := st_skills state;
         st_progress :=
           <[Prediction.name p :=
               {| pr_progress := 0; pr_completed := 0;
                  pr_total := towns_total g (a_townNum a) (a_varName a) |}]>
             (st_progress state) |}
  | _, _ => state
  end.

Section WithPredictions.
Variable predictions : gmap string Prediction.t.

(** The names of the affected resources of the list: [Object.keys] of the
    object the [reduce] builds, whose keys are created in the order of their
    first mention.  A name that [this.predictions] only inherits has no
    [affected] and adds nothing. *)
Definition affectedOf (actions : list ListedAction) : list string :=
  objectKeys
    (foldl addKey []
       (actions ≫= λ x, match predictions !! la_name x with
                        | Some p => Prediction.affected p
                        | None => []
                        end)).

(** [state.resources[x] || (state.resources[x] = 0)] *)
Definition initAffected (r : gmap string Qc) (x : string) : gmap string Qc :=
  if truthy (getR r x) then r else <[x := 0]> r.

(** "Update the snapshots" and "Update the view": the run after an entry
    whose repetitions left [e]. *)
Definition finishEntry (affected : list string) (run : Run) (name : string)
    (e : Entry) : Run :=
  let state := en_state e in
  let stats := Snapshot.snap (run_stats run) (st_stats state) in
  let skills := Snapshot.snap (run_skills run) (st_skills state) in
  {| run_state := state;
     run_stats := stats;
     run_skills := skills;
     run_total := en_total e;
     run_totalTicks := en_totalTicks e;
     run_reports :=
       run_reports run ++
       [{| rp_name := name;
           rp_resources :=
             (λ x, (x, getR (st_resources state) x)) <$> affected;
           rp_isValid := en_isValid e;
           rp_stats := Snapshot.get stats;
           rp_skills := Snapshot.get skills |}] |}.

(** What the loop over the repetitions of an entry starts from:
    [let isValid = true], with the state and the totals of the run. *)
Definition startEntry (run : Run) (state : State) : Entry :=
  {| en_state := state; en_isValid := true;
     en_total := run_total run;
     en_totalTicks := run_totalTicks run |}.

(** The callback of [actions.forEach].  When [this.predictions] has no
    prediction of the name but inherits a property of that name, the value
    found is truthy: it has no [loop], and its [canStart] is [undefined], so
    that the [for] over the repetitions breaks at once, and the entry is
    snapped and reported like any other. *)
Definition entry (fuel : nat) (affected : list string) (run : Run)
    (listedAction : ListedAction) : result Run :=
  match predictions !! la_name listedAction with
  | Some prediction =>
      let state := ensureProgress prediction (run_state run) in
      e ← repetitions fuel (la_name listedAction) prediction
            (Z.to_nat (la_loops listedAction)) (startEntry run state);
      Ok (finishEntry affected run (la_name listedAction) e)
  | None =>
      if inherited (la_name listedAction)
      then Ok (finishEntry affected run (la_name listedAction)
                 (startEntry run (run_state run)))
      else Ok run
  end.

(** [actions.forEach(...)] *)
Fixpoint entries (fuel : nat) (affected : list string) (run : Run)
    (actions : list ListedAction) : result Run :=
  match actions with
  | [] => Ok run
  | listedAction :: actions =>
      run ← entry fuel affected run listedAction;
      entries fuel affected run actions
  end.

(** The state and the snapshots [update] starts from. *)
Definition initialRun (actions : list ListedAction) : Run :=
  let stats := foldl (λ stats name, <[name := 0]> stats) ∅ (statList g) in
  let resources :=
    foldl initAffected (<["town" := 0]> {["mana" := num 250]})
          (affectedOf actions) in
  {| run_state := {| st_resources := resources; st_stats := stats;
                     st_skills := skills g; st_progress := ∅ |};
     run_stats := Snapshot.constructor (Some stats);
     run_skills := Snapshot.constructor (Some (skills g));
     run_total := 0;
     run_totalTicks := 0;
     run_reports := [] |}.

(** [update(actions, container)]: the run after the whole list, with
    [totalTicks] already divided by 50. *)
Definition update (fuel : nat) (actions : list ListedAction) : result Run :=
  run ← entries fuel (affectedOf actions) (initialRun actions) actions;
  Ok {| run_state := run_state run;
        run_stats := run_stats run;
        run_skills := run_skills run;
        run_total := run_total run;
        run_totalTicks := run_totalTicks run / num 50;
        run_reports := run_reports run |}.

End WithPredictions.

(** [initPredictions]: one [Prediction] per entry of the rule table. *)
Definition initPredictions (rules : gmap string Parameters)
  : gmap string Prediction.t :=
  map_imap (λ name params, Some (Prediction.constructor g name params)) rules.

End WithHost.

End Predictor.

(** * Specification-side definitions *)

(** The cost as the specification words it: the sum, over the stat names
    present in both [a.stats] and [s], of
    [a.stats[stat] / (1 + level(s[stat]) / 100)]. *)
Definition sharedCost (g : Host) (a : Action) (s : gmap string Qc) : Qc :=
  map_fold (λ _ x sum, x + sum) 0
    (map_zip_with (λ w e, w / (1 + getLevelFromExp g e / num 100))
                  (a_stats a) s).

(** C3 as the specification words it, for one tick of a loop: the tick asks
    to stop exactly when its progress was zero or negative, or the segment
    index has reached [maxSegments]. *)
Definition stopsOnNonPositive (g : Host) (fuel : nat) (p : Prediction.t)
    (_ticks : Z) (state : State) : Prop :=
  match Prediction.loop p,
        Prediction.exp g _ticks (Prediction.action p) (st_stats state) with
  | Some l, Ok s =>
      match Predictor.tickLoop fuel p l _ticks (set_stats state s),
            Predictor.tick g fuel p _ticks state with
      | Ok lt, Ok (continue, _) =>
          continue = false
          ↔ (Predictor.additionalProgress lt ≤ 0
             ∨ Predictor.below (Predictor.w_segment (Predictor.after lt))
                 (Predictor.maxSegments l (Prediction.action p)) = false)
      | _, _ => True
      end
  | _, _ => True
  end.

(** C7 as the specification words it, for the state a run ends in (a state
    between two ticks) and the progression of the action [name]: the stored
    progress is at least 0 and below the cost of the current segment, the
    one the first [for] of the next tick finds. *)
Definition progressWithinSegment (g : Host)
    (predictions : gmap string Prediction.t) (fuel : nat)
    (actions : list ListedAction) (name : string) : Prop :=
  match Predictor.update g predictions fuel actions, predictions !! name with
  | Ok run, Some p =>
      match Prediction.loop p,
            st_progress (Predictor.run_state run) !! Prediction.name p with
      | Some l, Some progression =>
          match Predictor.seek fuel
                  (l_cost l progression (Prediction.action p)) 0%Z
                  (pr_progress progression) with
          | Ok (segment, _) =>
              0 ≤ pr_progress progression
              ∧ pr_progress progression
                < l_cost l progression (Prediction.action p) segment
          | _ => True
          end
      | _, _ => True
      end
  | _, _ => True
  end.

(** C4 as the specification words it, for a list of one entry whose first
    repetition starts: if the mana is negative after some tick of that
    repetition, the entry is reported invalid. *)
Definition flaggedWhenNegative (g : Host)
    (predictions : gmap string Prediction.t) (fuel : nat)
    (listedAction : ListedAction) (k : nat) : Prop :=
  match predictions !! la_name listedAction with
  | Some p =>
      let state0 :=
        Predictor.ensureProgress g p
          (Predictor.run_state
             (Predictor.initialRun g predictions [listedAction])) in
      let _ticks :=
        Prediction.updateTicks g (Prediction.action p) (st_stats state0) in
      (1 ≤ la_loops listedAction)%Z →
      Predictor.evalCanStart (Prediction.canStart p) (st_resources state0)
        = true →
      (k ≤ Z.to_nat _ticks)%nat →
      match Predictor.predictLoop g fuel p _ticks k state0,
            Predictor.update g predictions fuel [listedAction] with
      | Ok state, Ok run =>
          mana state < 0 →
          ∀ report, report ∈ Predictor.run_reports run →
                    Predictor.rp_isValid report = false
      | _, _ => True
      end
  | None => True
  end.

(** C9 as the specification words it, for the first observation a fresh
    snapshot is given: every tracked key has a null delta after it. *)
Definition nullAfterFirstObservation (first : gmap string Qc) : Prop :=
  ∀ i,
    match Snapshot.attributes
            (Snapshot.snap (Snapshot.constructor None) first) !! i with
    | Some c => Snapshot.delta c = Snapshot.Null
    | None => True
    end.

(** The observations of a snapshot, one [snap] after the other. *)
Definition observe (this : Snapshot.t) (observations : list (gmap string Qc))
  : Snapshot.t :=
  foldl Snapshot.snap this observations.

(** An effect that leaves the mana as it is. *)
Definition keepsMana (e : option Effect) : Prop :=
  ∀ r k, getR (run_effect e (r, k)).1 "mana" = getR r "mana".

(** Every progression of a state counts whole loops of its action:
    [completed] is a multiple of the action's segments a loop. *)
Definition wholeLoops (g : Host) (state : State) : Prop :=
  ∀ name progression,
    st_progress state !! name = Some progression →
    (a_segments (translateClassNames g name) | pr_completed progression)%Z.

(** A prediction built by the constructor has the host's action of its
    name. *)
Definition fromHost (g : Host) (p : Prediction.t) : Prop :=
  Prediction.action p = translateClassNames g (Prediction.name p).

(** The last thing a snapshot was shown, and the one before it; [attrs0] is
    what it was constructed with. *)
Definition lastObservation (attrs0 : gmap string Qc)
    (observations : list (gmap string Qc)) : gmap string Qc :=
  default attrs0 (last observations).

Definition previousObservation (attrs0 : gmap string Qc)
    (observations : list (gmap string Qc)) : gmap string Qc :=
  lastObservation attrs0 (removelast observations).

(** An entry with another validity flag. *)
Definition withValid (e : Predictor.Entry) (isValid : bool)
  : Predictor.Entry :=
  {| Predictor.en_state := Predictor.en_state e;
     Predictor.en_isValid := isValid;
     Predictor.en_total := Predictor.en_total e;
     Predictor.en_totalTicks := Predictor.en_totalTicks e |}.

(** A computation that takes fuel settles on [r] when [r] is a value or a
    [TypeError] and every large enough fuel gives [r]; it terminates when it
    settles on some result. *)
Definition settles {A} (f : nat → result A) (r : result A) : Prop :=
  r ≠ OutOfFuel ∧ ∃ n, ∀ fuel, (n ≤ fuel)%nat → f fuel = r.

Definition terminates {A} (f : nat → result A) : Prop := ∃ r, settles f r.

(** The segment costs of a loop are at least some positive number. *)
Definition boundedCosts (l : Loop) (a : Action) : Prop :=
  ∃ c, 0 < c ∧ ∀ progression segment, c ≤ l_cost l progression a segment.

(** * A small host and rule table to run the definitions on *)

Module Demo.

(** An action of the host, driven by the single stat [strength]. *)
Definition mkAction (name : string) (segments strength : Z) : Action :=
  {| a_name := name; a_expMult := 1; a_townNum := 0; a_varName := name;
     a_segments := segments; a_stats := {["strength" := num strength]};
     a_loopStats := ["strength"]; a_manaCost := 1 |}.

Definition actions (name : string) : Action :=
  if bool_decide (name = "Train Strength") then mkAction name 0 10
  else if bool_decide (name = "Adventure Guild") then mkAction name 3 252
  else mkAction name 2 1.

(** A host with a flat experience curve, no bonus experience, no skill and
    no buff; [Math.pow] is only ever asked for [pow(1, 0.25)]. *)
Definition host : Host :=
  {| statList := ["strength"];
     skills := ∅;
     towns_total := λ _ _, 7%Z;
     translateClassNames := actions;
     getLevelFromExp := λ _, 0;
     getTotalBonusXP := λ _, 1;
     getSkillLevel := λ _, 0;
     getBuffLevel := λ _, 0;
     pow := λ _ _, 1 |}.

(** [r[name]++] *)
Definition increment (name : string) : Effect :=
  λ r k, (<[name := getR r name + 1]> r, k).

(** A loop with the given constant segment cost and constant progress per
    tick, and no bound on its segments. *)
Definition constantLoop (cost progress : Z) (effects : LoopEffect) : Loop :=
  {| l_max := None;
     l_cost := λ _ _ _, num cost;
     l_tick := λ _ _ _ _ _ _, num progress;
     l_effect := effects |}.

(** Two segments of cost 100 a loop, 50 progress a tick; the effects count
    their own invocations in the resources [loops] and [segs]. *)
Definition twoSegments : Loop :=
  constantLoop 100 50
    {| e_segment := Some (increment "segs");
       e_loop := Some (increment "loops");
       e_end := None |}.

Definition noEffects : LoopEffect :=
  {| e_segment := None; e_loop := None; e_end := None |}.

(** A loop whose tick takes progress away. *)
Definition backwards : Loop := constantLoop 100 (-1) noEffects.

(** A loop whose tick makes no progress. *)
Definition stalled : Loop := constantLoop 100 0 noEffects.

(** A loop that makes one and a half segments a tick. *)
Definition leap : Loop := constantLoop 100 150 noEffects.

(** The segment effect of the rule table's ['Adventure Guild']:
    [(r) => (r.mana += 200, r.adventures++)]. *)
Definition guildSegment : Effect :=
  λ r k, let r := <["mana" := getR r "mana" + num 200]> r in
         (<["adventures" := getR r "adventures" + 1]> r, k).

(** ['Adventure Guild'] with its own segment effect, on a constant cost and
    progress that finish the first segment on the last of 252 ticks. *)
Definition guild : Loop :=
  constantLoop 252 252
    {| e_segment := Some guildSegment; e_loop := None; e_end := None |}.

Definition loopRule (affected : list string) (l : Loop) : Parameters :=
  {| par_affected := Some affected; par_effect := None;
     par_loop := Some l; par_canStart := None |}.

(** ['Train Strength': {}] *)
Definition trainStrength : Parameters :=
  {| par_affected := None; par_effect := None;
     par_loop := None; par_canStart := None |}.

(** ['Haggle'], with the start condition and the reputation cost of the rule
    table. *)
Definition haggle : Parameters :=
  {| par_affected := Some ["rep"];
     par_effect := Some (λ r k, (<["rep" := getR r "rep" - 1]> r, k));
     par_loop := None;
     par_canStart :=
       Some (CanStartFun (λ input, bool_decide (0 < getR input "rep"))) |}.

Definition rules : gmap string Parameters :=
  list_to_map
    [ ("Train Strength", trainStrength);
      ("Haggle", haggle);
      ("Two Segments", loopRule ["loops"; "segs"] twoSegments);
      ("Backwards", loopRule [] backwards);
      ("Stalled", loopRule [] stalled);
      ("Leap", loopRule [] leap);
      ("Adventure Guild", loopRule ["gold"; "adventures"] guild) ].

Definition predictions : gmap string Prediction.t :=
  Predictor.initPredictions host rules.

Definition prediction (name : string) (params : Parameters) : Prediction.t :=
  Prediction.constructor host name params.

(** The state of a run right before the first repetition of the only entry
    of a one-entry list. *)
Definition firstState (name : string) (l : Loop) (affected : list string)
  : State :=
  Predictor.ensureProgress host (prediction name (loopRule affected l))
    (Predictor.run_state
       (Predictor.initialRun host predictions
          [{| la_name := name; la_loops := 1 |}])).

(** The second [for] at the last segment of ['Two Segments'], with the
    progress to finish it. *)
Definition lastSegment : Predictor.Walk :=
  {| Predictor.w_segment := 1;
     Predictor.w_progress := num 100;
     Predictor.w_progression :=
       {| pr_progress := num 200; pr_completed := 0; pr_total := 7 |};
     Predictor.w_resources := <["segs" := 1]> {["mana" := num 246]};
     Predictor.w_skills := ∅ |}.

(** The entry a list starts its only action with. *)
Definition firstEntry (state : State) : Predictor.Entry :=
  {| Predictor.en_state := state; Predictor.en_isValid := true;
     Predictor.en_total := 0; Predictor.en_totalTicks := 0 |}.

End Demo.

(** * More of the script: the total time and some rules of the table *)

(** [Math.max] *)
Definition Qcmax (x y : Qc) : Qc := if bool_decide (x ≤ y) then y else x.

(** [Math.floor] *)
Definition floor (x : Qc) : Z := Qfloor x.

(** The integer part of a number, rounded towards zero. *)
Definition trunc (x : Qc) : Z := if bool_decide (0 ≤ x) then Qfloor x else Qceiling x.

(** [x % y] on numbers: the remainder has the sign of [x]. *)
Definition rem (x y : Qc) : Qc := x - y * num (trunc (x / y)).

(** The hours, minutes and seconds [update] shows as the total time,
    computed from [totalTicks] once it is divided by 50:
    [h = Math.floor(totalTicks / 3600)],
    [m = Math.floor(totalTicks % 3600 / 60)],
    [s = Math.floor(totalTicks % 3600 % 60)].
    The digit shown after them, [Math.floor(totalTicks % 1 * 10)], depends
    on how the doubles of the script round the last product and is not
    modelled. *)
Record Clock : Type := {
  c_h : Z;
  c_m : Z;
  c_s : Z;
}.

Definition clock (totalTicks : Qc) : Clock :=
  {| c_h := floor (totalTicks / num 3600);
     c_m := floor (rem totalTicks (num 3600) / num 60);
     c_s := floor (rem (rem totalTicks (num 3600)) (num 60)) |}.

(** Rules of the table of [initPredictions].  A resource that a rule reads
    through [r.x || 0] or that is among the affected resources of the rule
    (the run creates these with 0) reads as [getR]. *)
Module Rules.

(** The rules that pay for the first [good] uses only, as ['Smash Pots']:
    [r.temp1 = (r.temp1 || 0) + 1;
     r.mana += r.temp1 <= towns[0].goodPots ? g.goldCostSmashPots() : 0]. *)
Definition limited (counter resource : string) (good gain : Qc) : Effect :=
  λ r k,
    let r := <[counter := getR r counter + 1]> r in
    (<[resource := getR r resource
                   + if bool_decide (getR r counter ≤ good) then gain else 0]> r,
     k).

(** ['Smash Pots'], for the host's [towns[0].goodPots] and
    [goldCostSmashPots()]. *)
Definition smashPots (goodPots goldCostSmashPots : Qc) : Parameters :=
  {| par_affected := Some ["mana"];
     par_effect := Some (limited "temp1" "mana" goodPots goldCostSmashPots);
     par_loop := None;
     par_canStart := None |}.

(** ['Pick Locks'] *)
Definition pickLocks (goodLocks goldCostLocks : Qc) : Parameters :=
  {| par_affected := Some ["gold"];
     par_effect := Some (limited "temp2" "gold" goodLocks goldCostLocks);
     par_loop := None;
     par_canStart := None |}.

(** ['Buy Mana'] and ['Purchase Mana']:
    [(r) => (r.mana += r.gold * 50, r.gold = 0)]. *)
Definition buyMana : Parameters :=
  {| par_affected := Some ["mana"; "gold"];
     par_effect :=
       Some (λ r k,
               let r := <["mana" := getR r "mana" + getR r "gold" * num 50]> r in
               (<["gold" := 0]> r, k));
     par_loop := None;
     par_canStart := None |}.

(** ['Buy Supplies']:
    [(r) => (r.gold -= 300 - Math.max((r.supplyDiscount || 0) * 20, 0),
             r.supplies = (r.supplies || 0) + 1)]. *)
Definition buySupplies : Parameters :=
  {| par_affected := Some ["gold"];
     par_effect :=
       Some (λ r k,
               let r :=
                 <["gold" :=
                     getR r "gold"
                     - (num 300
                        - Qcmax (getR r "supplyDiscount" * num 20) 0)]> r in
               (<["supplies" := getR r "supplies" + 1]> r, k));
     par_loop := None;
     par_canStart := None |}.

(** ['Haggle']:
    [canStart: (input) => (input.rep > 0)],
    [(r) => (r.rep--, r.supplyDiscount =
               (r.supplyDiscount >= 15 ? 15 : (r.supplyDiscount || 0) + 1))]. *)
Definition haggle : Parameters :=
  {| par_affected := Some ["rep"];
     par_effect :=
       Some (λ r k,
               let r := <["rep" := getR r "rep" - 1]> r in
               (<["supplyDiscount" :=
                    if bool_decide (num 15 ≤ getR r "supplyDiscount")
                    then num 15
                    else getR r "supplyDiscount" + 1]> r, k));
     par_loop := None;
     par_canStart :=
       Some (CanStartFun (λ input, bool_decide (0 < getR input "rep"))) |}.

(** ['Gather Team']:
    [(r) => (r.team = (r.team || 0) + 1, r.gold -= r.team * 200)]. *)
Definition gatherTeam : Parameters :=
  {| par_affected := Some ["gold"];
     par_effect :=
       Some (λ r k,
               let r := <["team" := getR r "team" + 1]> r in
               (<["gold" := getR r "gold" - getR r "team" * num 200]> r, k));
     par_loop := None;
     par_canStart := None |}.

(** ['Craft Armor']:
    [canStart: (input) => (input.hide >= 2)],
    [(r) => (r.hide -= 2, r.armor = (r.armor || 0) + 1)]. *)
Definition craftArmor : Parameters :=
  {| par_affected := Some ["hide"];
     par_effect :=
       Some (λ r k,
               let r := <["hide" := getR r "hide" - 2]> r in
               (<["armor" := getR r "armor" + 1]> r, k));
     par_loop := None;
     par_canStart :=
       Some (CanStartFun (λ input, bool_decide (2 ≤ getR input "hide"))) |}.

(** The experience of the stat a tick of a loop trains,
    [s[a.loopStats[(p.completed + offset) % a.loopStats.length]]].  The
    actions of the host have a list of loop stats that is not empty, and the
    state has every stat: an index or a stat that is missing reads as 0. *)
Definition loopStat (p : Progression) (a : Action) (s : gmap string Qc)
    (offset : Z) : Qc :=
  let i := Z.rem (pr_completed p + offset) (Z.of_nat (length (a_loopStats a))) in
  default 0 (if bool_decide (0 ≤ i)%Z
             then a_loopStats a !! Z.to_nat i ≫= λ stat, s !! stat
             else None).

(** ['Dark Ritual'], for the host's [getSkillLevelFromExp] and its
    [towns[1].getLevel("Witch")]:
    [canStart: (input) => (input.rep <= -5)],
    [max: () => 1],
    [cost: (p) => segment => 1000000 * (segment * 2 + 1)],
    [tick: (p, a, s, k) => offset => {
       let attempt = Math.floor(p.completed / a.segments + .0000001);
       return attempt < 1
         ? (g.getSkillLevelFromExp(k.dark)
            * (1 + g.getLevelFromExp(s[...]) / 100))
           / (1 - towns[1].getLevel("Witch") * .005)
         : 0; }],
    [effect: { loop: (r) => r.ritual++ }].  The skills of a state are those
    of the host, which has [dark]; a skill that is missing reads as 0. *)
Definition darkRitual (g : Host) (getSkillLevelFromExp : Qc → Qc)
    (witch : Qc) : Parameters :=
  {| par_affected := Some ["ritual"];
     par_effect := None;
     par_loop :=
       Some {| l_max := Some (λ _, 1%Z);
               l_cost := λ p a segment,
                 num 1000000 * (num segment * 2 + 1);
               l_tick := λ p a s k r offset,
                 let attempt :=
                   floor (num (pr_completed p) / num (a_segments a)
                          + Q2Qc (1 # 10000000)) in
                 if bool_decide (attempt < 1)%Z
                 then getSkillLevelFromExp (getR k "dark")
                      * (1 + getLevelFromExp g (loopStat p a s offset)
                             / num 100)
                      / (1 - witch * Q2Qc (5 # 1000))
                 else 0;
               l_effect :=
                 {| e_segment := None;
                    e_loop :=
                      Some (λ r k, (<["ritual" := getR r "ritual" + 1]> r, k));
                    e_end := None |} |};
     par_canStart :=
       Some (CanStartFun (λ input, bool_decide (getR input "rep" ≤ - num 5))) |}.

End Rules.

(** An effect run [n] times in a row. *)
Definition times (n : nat) (e : option Effect)
    (rk : gmap string Qc * gmap string Qc) : gmap string Qc * gmap string Qc :=
  Nat.iter n (run_effect e) rk.

(** ** Definitions for the properties of a run *)

(** An entry of the list for which [this.predictions[name]] is truthy: the
    rule table has a rule of that name, or the name is one every object
    inherits. *)
Definition found (predictions : gmap string Prediction.t) (x : ListedAction)
  : Prop :=
  is_Some (predictions !! la_name x) ∨ inherited (la_name x) = true.

Global Instance found_dec predictions x : Decision (found predictions x) :=
  decide (is_Some (predictions !! la_name x) ∨ inherited (la_name x) = true).

(** Resources that differ at most in their mana. *)
Definition sameButMana (r r' : gmap string Qc) : Prop :=
  r' = r ∨ ∃ m, r' = <["mana" := m]> r.

(** A state to run single rules on: 250 mana, town 0, and the resources
    given; the one stat of the small host, no skill and no loop in
    progress. *)
Definition stateWith (resources : list (string * Qc)) : State :=
  {| st_resources :=
       list_to_map resources ∪ <["town" := 0]> {["mana" := num 250]};
     st_stats := {["strength" := 0]};
     st_skills := ∅;
     st_progress := ∅ |}.

(** The experience one tick gives the stat [i], of weight [w], when the
    action takes [t] ticks: the summand of [exp]. *)
Definition share (g : Host) (a : Action) (t : Z) (i : string) (w : Qc) : Qc :=
  w * a_expMult a * (a_manaCost a / num t) * getTotalBonusXP g i.

(** An action that trains no stat: its [stats] is empty. *)
Definition idle : Prediction.t :=
  {| Prediction.name := "Rest";
     Prediction.action :=
       {| a_name := "Rest"; a_expMult := 1; a_townNum := 0;
          a_varName := "Rest"; a_segments := 0; a_stats := ∅;
          a_loopStats := []; a_manaCost := num 100 |};
     Prediction.affected := [];
     Prediction.effect := None;
     Prediction.loop := None;
     Prediction.canStart := CanStartBool true |}.

(** A snapshot is up to date with the attributes [attrs]: it is initialised
    and the value it holds for each of its keys is the one of [attrs]. *)
Definition upToDate (snapshot : Snapshot.t) (attrs : gmap string Qc) : Prop :=
  Snapshot._isInitialized snapshot = true
  ∧ ∀ i c, Snapshot.attributes snapshot !! i = Some c →
           Snapshot.value c = attrs !! i.

(** ** Loops and their [max] *)

(** A loop without its [max], and a rule without the [max] of its loop. *)
Definition uncapped (l : Loop) : Loop :=
  {| l_max := None; l_cost := l_cost l; l_tick := l_tick l;
     l_effect := l_effect l |}.

Definition uncappedRule (params : Parameters) : Parameters :=
  {| par_affected := par_affected params;
     par_effect := par_effect params;
     par_loop := uncapped <$> par_loop params;
     par_canStart := par_canStart params |}.

(** The cost of the first [n] segments of a loop. *)
Fixpoint costOfSegments (cost : Z → Qc) (n : nat) : Qc :=
  match n with
  | O => 0
  | S n => costOfSegments cost n + cost (Z.of_nat n)
  end.

(** The stored progress is below the cost of a whole loop. *)
Definition withinLoop (l : Loop) (a : Action) (progression : Progression)
  : Prop :=
  pr_progress progression
  < costOfSegments (l_cost l progression a) (Z.to_nat (a_segments a)).

(** A loop of at least one segment, whose [max], if it has one, is at least
    1, and whose segments from 0 on have a positive cost that does not depend
    on the stored progress (in the rule table the costs depend on
    [p.completed] and on the segment). *)
Definition regularLoop (l : Loop) (a : Action) : Prop :=
  (1 ≤ a_segments a)%Z
  ∧ (∀ mx, l_max l = Some mx → (1 ≤ mx a)%Z)
  ∧ (∀ progression segment,
       (0 ≤ segment)%Z → 0 < l_cost l progression a segment)
  ∧ (∀ progression x segment,
       l_cost l {| pr_progress := x;
                   pr_completed := pr_completed progression;
                   pr_total := pr_total progression |} a segment
       = l_cost l progression a segment).

Definition regularRules (g : Host) (rules : gmap string Parameters) : Prop :=
  ∀ name params l,
    rules !! name = Some params → par_loop params = Some l →
    regularLoop l (translateClassNames g name).

(** Every loop in progress is within its current loop. *)
Definition withinLoops (g : Host) (rules : gmap string Parameters)
    (state : State) : Prop :=
  ∀ name params l progression,
    rules !! name = Some params → par_loop params = Some l →
    st_progress state !! name = Some progression →
    withinLoop l (translateClassNames g name) progression.

(** A loop of two segments of cost 100 with a [max] of 1, whose tick makes
    the progress of five segments. *)
Definition once : Loop :=
  {| l_max := Some (λ _, 1%Z);
     l_cost := λ _ _ _, num 100;
     l_tick := λ _ _ _ _ _ _, num 500;
     l_effect := {| e_segment := None;
                    e_loop := Some (Demo.increment "loops");
                    e_end := None |} |}.

Definition onceRules : gmap string Parameters :=
  {["Once" := Demo.loopRule ["loops"] once]}.

(** * Properties *)

Import Predictor.

(** ** Arithmetic on [Qc] through [Q] *)

Lemma Qc_eq_Qeq (x y : Qc) : x = y ↔ (this x == this y)%Q.
Proof. split; [by intros ->|apply Qc_is_canon]. Qed.

Ltac qc_to_q :=
  repeat match goal with
  | H : @eq Qc _ _ |- _ => apply Qc_eq_Qeq in H
  | H : ¬ @eq Qc _ _ |- _ => rewrite Qc_eq_Qeq in H
  end;
  try apply Qc_eq_Qeq;
  unfold Qcle, Qclt, Qcminus, Qcplus, Qcopp, Qcmult, Q2Qc in *;
  cbn [this] in *;
  repeat match goal with
  | H : context [Qred ?x] |- _ => rewrite (Qred_correct x) in H
  | |- context [Qred ?x] => rewrite (Qred_correct x)
  end.

Ltac qc_lra := qc_to_q; lra.

Lemma num_succ (n : nat) : num (Z.of_nat (S n)) = num (Z.of_nat n) + 1.
Proof.
  unfold num. by rewrite Nat2Z.inj_succ, <- Z.add_1_r, Z2Qc_inj_add, Z2Qc_inj_1.
Qed.

Lemma num_0 : num 0 = 0.
Proof. apply Z2Qc_inj_0. Qed.

Lemma num_nat_mono (n m : nat) : (n ≤ m)%nat → num (Z.of_nat n) ≤ num (Z.of_nat m).
Proof. intros. apply (proj1 (Z2Qc_inj_le _ _)). lia. Qed.

(** Every number is below a multiple of a positive step. *)
Lemma archimedes (x c : Qc) : 0 < c → ∃ n : nat, x < num (Z.of_nat n) * c.
Proof.
  intros Hc. exists (Z.to_nat (Qfloor (x / c)%Qc + 1)).
  assert (c ≠ 0) as Hc0 by (intros ->; by apply (Qclt_not_eq 0 0)).
  assert (x / c < num (Z.of_nat (Z.to_nat (Qfloor (x / c)%Qc + 1)))) as Hlt.
  { eapply Qclt_le_trans with (num (Qfloor (x / c)%Qc + 1)).
    - unfold Qclt, num, Qc_of_Z. cbn [this]. apply Qlt_floor.
    - apply (proj1 (Z2Qc_inj_le _ _)). lia. }
  apply (Qcmult_lt_compat_r _ _ c) in Hlt; [|done].
  replace (x / c * c) with x in Hlt; [done|].
  field. done.
Qed.

(** ** The monad of results *)

Lemma bind_Ok {A B} (m : result A) (f : A → result B) (b : B) :
  m ≫= f = Ok b ↔ ∃ a, m = Ok a ∧ f a = Ok b.
Proof.
  destruct m; simpl; split.
  - intros Hf. by exists a.
  - by intros (a' & [= <-] & Hf).
  - done.
  - by intros (a' & [=] & _).
  - done.
  - by intros (a' & [=] & _).
Qed.

Ltac inv_bind H :=
  let a := fresh "a" in
  let Ha := fresh "H" a in
  apply bind_Ok in H as (a & Ha & H).

(** ** [Prediction.ticks] and [Prediction.exp] *)

Lemma ticks_Ok (_ticks n : Z) :
  Prediction.ticks _ticks = Ok n ↔ _ticks ≠ 0%Z ∧ n = _ticks.
Proof.
  unfold Prediction.ticks. case_bool_decide as Hz; split.
  - done.
  - by intros [? _].
  - by intros [= <-].
  - by intros [_ ->].
Qed.

Lemma ticks_nonzero (_ticks : Z) :
  _ticks ≠ 0%Z → Prediction.ticks _ticks = Ok _ticks.
Proof. intros. by apply ticks_Ok. Qed.

(** [exp] always returns when [_ticks] is not zero. *)
Lemma exp_returns (g : Host) (_ticks : Z) (a : Action) (s : gmap string Qc) :
  _ticks ≠ 0%Z → ∃ s', Prediction.exp g _ticks a s = Ok s'.
Proof.
  intros Hticks. unfold Prediction.exp. generalize (statList g) as l.
  intros l. revert s. induction l as [|i l IH]; intros s; cbn [foldl]; [eauto|].
  assert (∃ s', Prediction.addStatExp g _ticks a (Ok s) i = Ok s')
    as [s' ->]; [|apply IH].
  unfold Prediction.addStatExp. simpl.
  destruct (a_stats a !! i), (s !! i); eauto.
  rewrite ticks_nonzero by done. simpl. eauto.
Qed.

(** ** The first [for] of [tick] *)

(** More fuel does not change a result. *)
Lemma seek_fuel_mono (loopCost : Z → Qc) (n m : nat) (segment : Z)
    (progress : Qc) (r : Z * Qc) :
  seek n loopCost segment progress = Ok r → (n ≤ m)%nat →
  seek m loopCost segment progress = Ok r.
Proof.
  revert m segment progress.
  induction n as [|n IH]; intros m segment progress Hr Hle.
  - simpl in Hr. destruct m; simpl; case_bool_decide; done.
  - destruct m as [|m]; [lia|]. simpl in *.
    case_bool_decide; [|done]. apply IH; [done|lia].
Qed.

(** What is left is below the cost of the segment found, and not negative
    when the progress was not. *)
Lemma seek_remainder (loopCost : Z → Qc) (fuel : nat) (segment : Z)
    (progress : Qc) (segment' : Z) (progress' : Qc) :
  seek fuel loopCost segment progress = Ok (segment', progress') →
  progress' < loopCost segment' ∧ (0 ≤ progress → 0 ≤ progress').
Proof.
  revert segment progress.
  induction fuel as [|fuel IH]; intros segment progress Hr; simpl in Hr.
  - case_bool_decide as Hc; [done|]. injection Hr as <- <-.
    split; [by apply Qclt_nge|done].
  - case_bool_decide as Hc.
    + apply IH in Hr as [Hlt Hpos]. split; [done|].
      intros _. apply Hpos. qc_lra.
    + injection Hr as <- <-. split; [by apply Qclt_nge|done].
Qed.

(** With costs of at least [c > 0], as many iterations as [c] fits in the
    progress are enough. *)
Lemma seek_returns (loopCost : Z → Qc) (c : Qc) (n : nat) (segment : Z)
    (progress : Qc) :
  0 < c → (∀ segment, c ≤ loopCost segment) →
  progress < num (Z.of_nat n) * c →
  ∃ r, seek n loopCost segment progress = Ok r.
Proof.
  intros Hc Hcost. revert segment progress.
  induction n as [|n IH]; intros segment progress Hlt; simpl.
  - case_bool_decide as Hle; [|eauto]. exfalso.
    pose proof (Hcost segment). change (num (Z.of_nat 0)) with (num 0) in Hlt.
    rewrite num_0 in Hlt. qc_lra.
  - case_bool_decide as Hle; [|eauto]. apply IH.
    pose proof (Hcost segment). rewrite num_succ in Hlt.
    remember (num (Z.of_nat n)) as k.
    assert ((k + 1) * c = k * c + c) as Heq by ring. rewrite Heq in Hlt.
    remember (k * c) as kc. clear Heqkc Heq Heqk. qc_lra.
Qed.

(** ** Helpers *)

Lemma bind_ret {A B} (a : A) (f : A → result B) : Ok a ≫= f = f a.
Proof. done. Qed.

(** Linear arithmetic with integer constants. *)
Ltac qc_linear :=
  unfold num, Qc_of_Z in *; qc_to_q; unfold inject_Z in *; lra.

Lemma num_le (n m : Z) : num n ≤ num m ↔ (n ≤ m)%Z.
Proof. symmetry. apply Z2Qc_inj_le. Qed.

Lemma num_lt (n m : Z) : num n < num m ↔ (n < m)%Z.
Proof. symmetry. apply Z2Qc_inj_lt. Qed.

Lemma num_add (n m : Z) : num (n + m) = num n + num m.
Proof. apply Z2Qc_inj_add. Qed.

Lemma num_mul (n m : Z) : num (n * m) = num n * num m.
Proof. apply Z2Qc_inj_mul. Qed.

Lemma num_1 : num 1 = 1.
Proof. apply Z2Qc_inj_1. Qed.

Lemma num_nat_S (n : nat) : num (Z.of_nat (S n)) = num (Z.of_nat n) + 1.
Proof. apply num_succ. Qed.

Lemma addStatExp_Ok (g : Host) (_ticks : Z) (a : Action) (s : gmap string Qc)
    (i : string) :
  _ticks ≠ 0%Z →
  Prediction.addStatExp g _ticks a (Ok s) i
  = Ok match a_stats a !! i, s !! i with
       | Some w, Some e =>
           <[i := e + w * a_expMult a * (a_manaCost a / num _ticks)
                      * getTotalBonusXP g i]> s
       | _, _ => s
       end.
Proof.
  intros Hticks. unfold Prediction.addStatExp. simpl.
  destruct (a_stats a !! i), (s !! i); try done.
  by rewrite ticks_nonzero.
Qed.

(** One [exp]: every stat of the host's list that the action and the state
    share gains its share of a tick, once. *)
Lemma exp_lookup (g : Host) (_ticks : Z) (a : Action) (l : list string)
    (s : gmap string Qc) :
  _ticks ≠ 0%Z → NoDup l →
  ∃ s',
    foldl (Prediction.addStatExp g _ticks a) (Ok s) l = Ok s'
    ∧ ∀ i,
        s' !! i
        = match a_stats a !! i, s !! i with
          | Some w, Some e =>
              Some (if decide (i ∈ l)
                    then e + w * a_expMult a * (a_manaCost a / num _ticks)
                               * getTotalBonusXP g i
                    else e)
          | _, _ => s !! i
          end.
Proof.
  intros Hticks. revert s. induction l as [|j l IH]; intros s Hnodup.
  - exists s. split; [done|]. intros i.
    destruct (a_stats a !! i), (s !! i) eqn:Hs; try done.
  - apply NoDup_cons in Hnodup as [Hj Hnodup]. cbn [foldl].
    rewrite addStatExp_Ok by done.
    destruct (IH (match a_stats a !! j, s !! j with
                  | Some w, Some e =>
                      <[j := e + w * a_expMult a * (a_manaCost a / num _ticks)
                                 * getTotalBonusXP g j]> s
                  | _, _ => s
                  end) Hnodup) as (s' & -> & Hs').
    exists s'. split; [done|]. intros i. rewrite Hs'.
    destruct (decide (i = j)) as [->|Hij].
    + destruct (decide (j ∈ j :: l)) as [_|Hn]; [|exfalso; apply Hn; left].
      destruct (decide (j ∈ l)) as [?|_]; [done|].
      destruct (a_stats a !! j) as [w|], (s !! j) as [e|] eqn:Hs; try done.
      * by rewrite lookup_insert_eq.
      * by rewrite Hs.
    + assert (match a_stats a !! j, s !! j with
              | Some w, Some e =>
                  <[j := e + w * a_expMult a * (a_manaCost a / num _ticks)
                             * getTotalBonusXP g j]> s
              | _, _ => s
              end !! i = s !! i) as ->.
      { destruct (a_stats a !! j), (s !! j); try done.
        by rewrite lookup_insert_ne. }
      destruct (a_stats a !! i), (s !! i); try done.
      destruct (decide (i ∈ l)) as [Hin|Hin],
               (decide (i ∈ j :: l)) as [Hin'|Hin']; try done.
      * exfalso. apply Hin'. by right.
      * by apply elem_of_cons in Hin' as [?|?].
Qed.

Lemma foldl_addStatExp_TypeError (g : Host) (_ticks : Z) (a : Action)
    (l : list string) :
  foldl (Prediction.addStatExp g _ticks a) TypeError l = TypeError.
Proof. by induction l. Qed.

(** What an [exp] that returns has done. *)
Lemma exp_inv (g : Host) (_ticks : Z) (a : Action) (l : list string)
    (s s' : gmap string Qc) :
  NoDup l →
  foldl (Prediction.addStatExp g _ticks a) (Ok s) l = Ok s' →
  ∀ i,
    s' !! i
    = match a_stats a !! i, s !! i with
      | Some w, Some e =>
          Some (if decide (i ∈ l)
                then e + w * a_expMult a * (a_manaCost a / num _ticks)
                           * getTotalBonusXP g i
                else e)
      | _, _ => s !! i
      end.
Proof.
  intros Hnodup Hexp. destruct (decide (_ticks = 0%Z)) as [->|Hticks].
  - assert (s' = s ∧ ∀ i, i ∈ l → a_stats a !! i = None ∨ s !! i = None)
      as [-> Hnone].
    { revert Hexp. clear Hnodup. induction l as [|j l IH]; intros Hexp.
      - injection Hexp as <-. split; [done|]. by intros i Hi%elem_of_nil.
      - cbn [foldl] in Hexp. unfold Prediction.addStatExp at 2 in Hexp.
        cbn [mbind result_bind] in Hexp.
        destruct (a_stats a !! j) as [w|] eqn:Hw,
                 (s !! j) as [e|] eqn:He;
          try (destruct (IH Hexp) as [-> Hnone]; split; [done|];
               intros i [->|Hi]%elem_of_cons; [by eauto|by apply Hnone]).
        by rewrite foldl_addStatExp_TypeError in Hexp. }
    intros i. destruct (a_stats a !! i) as [w|] eqn:Hw,
                       (s !! i) as [e|] eqn:He; try done.
    destruct (decide (i ∈ l)) as [Hi|_]; [|done].
    destruct (Hnone i Hi) as [Hn|Hn]; congruence.
  - destruct (exp_lookup g _ticks a l s Hticks Hnodup) as (s1 & Hs1 & Hlookup).
    rewrite Hs1 in Hexp. by injection Hexp as <-.
Qed.

(** ** Tick counts *)

Lemma foldl_ext_in {A B} (f h : A → B → A) (l : list B) (a : A) :
  (∀ c i, i ∈ l → f c i = h c i) → foldl f a l = foldl h a l.
Proof.
  revert a. induction l as [|x l IH]; intros a Hfh; simpl; [done|].
  rewrite Hfh by left. apply IH. intros c i Hi. apply Hfh. by right.
Qed.

Lemma foldl_Qcplus_acc {A} (f : A → Qc) (l : list A) (acc : Qc) :
  foldl (λ c i, c + f i) acc l = acc + foldl (λ c i, c + f i) 0 l.
Proof.
  revert acc. induction l as [|x l IH]; intros acc; simpl.
  - by rewrite Qcplus_0_r.
  - rewrite (IH (acc + f x)), (IH (0 + f x)). ring.
Qed.

Lemma map_fold_Qcplus_delete (m : gmap string Qc) (i : string) (x : Qc) :
  m !! i = Some x →
  map_fold (λ _ x sum, x + sum) 0 m
  = x + map_fold (λ _ x sum, x + sum) 0 (delete i m).
Proof.
  intros Hi. apply (map_fold_delete_L (λ _ x sum, x + sum)); [|done].
  intros; ring.
Qed.

(** Summing the values of a map along a duplicate-free list of keys that
    covers its domain is summing the map. *)
Lemma sum_along_keys (l : list string) (m : gmap string Qc) :
  NoDup l →
  (∀ i, is_Some (m !! i) → i ∈ l) →
  foldl (λ c i, c + default 0 (m !! i)) 0 l
  = map_fold (λ _ x sum, x + sum) 0 m.
Proof.
  intros Hnd. revert m. induction Hnd as [|k l Hk Hnd IH]; intros m Hdom.
  - assert (m = ∅) as ->.
    { apply map_empty. intros i. apply eq_None_not_Some.
      intros Hi. by apply Hdom, elem_of_nil in Hi. }
    by rewrite map_fold_empty.
  - simpl. rewrite foldl_Qcplus_acc, Qcplus_0_l.
    assert (foldl (λ c i, c + default 0 (m !! i)) 0 l
            = foldl (λ c i, c + default 0 (delete k m !! i)) 0 l) as ->.
    { apply foldl_ext_in. intros c i Hi.
      rewrite lookup_delete_ne; [done|]. by intros ->. }
    rewrite IH.
    + destruct (m !! k) as [x|] eqn:Hmk; simpl.
      * by rewrite (map_fold_Qcplus_delete m k x).
      * rewrite delete_id by done. ring.
    + intros i [x Hi]. rewrite lookup_delete_Some in Hi.
      destruct Hi as [Hne Hi].
      assert (i ∈ k :: l) as Hin by eauto.
      apply elem_of_cons in Hin as [->|]; done.
Qed.

Lemma updateTicks_cost (g : Host) (a : Action) (s : gmap string Qc) :
  foldl (Prediction.addStatCost g a s) 0 (statList g)
  = foldl (λ c i, c + default 0
             (map_zip_with (λ w e, w / (1 + getLevelFromExp g e / num 100))
                           (a_stats a) s !! i)) 0 (statList g).
Proof.
  apply foldl_ext_in. intros c i _.
  unfold Prediction.addStatCost. rewrite map_lookup_zip_with.
  by destruct (a_stats a !! i), (s !! i).
Qed.

(** The stats a run starts from are those of [statList]. *)
Lemma initial_stats (l : list string) (stats : gmap string Qc) (i : string) :
  is_Some (foldl (λ stats name, <[name := 0]> stats) stats l !! i) →
  i ∈ l ∨ is_Some (stats !! i).
Proof.
  revert stats. induction l as [|k l IH]; intros stats Hi; simpl in Hi.
  - by right.
  - apply IH in Hi as [Hi|Hi]; [left; by right|].
    destruct (decide (k = i)) as [->|Hne]; [left; by left|].
    rewrite lookup_insert_ne in Hi by done. by right.
Qed.

(** C1.  [updateTicks(a, s)] is [ceil(a.manaCost() * cost - 1e-6)], where
    [cost] is the sum over the stat names present in both [a.stats] and [s]
    of [a.stats[stat] / (1 + level(s[stat]) / 100)]; stat names are those of
    the host's [statList], which lists each once, as are the keys of the
    stats a run starts from.  In particular a rule with stats
    [{strength: 10}], mana cost 1 and strength experience 0 at level 0 needs
    10 ticks. *)
Theorem updateTicks_spec (g : Host) (a : Action) (s : gmap string Qc) :
  NoDup (statList g) →
  (∀ i, is_Some (a_stats a !! i) → is_Some (s !! i) → i ∈ statList g) →
  Prediction.updateTicks g a s
    = ceil (a_manaCost a * sharedCost g a s - epsilon)
  ∧ (a_stats a = {["strength" := num 10]} →
     a_manaCost a = 1 →
     s !! "strength" = Some 0 →
     getLevelFromExp g 0 = 0 →
     Prediction.updateTicks g a s = 10%Z)
  ∧ (∀ predictions actions i,
       is_Some (st_stats (run_state (initialRun g predictions actions)) !! i) →
       i ∈ statList g).
Proof.
  intros Hnd Hdom.
  assert (Prediction.updateTicks g a s
          = ceil (a_manaCost a * sharedCost g a s - epsilon)) as Heq.
  { unfold Prediction.updateTicks, sharedCost.
    rewrite updateTicks_cost, sum_along_keys; [done..|].
    intros i [x Hi]. apply map_lookup_zip_with_Some in Hi
      as (w & e & _ & Hw & He). eauto. }
  split; [done|]. split.
  2: { intros predictions actions i Hi. simpl in Hi.
       apply initial_stats in Hi as [Hi|[x Hi]]; [done|].
       by rewrite lookup_empty in Hi. }
  intros Hstats Hcost Hs Hlvl. rewrite Heq. unfold sharedCost.
  assert (map_zip_with (λ w e, w / (1 + getLevelFromExp g e / num 100))
            (a_stats a) s
          = {["strength" := num 10 / (1 + 0 / num 100)]}) as ->.
  { apply map_eq. intros i. rewrite map_lookup_zip_with, Hstats.
    destruct (decide (i = "strength")) as [->|Hne].
    - rewrite !lookup_singleton_eq, Hs. simpl. by rewrite Hlvl.
    - by rewrite !lookup_singleton_ne. }
  rewrite map_fold_singleton, Hcost. reflexivity.
Qed.

Lemma updateTicks_spec_witness :
  Prediction.updateTicks Demo.host (Demo.actions "Train Strength")
    {["strength" := 0]}
  = ceil (1 * sharedCost Demo.host (Demo.actions "Train Strength")
                {["strength" := 0]} - epsilon)
  ∧ Prediction.updateTicks Demo.host (Demo.actions "Train Strength")
      {["strength" := 0]} = 10%Z.
Proof.
  destruct (updateTicks_spec Demo.host (Demo.actions "Train Strength")
              {["strength" := 0]}) as (Hformula & Hten & _).
  - apply NoDup_singleton.
  - intros i _ [x Hi]. apply lookup_singleton_Some in Hi as [<- _]. by left.
  - split; [exact Hformula|]. by apply Hten.
Defined.

(** ** The second [for] of [tick] *)

Lemma walk_step (l : Loop) (a : Action) (fuel : nat) (w : Walk) :
  walkCond l a w = true →
  walk (S fuel) l a w = walk fuel l a (walkNext l a (walkBody l a w)).
Proof. intros Hc. simpl. by rewrite Hc. Qed.

Lemma walk_stop (l : Loop) (a : Action) (fuel : nat) (w : Walk) :
  walkCond l a w = false → walk fuel l a w = Ok w.
Proof. intros Hc. destruct fuel; simpl; by rewrite Hc. Qed.

Lemma walk_fuel_mono (l : Loop) (a : Action) (n m : nat) (w w' : Walk) :
  walk n l a w = Ok w' → (n ≤ m)%nat → walk m l a w = Ok w'.
Proof.
  revert m w. induction n as [|n IH]; intros m w Hw Hle.
  - simpl in Hw. destruct (walkCond l a w) eqn:Hc; [done|].
    by rewrite walk_stop.
  - destruct m as [|m]; [lia|]. simpl in *.
    destruct (walkCond l a w); [|done]. apply IH; [done|lia].
Qed.

(** The loop ends with its condition false. *)
Lemma walk_exit (l : Loop) (a : Action) (fuel : nat) (w w' : Walk) :
  walk fuel l a w = Ok w' → walkCond l a w' = false.
Proof.
  revert w. induction fuel as [|fuel IH]; intros w Hw; simpl in Hw;
    destruct (walkCond l a w) eqn:Hc; try done.
  - by injection Hw as <-.
  - by apply IH in Hw.
  - by injection Hw as <-.
Qed.

(** The progression after the body: a loop is completed or nothing moves. *)
Lemma walkBody_progression (l : Loop) (a : Action) (w : Walk) :
  w_progression (walkNext l a (walkBody l a w))
  = if bool_decide (a_segments a - 1 ≤ w_segment w)%Z
    then {| pr_progress := 0;
            pr_completed := (pr_completed (w_progression w) + a_segments a)%Z;
            pr_total := (pr_total (w_progression w) + 1)%Z |}
    else w_progression w.
Proof. unfold walkNext, walkBody. simpl. by case_bool_decide. Qed.

Lemma walkBody_progress (l : Loop) (a : Action) (w : Walk) :
  w_progress (walkBody l a w) = w_progress w.
Proof. unfold walkBody. simpl. by case_bool_decide. Qed.

(** Over the whole loop [n] loops are completed, for some [n]: [completed]
    grows by [n] times the segments of a loop, [total] by [n], and the stored
    progress is kept when [n] is zero and is zero otherwise. *)
Lemma walk_progression (l : Loop) (a : Action) (fuel : nat) (w w' : Walk) :
  walk fuel l a w = Ok w' →
  ∃ n : nat,
    pr_completed (w_progression w')
      = (pr_completed (w_progression w) + Z.of_nat n * a_segments a)%Z
    ∧ pr_total (w_progression w')
      = (pr_total (w_progression w) + Z.of_nat n)%Z
    ∧ pr_progress (w_progression w')
      = match n with
        | O => pr_progress (w_progression w)
        | S _ => 0
        end.
Proof.
  revert w. induction fuel as [|fuel IH]; intros w Hw; simpl in Hw;
    destruct (walkCond l a w) eqn:Hc; try done.
  - injection Hw as <-. exists O. repeat split; lia.
  - apply IH in Hw as (n & Hcompleted & Htotal & Hprogress).
    rewrite walkBody_progression in Hcompleted, Htotal, Hprogress.
    case_bool_decide.
    + exists (S n). simpl in *. repeat split; [lia..|].
      by destruct n.
    + by exists n.
  - injection Hw as <-. exists O. repeat split; lia.
Qed.

(** With costs of at least [c > 0] the loop returns. *)
Lemma walk_returns (l : Loop) (a : Action) (c : Qc) (n : nat) (w : Walk) :
  0 < c → (∀ p segment, c ≤ l_cost l p a segment) →
  w_progress w < num (Z.of_nat n) * c →
  ∃ w', walk n l a w = Ok w'.
Proof.
  intros Hc Hcost. revert w.
  induction n as [|n IH]; intros w Hlt; simpl;
    destruct (walkCond l a w) eqn:Hcond; eauto.
  - exfalso. apply andb_prop in Hcond as [Hle _].
    apply bool_decide_eq_true in Hle.
    pose proof (Hcost (w_progression w) (w_segment w)).
    change (num (Z.of_nat 0)) with (num 0) in Hlt. rewrite num_0 in Hlt.
    qc_lra.
  - apply IH. unfold walkNext. cbn [w_progress].
    rewrite walkBody_progress.
    pose proof (Hcost (w_progression (walkBody l a w))
                      (w_segment (walkBody l a w))).
    rewrite num_succ in Hlt.
    remember (num (Z.of_nat n)) as k.
    assert ((k + 1) * c = k * c + c) as Heq by ring. rewrite Heq in Hlt.
    remember (k * c) as kc. clear Heqkc Heq Heqk.
    remember (l_cost l (w_progression (walkBody l a w)) a
                     (w_segment (walkBody l a w))) as x.
    clear Heqx. qc_lra.
Qed.

(** ** One tick *)

Lemma tickLoop_inv (fuel : nat) (p : Prediction.t) (l : Loop) (_ticks : Z)
    (state : State) (lt : LoopTick) :
  tickLoop fuel p l _ticks state = Ok lt →
  ∃ progression segment progress,
    st_progress state !! Prediction.name p = Some progression
    ∧ seek fuel (l_cost l progression (Prediction.action p)) 0%Z
           (pr_progress progression) = Ok (segment, progress)
    ∧ _ticks ≠ 0%Z
    ∧ additionalProgress lt
      = l_tick l progression (Prediction.action p) (st_stats state)
               (st_skills state) (st_resources state) segment
        * (a_manaCost (Prediction.action p) / num _ticks)
    ∧ walk fuel l (Prediction.action p)
           (walkStart state progression segment progress
                      (additionalProgress lt)) = Ok (after lt).
Proof.
  unfold tickLoop. intros Hlt.
  destruct (st_progress state !! Prediction.name p) as [progression|];
    [|done].
  inv_bind Hlt. destruct a as [segment progress]. simpl in Hlt.
  inv_bind Hlt. apply ticks_Ok in Ha0 as [Hticks ->].
  inv_bind Hlt. injection Hlt as <-. simpl.
  exists progression, segment, progress. done.
Qed.

(** With segment costs of at least [c > 0], a progression to work on and a
    tick count that is not zero, one tick of a loop returns once the fuel is
    large enough. *)
Lemma tickLoop_returns (p : Prediction.t) (l : Loop) (_ticks : Z)
    (state : State) (progression : Progression) (c : Qc) :
  0 < c →
  (∀ pr segment, c ≤ l_cost l pr (Prediction.action p) segment) →
  st_progress state !! Prediction.name p = Some progression →
  _ticks ≠ 0%Z →
  ∃ n, ∀ fuel, (n ≤ fuel)%nat → ∃ lt, tickLoop fuel p l _ticks state = Ok lt.
Proof.
  intros Hc Hcost Hprogression Hticks.
  destruct (archimedes (pr_progress progression) c Hc) as [n1 Hn1].
  destruct (seek_returns (l_cost l progression (Prediction.action p)) c n1 0
              (pr_progress progression) Hc (Hcost progression) Hn1)
    as [[segment progress] Hseek].
  set (delta := l_tick l progression (Prediction.action p) (st_stats state)
                  (st_skills state) (st_resources state) segment
                * (a_manaCost (Prediction.action p) / num _ticks)).
  destruct (archimedes (progress + delta) c Hc) as [n2 Hn2].
  exists (n1 `max` n2)%nat. intros fuel Hfuel.
  unfold tickLoop. rewrite Hprogression.
  rewrite (seek_fuel_mono _ n1 fuel _ _ _ Hseek) by lia. simpl.
  rewrite ticks_nonzero by done. simpl.
  destruct (walk_returns l (Prediction.action p) c fuel
              (walkStart state progression segment progress delta) Hc Hcost)
    as [w Hw].
  { simpl. eapply Qclt_le_trans; [exact Hn2|].
    apply Qcmult_le_compat_r; [|by apply Qclt_le_weak].
    apply num_nat_mono. lia. }
  unfold delta in Hw. rewrite Hw. simpl. eauto.
Qed.

(** [tick] on an action with a loop, in terms of [tickLoop]. *)
Lemma tick_loop (g : Host) (fuel : nat) (p : Prediction.t) (l : Loop)
    (_ticks : Z) (state : State) (s : gmap string Qc) (lt : LoopTick) :
  Prediction.loop p = Some l →
  Prediction.exp g _ticks (Prediction.action p) (st_stats state) = Ok s →
  tickLoop fuel p l _ticks (set_stats state s) = Ok lt →
  tick g fuel p _ticks state
  = Ok (truthy (additionalProgress lt)
          && below (w_segment (after lt))
                   (maxSegments l (Prediction.action p)),
        tickState p (set_stats state s) (after lt)).
Proof. intros Hl Hs Hlt. unfold tick. by rewrite Hs, Hl; simpl; rewrite Hlt. Qed.

Lemma tick_inv (g : Host) (fuel : nat) (p : Prediction.t) (_ticks : Z)
    (state state' : State) (continue : bool) :
  tick g fuel p _ticks state = Ok (continue, state') →
  ∃ s, Prediction.exp g _ticks (Prediction.action p) (st_stats state) = Ok s
    ∧ match Prediction.loop p with
      | None => continue = true ∧ state' = set_stats state s
      | Some l =>
          ∃ lt, tickLoop fuel p l _ticks (set_stats state s) = Ok lt
            ∧ continue = truthy (additionalProgress lt)
                         && below (w_segment (after lt))
                                  (maxSegments l (Prediction.action p))
            ∧ state' = tickState p (set_stats state s) (after lt)
      end.
Proof.
  unfold tick. intros Ht. inv_bind Ht. exists a. split; [done|].
  destruct (Prediction.loop p) as [l|].
  - inv_bind Ht. exists a0. by injection Ht as <- <-.
  - by injection Ht as <- <-.
Qed.

Lemma truthy_false (x : Qc) : truthy x = false ↔ x = 0.
Proof.
  unfold truthy. rewrite negb_false_iff. apply bool_decide_eq_true.
Qed.

(** ** The repetitions of an entry *)

Lemma repetitions_S (g : Host) (fuel : nat) (name : string)
    (p : Prediction.t) (n : nat) (e : Entry) :
  repetitions g fuel name p (S n) e
  = if evalCanStart (Prediction.canStart p) (st_resources (en_state e))
    then repetition g fuel name p e ≫= repetitions g fuel name p n
    else Ok e.
Proof. reflexivity. Qed.

(** ** Loop completion *)

Ltac qc_decide := vm_compute; first [reflexivity | discriminate | done].

(** Two closed numbers are equal when they evaluate to the same fraction. *)
Ltac qc_eq := apply Qc_is_canon; vm_compute; reflexivity.

(** A result that evaluates to a value with a property has that value. *)
Lemma result_eval {A} (r : result A) (P : A → Prop) :
  match r with Ok a => P a | _ => False end → ∃ a, r = Ok a ∧ P a.
Proof. destruct r; [eauto|done..]. Qed.

(** C2.  When the walk over completed segments is at an index of at least
    [segments - 1] (the last segment of the loop), with the progress left at
    least the cost of that segment and the index below [maxSegments], a loop
    completes: the stored progress is reset to 0, [completed] grows by
    [segments], [total] by 1, the index wraps back by [segments] (and is then
    incremented), [effect.loop] runs once and [effect.segment] once after it.
    Below the last segment only [effect.segment] runs, once for the segment
    crossed.  With two segments of cost 100 a loop and 50 progress a tick,
    four ticks (200 progress) take [completed] from 0 to 2 and [total] from
    7 to 8, and run [effect.loop] once and [effect.segment] twice. *)
Theorem loop_completion (l : Loop) (a : Action) (w : Walk) (fuel : nat) :
  l_cost l (w_progression w) a (w_segment w) ≤ w_progress w →
  below (w_segment w) (maxSegments l a) = true →
  ((a_segments a - 1 ≤ w_segment w)%Z →
   let completed :=
     {| pr_progress := 0;
        pr_completed := (pr_completed (w_progression w) + a_segments a)%Z;
        pr_total := (pr_total (w_progression w) + 1)%Z |} in
   let rk := run_effect (e_segment (l_effect l))
               (run_effect (e_loop (l_effect l))
                  (w_resources w, w_skills w)) in
   walk (S fuel) l a w
   = walk fuel l a
       {| w_segment := (w_segment w - a_segments a + 1)%Z;
          w_progress :=
            w_progress w - l_cost l completed a (w_segment w - a_segments a);
          w_progression := completed;
          w_resources := rk.1;
          w_skills := rk.2 |})
  ∧ ((w_segment w < a_segments a - 1)%Z →
     let rk := run_effect (e_segment (l_effect l))
                 (w_resources w, w_skills w) in
     walk (S fuel) l a w
     = walk fuel l a
         {| w_segment := (w_segment w + 1)%Z;
            w_progress :=
              w_progress w - l_cost l (w_progression w) a (w_segment w);
            w_progression := w_progression w;
            w_resources := rk.1;
            w_skills := rk.2 |})
  ∧ ∃ run,
      update Demo.host Demo.predictions 2
        [{| la_name := "Two Segments"; la_loops := 4 |}] = Ok run
      ∧ st_progress (run_state run) !! "Two Segments"
        = Some {| pr_progress := 0; pr_completed := 0 + 2; pr_total := 7 + 1 |}
      ∧ getR (st_resources (run_state run)) "loops" = 1
      ∧ getR (st_resources (run_state run)) "segs" = 2.
Proof.
  intros Hcost Hbelow.
  assert (walkCond l a w = true) as Hcond.
  { unfold walkCond. rewrite Hbelow, andb_true_r. by apply bool_decide_eq_true. }
  split; [|split].
  - intros Hlast completed rk. rewrite walk_step by done.
    unfold walkNext, walkBody, completeLoop.
    rewrite bool_decide_eq_true_2 by done. subst rk completed. cbn.
    by destruct (run_effect (e_loop (l_effect l)) (w_resources w, w_skills w)).
  - intros Hinner rk. rewrite walk_step by done.
    unfold walkNext, walkBody.
    rewrite bool_decide_eq_false_2 by lia. by subst rk.
  - apply result_eval. vm_compute.
    repeat split.
Qed.

Lemma loop_completion_witness :
  ∃ w, walk 1 Demo.twoSegments (Demo.actions "Two Segments") Demo.lastSegment
       = Ok w
    ∧ w_segment w = 0%Z
    ∧ w_progression w
      = {| pr_progress := 0; pr_completed := 2; pr_total := 8 |}
    ∧ getR (w_resources w) "loops" = 1
    ∧ getR (w_resources w) "segs" = 2.
Proof.
  destruct (loop_completion Demo.twoSegments (Demo.actions "Two Segments")
              Demo.lastSegment 0) as (Hlast & _ & _); [qc_decide..|].
  rewrite Hlast by qc_decide.
  apply result_eval. vm_compute. repeat split.
Defined.

(** ** When a tick asks to stop *)

(** C3, amended.  A tick of an action without a loop always asks to go on.
    A tick of a loop asks to stop exactly when the progress of the tick is
    zero (the test is the truthiness of [additionalProgress], so a negative
    progress does not stop) or the segment index has reached [maxSegments].
    The tick does return when the tick count is not zero: at once without a
    loop, and with a loop, segment costs of at least some [c > 0] and a
    progression for the action, as soon as the fuel is large enough. *)
Theorem tick_continue (g : Host) (p : Prediction.t) (_ticks : Z)
    (state : State) :
  (∀ fuel continue state',
     tick g fuel p _ticks state = Ok (continue, state') →
     match Prediction.loop p with
     | None => continue = true
     | Some l =>
         ∃ s lt,
           Prediction.exp g _ticks (Prediction.action p) (st_stats state)
             = Ok s
           ∧ tickLoop fuel p l _ticks (set_stats state s) = Ok lt
           ∧ (continue = false
              ↔ (additionalProgress lt = 0
                 ∨ below (w_segment (after lt))
                     (maxSegments l (Prediction.action p)) = false))
     end)
  ∧ (Prediction.loop p = None →
     _ticks ≠ 0%Z →
     ∀ fuel, ∃ state', tick g fuel p _ticks state = Ok (true, state'))
  ∧ (∀ l c progression,
       Prediction.loop p = Some l →
       0 < c →
       (∀ pr segment, c ≤ l_cost l pr (Prediction.action p) segment) →
       st_progress state !! Prediction.name p = Some progression →
       _ticks ≠ 0%Z →
       ∃ n, ∀ fuel, (n ≤ fuel)%nat →
            ∃ continue state', tick g fuel p _ticks state
                               = Ok (continue, state')).
Proof.
  split; [|split].
  - intros fuel continue state' Ht.
    apply tick_inv in Ht as (s & Hs & Ht).
    destruct (Prediction.loop p) as [l|]; [|by destruct Ht].
    destruct Ht as (lt & Hlt & -> & _). exists s, lt.
    split; [done|]. split; [done|].
    rewrite andb_false_iff, truthy_false. done.
  - intros Hl Hticks fuel. unfold tick.
    destruct (exp_returns g _ticks (Prediction.action p) (st_stats state)
                Hticks) as [s ->].
    simpl. rewrite Hl. eauto.
  - intros l c progression Hl Hc Hcost Hprogression Hticks.
    destruct (exp_returns g _ticks (Prediction.action p) (st_stats state)
                Hticks) as [s Hs].
    destruct (tickLoop_returns p l _ticks (set_stats state s) progression c)
      as [n Hn]; [done..|].
    exists n. intros fuel Hfuel. destruct (Hn fuel Hfuel) as [lt Hlt].
    rewrite (tick_loop g fuel p l _ticks state s lt) by done. eauto.
Qed.

Lemma tick_continue_witness :
  ∃ continue state',
    tick Demo.host 2 (Demo.prediction "Leap" (Demo.loopRule [] Demo.leap)) 1
         (Demo.firstState "Leap" Demo.leap []) = Ok (continue, state')
    ∧ (∃ s lt,
         Prediction.exp Demo.host 1 (Demo.actions "Leap")
           (st_stats (Demo.firstState "Leap" Demo.leap [])) = Ok s
         ∧ tickLoop 2 (Demo.prediction "Leap" (Demo.loopRule [] Demo.leap))
             Demo.leap 1
             (set_stats (Demo.firstState "Leap" Demo.leap []) s) = Ok lt
         ∧ (continue = false
            ↔ (additionalProgress lt = 0
               ∨ below (w_segment (after lt)) None = false)))
    ∧ ∃ n, ∀ fuel, (n ≤ fuel)%nat →
           ∃ continue state',
             tick Demo.host fuel
               (Demo.prediction "Leap" (Demo.loopRule [] Demo.leap)) 1
               (Demo.firstState "Leap" Demo.leap []) = Ok (continue, state').
Proof.
  destruct (tick_continue Demo.host
              (Demo.prediction "Leap" (Demo.loopRule [] Demo.leap)) 1
              (Demo.firstState "Leap" Demo.leap []))
    as (Hstop & _ & Hreturns).
  destruct (result_eval
              (tick Demo.host 2
                 (Demo.prediction "Leap" (Demo.loopRule [] Demo.leap)) 1
                 (Demo.firstState "Leap" Demo.leap []))
              (λ _, True)) as ([continue state'] & Ht & _).
  { vm_compute. exact I. }
  exists continue, state'. split; [exact Ht|]. split.
  - exact (Hstop 2%nat continue state' Ht).
  - apply (Hreturns Demo.leap (num 100)
             {| pr_progress := 0; pr_completed := 0; pr_total := 7 |} eq_refl).
    + qc_decide.
    + intros pr segment. qc_decide.
    + vm_compute. reflexivity.
    + discriminate.
Defined.

(** A tick that takes progress away does not ask to stop. *)
Lemma stopsOnNonPositive_counterexample :
  ¬ stopsOnNonPositive Demo.host 2
      (Demo.prediction "Backwards" (Demo.loopRule [] Demo.backwards)) 1
      (Demo.firstState "Backwards" Demo.backwards []).
Proof.
  unfold not. vm_compute. intros [_ Hstop].
  discriminate Hstop. left. discriminate.
Qed.

(** ** The stored progress *)

(** C7, amended.  [progression.progress] is the progress made in the current
    loop, over all its segments: a tick adds its progress to it, and resets
    it to 0 when it completes a loop.  So, when the stored progress and the
    progress of the tick are not negative, the stored progress is not
    negative after the tick; and what is at least 0 and strictly below the
    cost of the current segment is what is left of it after the costs of the
    loop's earlier segments are taken away, as the first [for] of the next
    tick does (and it does find a segment, when the costs are at least some
    [c > 0]). *)
Theorem stored_progress (fuel : nat) (p : Prediction.t) (l : Loop)
    (_ticks : Z) (state : State) (old : Progression) (lt : LoopTick) :
  st_progress state !! Prediction.name p = Some old →
  tickLoop fuel p l _ticks state = Ok lt →
  0 ≤ pr_progress old →
  0 ≤ additionalProgress lt →
  let new := w_progression (after lt) in
  (pr_total new = pr_total old
   ∧ pr_progress new = pr_progress old + additionalProgress lt
   ∨ (pr_total old < pr_total new)%Z ∧ pr_progress new = 0)
  ∧ 0 ≤ pr_progress new
  ∧ (∀ fuel' segment rest,
       seek fuel' (l_cost l new (Prediction.action p)) 0%Z (pr_progress new)
         = Ok (segment, rest) →
       0 ≤ rest ∧ rest < l_cost l new (Prediction.action p) segment)
  ∧ (∀ c,
       0 < c →
       (∀ segment, c ≤ l_cost l new (Prediction.action p) segment) →
       ∃ n, ∀ fuel', (n ≤ fuel')%nat →
            ∃ segment rest,
              seek fuel' (l_cost l new (Prediction.action p)) 0%Z
                   (pr_progress new) = Ok (segment, rest)).
Proof.
  intros Hold Hlt Hstored Hdelta new.
  apply tickLoop_inv in Hlt
    as (old' & segment & progress & Hold' & _ & _ & _ & Hwalk).
  rewrite Hold in Hold'. injection Hold' as <-.
  apply walk_progression in Hwalk as (n & _ & Htotal & Hprogress).
  fold new in Htotal, Hprogress. simpl in Htotal, Hprogress.
  assert (pr_total new = pr_total old
          ∧ pr_progress new = pr_progress old + additionalProgress lt
          ∨ (pr_total old < pr_total new)%Z ∧ pr_progress new = 0) as Hcases.
  { destruct n; [left|right]; split; try done; lia. }
  assert (0 ≤ pr_progress new) as Hnew.
  { destruct Hcases as [[_ ->]|[_ ->]]; [|done].
    remember (pr_progress old) as x. remember (additionalProgress lt) as d.
    clear -Hstored Hdelta. qc_lra. }
  split; [done|]. split; [done|]. split.
  - intros fuel' segment' rest Hseek.
    apply seek_remainder in Hseek as [Hbelow Hrest]. by split; [apply Hrest|].
  - intros c Hc Hcost.
    destruct (archimedes (pr_progress new) c Hc) as [m Hm].
    exists m. intros fuel' Hfuel.
    destruct (seek_returns (l_cost l new (Prediction.action p)) c m 0
                (pr_progress new) Hc Hcost Hm) as [[segment' rest] Hseek].
    exists segment', rest. by apply (seek_fuel_mono _ m fuel').
Qed.

Lemma stored_progress_witness :
  ∃ lt,
    tickLoop 2 (Demo.prediction "Leap" (Demo.loopRule [] Demo.leap))
             Demo.leap 1 (Demo.firstState "Leap" Demo.leap []) = Ok lt
    ∧ pr_progress (w_progression (after lt)) = num 150
    ∧ 0 ≤ pr_progress (w_progression (after lt))
    ∧ ∀ fuel segment rest,
        seek fuel (l_cost Demo.leap (w_progression (after lt))
                          (Demo.actions "Leap")) 0%Z
             (pr_progress (w_progression (after lt))) = Ok (segment, rest) →
        0 ≤ rest ∧ rest < num 100.
Proof.
  destruct (result_eval
              (tickLoop 2 (Demo.prediction "Leap" (Demo.loopRule [] Demo.leap))
                        Demo.leap 1 (Demo.firstState "Leap" Demo.leap []))
              (λ lt, 0 ≤ additionalProgress lt
                     ∧ pr_progress (w_progression (after lt)) = num 150))
    as (lt & Hlt & Hdelta & Hstored).
  { vm_compute. split; [discriminate|]. apply Qc_is_canon. reflexivity. }
  exists lt. split; [exact Hlt|]. split; [exact Hstored|].
  destruct (stored_progress 2
              (Demo.prediction "Leap" (Demo.loopRule [] Demo.leap))
              Demo.leap 1 (Demo.firstState "Leap" Demo.leap [])
              {| pr_progress := 0; pr_completed := 0; pr_total := 7 |} lt)
    as (_ & Hpos & Hrest & _).
  - vm_compute. reflexivity.
  - exact Hlt.
  - qc_decide.
  - exact Hdelta.
  - split; [exact Hpos|exact Hrest].
Defined.

(** With two segments of cost 100 a loop and 50 progress a tick, three
    repetitions of one tick leave a stored progress of 150 in the second
    segment, whose cost is 100. *)
Lemma progressWithinSegment_counterexample :
  ¬ progressWithinSegment Demo.host Demo.predictions 2
      [{| la_name := "Two Segments"; la_loops := 3 |}] "Two Segments".
Proof.
  unfold not. vm_compute. intros [_ Hbelow]. discriminate Hbelow.
Qed.

(** ** The order of a tick: mana, experience, loop *)

Lemma getR_insert (r : gmap string Qc) (k : string) (x : Qc) :
  getR (<[k := x]> r) k = x.
Proof. unfold getR. by rewrite lookup_insert_eq. Qed.

Lemma getR_insert_ne (r : gmap string Qc) (k k' : string) (x : Qc) :
  k ≠ k' → getR (<[k := x]> r) k' = getR r k'.
Proof. intros. unfold getR. by rewrite lookup_insert_ne. Qed.

Lemma mana_set_mana (state : State) (m : Qc) : mana (set_mana state m) = m.
Proof. apply getR_insert. Qed.

Lemma walkBody_keeps_mana (l : Loop) (a : Action) (w : Walk) :
  keepsMana (e_segment (l_effect l)) → keepsMana (e_loop (l_effect l)) →
  getR (w_resources (walkNext l a (walkBody l a w))) "mana"
  = getR (w_resources w) "mana".
Proof.
  intros Hsegment Hloop. unfold walkNext, walkBody, completeLoop. simpl.
  rewrite Hsegment. case_bool_decide; simpl; [apply Hloop|done].
Qed.

Lemma walk_keeps_mana (l : Loop) (a : Action) (fuel : nat) (w w' : Walk) :
  keepsMana (e_segment (l_effect l)) → keepsMana (e_loop (l_effect l)) →
  walk fuel l a w = Ok w' →
  getR (w_resources w') "mana" = getR (w_resources w) "mana".
Proof.
  intros Hsegment Hloop. revert w.
  induction fuel as [|fuel IH]; intros w Hw; simpl in Hw;
    destruct (walkCond l a w); try done.
  - by injection Hw as <-.
  - apply IH in Hw. by rewrite Hw, walkBody_keeps_mana.
  - by injection Hw as <-.
Qed.

(** C10.  In the [for] of [predict] the mana is decremented by 1 and then the
    tick is run on that state; the tick applies the experience of the tick
    before it handles the loop.  So whatever the tick answers, the state it
    leaves has the experience of that tick: every stat of the host's list
    that the action trains and the state has has gained
    [a.stats[i] * a.expMult * (a.manaCost() / ticks) * getTotalBonusXP(i)],
    the other stats are as they were.  The loop, whose answer decides
    whether the ticks go on, runs on the stats with that experience.  The
    mana of the state is one less than before when the segment and loop
    effects do not touch the mana; when the tick asks to stop, that state is
    the result of the repetition's ticks. *)
Theorem stop_tick_is_paid (g : Host) (fuel : nat) (p : Prediction.t)
    (_ticks : Z) (n : nat) (state state' : State) (continue : bool) :
  tick g fuel p _ticks (set_mana state (mana state - 1))
    = Ok (continue, state') →
  predictLoop g fuel p _ticks (S n) state
    = (if continue then predictLoop g fuel p _ticks n state' else Ok state')
  ∧ Prediction.exp g _ticks (Prediction.action p) (st_stats state)
    = Ok (st_stats state')
  ∧ (NoDup (statList g) →
     ∀ i,
       st_stats state' !! i
       = match a_stats (Prediction.action p) !! i, st_stats state !! i with
         | Some w, Some e =>
             Some (if decide (i ∈ statList g)
                   then e + w * a_expMult (Prediction.action p)
                            * (a_manaCost (Prediction.action p) / num _ticks)
                            * getTotalBonusXP g i
                   else e)
         | _, _ => st_stats state !! i
         end)
  ∧ match Prediction.loop p with
    | Some l =>
        ∃ lt,
          tickLoop fuel p l _ticks
            (set_stats (set_mana state (mana state - 1)) (st_stats state'))
          = Ok lt
          ∧ continue
            = truthy (additionalProgress lt)
              && below (w_segment (after lt))
                       (maxSegments l (Prediction.action p))
    | None => continue = true
    end
  ∧ ((∀ l, Prediction.loop p = Some l →
           keepsMana (e_segment (l_effect l))
           ∧ keepsMana (e_loop (l_effect l))) →
     mana state' = mana state - 1).
Proof.
  intros Ht.
  assert (Prediction.exp g _ticks (Prediction.action p) (st_stats state)
          = Ok (st_stats state')) as Hexp.
  { apply tick_inv in Ht as (s & Hs & Ht). simpl in Hs. rewrite Hs.
    destruct (Prediction.loop p) as [l|].
    + by destruct Ht as (lt & _ & _ & ->).
    + by destruct Ht as [_ ->]. }
  split; [|split; [exact Hexp|split; [|split]]].
  - simpl. by rewrite Ht.
  - intros Hnodup. by apply (exp_inv g _ticks _ (statList g)).
  - apply tick_inv in Ht as (s & _ & Ht).
    destruct (Prediction.loop p) as [l|]; [|by destruct Ht].
    destruct Ht as (lt & Hlt & -> & ->). by exists lt.
  - intros Hkeeps. apply tick_inv in Ht as (s & _ & Ht).
    destruct (Prediction.loop p) as [l|].
    + destruct Ht as (lt & Hlt & _ & ->).
      destruct (Hkeeps l eq_refl) as [Hsegment Hloop].
      apply tickLoop_inv in Hlt as (pr & seg & rest & _ & _ & _ & _ & Hwalk).
      apply (walk_keeps_mana _ _ _ _ _ Hsegment Hloop) in Hwalk.
      unfold mana at 1. simpl. rewrite Hwalk. simpl. apply getR_insert.
    + destruct Ht as [_ ->]. apply mana_set_mana.
Qed.

(** The third tick of ['Stalled'] is not run: the first one makes no
    progress and asks to stop; it has taken its mana and given the strength
    its share. *)
Lemma stop_tick_is_paid_witness :
  ∃ state',
    predictLoop Demo.host 2
      (Demo.prediction "Stalled" (Demo.loopRule [] Demo.stalled)) 1 3
      (Demo.firstState "Stalled" Demo.stalled []) = Ok state'
    ∧ Prediction.exp Demo.host 1 (Demo.actions "Stalled")
        (st_stats (Demo.firstState "Stalled" Demo.stalled []))
      = Ok (st_stats state')
    ∧ st_stats state' !! "strength" = Some (0 + num 1 * 1 * (1 / num 1) * 1)
    ∧ mana state' = mana (Demo.firstState "Stalled" Demo.stalled []) - 1.
Proof.
  destruct (result_eval
              (tick Demo.host 2
                 (Demo.prediction "Stalled" (Demo.loopRule [] Demo.stalled)) 1
                 (set_mana (Demo.firstState "Stalled" Demo.stalled [])
                    (mana (Demo.firstState "Stalled" Demo.stalled []) - 1)))
              (λ r, r.1 = false)) as ([continue state'] & Ht & Hstop).
  { vm_compute. reflexivity. }
  simpl in Hstop. subst continue.
  destruct (stop_tick_is_paid Demo.host 2
              (Demo.prediction "Stalled" (Demo.loopRule [] Demo.stalled))
              1 2 (Demo.firstState "Stalled" Demo.stalled []) state' false Ht)
    as (Hloop & Hexp & Hstats & _ & Hmana).
  exists state'. split; [exact Hloop|]. split; [exact Hexp|]. split.
  - rewrite (Hstats (NoDup_singleton _) "strength"). reflexivity.
  - apply Hmana. intros l [= <-]. split; intros r k; reflexivity.
Defined.

(** ** Termination *)

Lemma terminates_const {A} (r : result A) :
  r ≠ OutOfFuel → terminates (λ _, r).
Proof. intros Hr. exists r. split; [done|]. by exists O. Qed.

Lemma terminates_ext {A} (f h : nat → result A) :
  (∀ fuel, f fuel = h fuel) → terminates h → terminates f.
Proof.
  intros Hfh (r & Hr & n & Hn). exists r. split; [done|].
  exists n. intros fuel Hfuel. by rewrite Hfh, Hn.
Qed.

Lemma terminates_bind {A B} (m : nat → result A) (k : A → nat → result B) :
  terminates m → (∀ a, terminates (k a)) →
  terminates (λ fuel, m fuel ≫= λ a, k a fuel).
Proof.
  intros (r & Hr & n1 & Hn1) Hk. destruct r as [a| |]; [| |done].
  - destruct (Hk a) as (r' & Hr' & n2 & Hn2). exists r'. split; [done|].
    exists (n1 `max` n2)%nat. intros fuel Hfuel.
    rewrite Hn1 by lia. simpl. apply Hn2. lia.
  - exists TypeError. split; [done|]. exists n1. intros fuel Hfuel.
    by rewrite Hn1.
Qed.

Lemma seek_terminates (loopCost : Z → Qc) (c : Qc) (segment : Z)
    (progress : Qc) :
  0 < c → (∀ segment, c ≤ loopCost segment) →
  terminates (λ fuel, seek fuel loopCost segment progress).
Proof.
  intros Hc Hcost. destruct (archimedes progress c Hc) as [n Hn].
  destruct (seek_returns loopCost c n segment progress Hc Hcost Hn)
    as [r Hr].
  exists (Ok r). split; [done|]. exists n. intros fuel Hfuel.
  by apply (seek_fuel_mono _ n fuel).
Qed.

Lemma walk_terminates (l : Loop) (a : Action) (w : Walk) :
  boundedCosts l a → terminates (λ fuel, walk fuel l a w).
Proof.
  intros (c & Hc & Hcost). destruct (archimedes (w_progress w) c Hc) as [n Hn].
  destruct (walk_returns l a c n w Hc Hcost Hn) as [w' Hw'].
  exists (Ok w'). split; [done|]. exists n. intros fuel Hfuel.
  by apply (walk_fuel_mono _ _ n fuel).
Qed.

Lemma ticks_settled (_ticks : Z) : Prediction.ticks _ticks ≠ OutOfFuel.
Proof. unfold Prediction.ticks. by case_bool_decide. Qed.

Lemma exp_settled (g : Host) (_ticks : Z) (a : Action) (s : gmap string Qc) :
  Prediction.exp g _ticks a s ≠ OutOfFuel.
Proof.
  unfold Prediction.exp.
  assert (∀ l (acc : result (gmap string Qc)),
            acc ≠ OutOfFuel →
            foldl (Prediction.addStatExp g _ticks a) acc l ≠ OutOfFuel)
    as Hfold; [|by apply Hfold].
  induction l as [|i l IH]; intros acc Hacc; cbn [foldl]; [done|].
  apply IH. unfold Prediction.addStatExp.
  destruct acc as [s'| |]; simpl; [|done..].
  destruct (a_stats a !! i), (s' !! i); try done.
  pose proof (ticks_settled _ticks). by destruct (Prediction.ticks _ticks).
Qed.

Lemma tickLoop_terminates (p : Prediction.t) (l : Loop) (_ticks : Z)
    (state : State) :
  boundedCosts l (Prediction.action p) →
  terminates (λ fuel, tickLoop fuel p l _ticks state).
Proof.
  intros Hbounded. unfold tickLoop.
  destruct (st_progress state !! Prediction.name p) as [progression|];
    [|by apply terminates_const].
  apply (terminates_bind
           (λ fuel, seek fuel (l_cost l progression (Prediction.action p))
                         0%Z (pr_progress progression))).
  { destruct Hbounded as (c & Hc & Hcost). by apply (seek_terminates _ c). }
  intros [segment progress].
  apply (terminates_bind (λ _, Prediction.ticks _ticks));
    [apply terminates_const, ticks_settled|].
  intros n.
  apply (terminates_bind
           (λ fuel, walk fuel l (Prediction.action p)
                      (walkStart state progression segment progress
                         (l_tick l progression (Prediction.action p)
                            (st_stats state) (st_skills state)
                            (st_resources state) segment
                          * (a_manaCost (Prediction.action p) / num n))))).
  { by apply walk_terminates. }
  intros w. by apply terminates_const.
Qed.

Section Terminates.
Variable g : Host.
Variable p : Prediction.t.
Hypothesis bounded :
  ∀ l, Prediction.loop p = Some l → boundedCosts l (Prediction.action p).

Lemma tick_terminates (_ticks : Z) (state : State) :
  terminates (λ fuel, tick g fuel p _ticks state).
Proof.
  unfold tick.
  apply (terminates_bind
           (λ _, Prediction.exp g _ticks (Prediction.action p)
                   (st_stats state)));
    [apply terminates_const, exp_settled|].
  intros s. destruct (Prediction.loop p) as [l|] eqn:Hl;
    [|by apply terminates_const].
  apply (terminates_bind
           (λ fuel, tickLoop fuel p l _ticks (set_stats state s))).
  { by apply tickLoop_terminates, bounded. }
  intros lt. by apply terminates_const.
Qed.

Lemma predictLoop_terminates (_ticks : Z) (n : nat) (state : State) :
  terminates (λ fuel, predictLoop g fuel p _ticks n state).
Proof.
  revert state. induction n as [|n IH]; intros state.
  { by apply (terminates_ext _ (λ _, Ok state)), terminates_const. }
  apply (terminates_ext _
           (λ fuel,
              tick g fuel p _ticks (set_mana state (mana state - 1))
              ≫= λ r : bool * State,
                   if r.1 then predictLoop g fuel p _ticks n r.2
                   else Ok r.2)).
  { intros fuel. cbn [predictLoop].
    by destruct (tick g fuel p _ticks (set_mana state (mana state - 1)))
      as [[[] state']| |]. }
  apply (terminates_bind
           (λ fuel, tick g fuel p _ticks (set_mana state (mana state - 1)))
           (λ (r : bool * State) fuel,
              if r.1 then predictLoop g fuel p _ticks n r.2 else Ok r.2)).
  { apply tick_terminates. }
  intros [continue state']. destruct continue; simpl; [apply IH|].
  by apply terminates_const.
Qed.

Lemma predict_terminates (state : State) :
  terminates (λ fuel, predict g fuel p state).
Proof.
  unfold predict.
  apply (terminates_bind
           (λ _, Prediction.ticks
                   (Prediction.updateTicks g (Prediction.action p)
                      (st_stats state))));
    [apply terminates_const, ticks_settled|].
  intros n. apply predictLoop_terminates.
Qed.

Lemma repetition_terminates (name : string) (e : Entry) :
  terminates (λ fuel, repetition g fuel name p e).
Proof.
  unfold repetition.
  apply (terminates_bind (λ fuel, predict g fuel p (en_state e)));
    [apply predict_terminates|].
  intros state. by apply terminates_const.
Qed.

Lemma repetitions_terminates (name : string) (n : nat) (e : Entry) :
  terminates (λ fuel, repetitions g fuel name p n e).
Proof.
  revert e. induction n as [|n IH]; intros e.
  { by apply (terminates_ext _ (λ _, Ok e)), terminates_const. }
  apply (terminates_ext _
           (λ fuel,
              if evalCanStart (Prediction.canStart p)
                   (st_resources (en_state e))
              then repetition g fuel name p e
                   ≫= λ e, repetitions g fuel name p n e
              else Ok e)); [intros fuel; apply repetitions_S|].
  destruct (evalCanStart _ _); [|by apply terminates_const].
  apply (terminates_bind (λ fuel, repetition g fuel name p e));
    [apply repetition_terminates|done].
Qed.

End Terminates.

Section UpdateTerminates.
Variable g : Host.
Variable predictions : gmap string Prediction.t.
Hypothesis bounded :
  ∀ name p l,
    predictions !! name = Some p → Prediction.loop p = Some l →
    boundedCosts l (Prediction.action p).

Lemma entry_terminates (affected : list string) (run : Run)
    (listedAction : ListedAction) :
  terminates (λ fuel, entry g predictions fuel affected run listedAction).
Proof.
  unfold entry.
  destruct (predictions !! la_name listedAction) as [p|] eqn:Hp;
    [|destruct (inherited _); by apply terminates_const].
  apply (terminates_bind
           (λ fuel, repetitions g fuel (la_name listedAction) p
                      (Z.to_nat (la_loops listedAction))
                      (startEntry run (ensureProgress g p (run_state run))))).
  { apply repetitions_terminates. intros l.
    by apply (bounded (la_name listedAction)). }
  intros e. by apply terminates_const.
Qed.

Lemma entries_terminates (affected : list string)
    (actions : list ListedAction) (run : Run) :
  terminates (λ fuel, entries g predictions fuel affected run actions).
Proof.
  revert run. induction actions as [|listedAction actions IH]; intros run.
  { by apply (terminates_ext _ (λ _, Ok run)), terminates_const. }
  apply (terminates_bind
           (λ fuel, entry g predictions fuel affected run listedAction)
           (λ run fuel, entries g predictions fuel affected run actions));
    [apply entry_terminates|done].
Qed.

(** With segment costs bounded from below, [update] ends for every list:
    with a run, or with the [TypeError] of a tick count of zero. *)
Lemma update_terminates (actions : list ListedAction) :
  terminates (λ fuel, update g predictions fuel actions).
Proof.
  unfold update.
  apply (terminates_bind
           (λ fuel, entries g predictions fuel (affectedOf predictions actions)
                      (initialRun g predictions actions) actions));
    [apply entries_terminates|].
  intros run. by apply terminates_const.
Qed.

End UpdateTerminates.

(** ** [completed] counts whole loops *)

Lemma tickLoop_completed (fuel : nat) (p : Prediction.t) (l : Loop)
    (_ticks : Z) (state : State) (old : Progression) (lt : LoopTick) :
  st_progress state !! Prediction.name p = Some old →
  tickLoop fuel p l _ticks state = Ok lt →
  ∃ n : nat,
    pr_completed (w_progression (after lt))
      = (pr_completed old + Z.of_nat n * a_segments (Prediction.action p))%Z
    ∧ pr_total (w_progression (after lt)) = (pr_total old + Z.of_nat n)%Z.
Proof.
  intros Hold Hlt.
  apply tickLoop_inv in Hlt
    as (old' & segment & progress & Hold' & _ & _ & _ & Hwalk).
  rewrite Hold in Hold'. injection Hold' as <-.
  apply walk_progression in Hwalk as (n & Hcompleted & Htotal & _).
  by exists n.
Qed.

Section WholeLoops.
Variable g : Host.

Lemma tick_wholeLoops (fuel : nat) (p : Prediction.t) (_ticks : Z)
    (state state' : State) (continue : bool) :
  fromHost g p → wholeLoops g state →
  tick g fuel p _ticks state = Ok (continue, state') →
  wholeLoops g state'.
Proof.
  intros Hp Hwhole Ht. apply tick_inv in Ht as (s & _ & Ht).
  destruct (Prediction.loop p) as [l|]; [|by destruct Ht as [_ ->]].
  destruct Ht as (lt & Hlt & _ & ->).
  intros name progression. unfold tickState. simpl.
  destruct (decide (Prediction.name p = name)) as [<-|Hne].
  - rewrite lookup_insert_eq. intros [= <-].
    pose proof Hlt as Hlt'.
    apply tickLoop_inv in Hlt' as (old & _ & _ & Hold & _).
    destruct (tickLoop_completed _ _ _ _ _ _ _ Hold Hlt) as (n & -> & _).
    rewrite <- Hp. apply Z.divide_add_r.
    + rewrite Hp. by apply (Hwhole (Prediction.name p)).
    + apply Z.divide_factor_r.
  - rewrite lookup_insert_ne by done. apply Hwhole.
Qed.

Lemma predictLoop_wholeLoops (fuel : nat) (p : Prediction.t) (_ticks : Z)
    (n : nat) (state state' : State) :
  fromHost g p → wholeLoops g state →
  predictLoop g fuel p _ticks n state = Ok state' →
  wholeLoops g state'.
Proof.
  intros Hp. revert state. induction n as [|n IH]; intros state Hwhole Hloop.
  - by injection Hloop as <-.
  - simpl in Hloop. inv_bind Hloop. destruct a as [continue state1].
    apply tick_wholeLoops in Ha; [|done..].
    destruct continue; [by eapply IH|by injection Hloop as <-].
Qed.

Lemma predict_wholeLoops (fuel : nat) (p : Prediction.t)
    (state state' : State) :
  fromHost g p → wholeLoops g state →
  predict g fuel p state = Ok state' →
  wholeLoops g state'.
Proof.
  intros Hp Hwhole Hpredict. unfold predict in Hpredict.
  inv_bind Hpredict. by eapply predictLoop_wholeLoops.
Qed.

Lemma repetition_wholeLoops (fuel : nat) (name : string) (p : Prediction.t)
    (e e' : Entry) :
  fromHost g p → wholeLoops g (en_state e) →
  repetition g fuel name p e = Ok e' →
  wholeLoops g (en_state e').
Proof.
  intros Hp Hwhole Hrep. unfold repetition in Hrep. inv_bind Hrep.
  injection Hrep as <-. apply predict_wholeLoops in Ha; [|done..].
  unfold wholeLoops, account, guildBefore, guildAfter. simpl.
  by repeat case_bool_decide.
Qed.

Lemma repetitions_wholeLoops (fuel : nat) (name : string) (p : Prediction.t)
    (n : nat) (e e' : Entry) :
  fromHost g p → wholeLoops g (en_state e) →
  repetitions g fuel name p n e = Ok e' →
  wholeLoops g (en_state e').
Proof.
  intros Hp. revert e. induction n as [|n IH]; intros e Hwhole Hreps.
  - by injection Hreps as <-.
  - rewrite repetitions_S in Hreps.
    destruct (evalCanStart _ _); [|by injection Hreps as <-].
    inv_bind Hreps. apply repetition_wholeLoops in Ha; [|done..].
    by eapply IH.
Qed.

Lemma ensureProgress_wholeLoops (p : Prediction.t) (state : State) :
  wholeLoops g state → wholeLoops g (ensureProgress g p state).
Proof.
  intros Hwhole. unfold ensureProgress.
  destruct (Prediction.loop p); [|done].
  destruct (st_progress state !! Prediction.name p) eqn:Hp; [done|].
  intros name progression. simpl.
  destruct (decide (Prediction.name p = name)) as [<-|Hne].
  - rewrite lookup_insert_eq. intros [= <-]. apply Z.divide_0_r.
  - rewrite lookup_insert_ne by done. apply Hwhole.
Qed.

Section WithRules.
Variable rules : gmap string Parameters.

Lemma initPredictions_fromHost (name : string) (p : Prediction.t) :
  initPredictions g rules !! name = Some p → fromHost g p.
Proof.
  unfold initPredictions. rewrite map_lookup_imap.
  destruct (rules !! name) as [params|]; [|done].
  by intros [= <-].
Qed.

Lemma entry_wholeLoops (fuel : nat) (affected : list string) (run run' : Run)
    (listedAction : ListedAction) :
  wholeLoops g (run_state run) →
  entry g (initPredictions g rules) fuel affected run listedAction = Ok run' →
  wholeLoops g (run_state run').
Proof.
  intros Hwhole Hentry. unfold entry in Hentry.
  destruct (initPredictions g rules !! la_name listedAction) as [p|] eqn:Hp;
    [|destruct (inherited _); by injection Hentry as <-].
  inv_bind Hentry. injection Hentry as <-. simpl.
  eapply repetitions_wholeLoops in Ha; [done| |].
  - by eapply initPredictions_fromHost.
  - by apply ensureProgress_wholeLoops.
Qed.

Lemma entries_wholeLoops (fuel : nat) (affected : list string)
    (actions : list ListedAction) (run run' : Run) :
  wholeLoops g (run_state run) →
  entries g (initPredictions g rules) fuel affected run actions = Ok run' →
  wholeLoops g (run_state run').
Proof.
  revert run. induction actions as [|listedAction actions IH];
    intros run Hwhole Hentries; simpl in Hentries.
  - by injection Hentries as <-.
  - inv_bind Hentries. apply entry_wholeLoops in Ha; [|done].
    by eapply IH.
Qed.

End WithRules.
End WholeLoops.

(** C8.  [completed] is at all times a multiple of the segments a loop of
    its action: so it is in the state [update] ends in, whatever the list;
    a progression is seeded with [completed] 0; and a tick moves [completed]
    by a whole number of loops, the number [total] grows by.  And [update]
    does end, with a run or with the [TypeError] of a tick count of zero,
    when the segment costs of every loop are at least some positive
    number. *)
Theorem completed_whole_loops (g : Host) (rules : gmap string Parameters) :
  (∀ fuel actions run,
     update g (initPredictions g rules) fuel actions = Ok run →
     ∀ name progression,
       st_progress (run_state run) !! name = Some progression →
       (a_segments (translateClassNames g name) | pr_completed progression)%Z)
  ∧ (∀ actions,
       st_progress (run_state (initialRun g (initPredictions g rules) actions))
       = ∅)
  ∧ (∀ p state,
       is_Some (Prediction.loop p) →
       st_progress state !! Prediction.name p = None →
       pr_completed <$> st_progress (ensureProgress g p state)
                          !! Prediction.name p = Some 0%Z)
  ∧ (∀ fuel p l _ticks state old lt,
       st_progress state !! Prediction.name p = Some old →
       tickLoop fuel p l _ticks state = Ok lt →
       ∃ n : nat,
         pr_completed (w_progression (after lt))
           = (pr_completed old
              + Z.of_nat n * a_segments (Prediction.action p))%Z
         ∧ pr_total (w_progression (after lt))
           = (pr_total old + Z.of_nat n)%Z)
  ∧ (∀ actions,
       (∀ name p l,
          initPredictions g rules !! name = Some p →
          Prediction.loop p = Some l →
          boundedCosts l (Prediction.action p)) →
       terminates (λ fuel, update g (initPredictions g rules) fuel actions)).
Proof.
  split; [|split; [|split; [|split]]].
  - intros fuel actions run Hupdate. unfold update in Hupdate.
    inv_bind Hupdate. injection Hupdate as <-. simpl.
    eapply entries_wholeLoops; [|done]. by intros name progression.
  - done.
  - intros p state [l Hl] Hnone. unfold ensureProgress.
    rewrite Hl, Hnone. simpl. by rewrite lookup_insert_eq.
  - apply tickLoop_completed.
  - intros actions Hbounded. by apply update_terminates.
Qed.

Lemma completed_whole_loops_witness :
  (∃ run progression,
     update Demo.host Demo.predictions 2
       [{| la_name := "Two Segments"; la_loops := 4 |}] = Ok run
     ∧ st_progress (run_state run) !! "Two Segments" = Some progression
     ∧ (2 | pr_completed progression)%Z)
  ∧ terminates (λ fuel, update Demo.host Demo.predictions fuel
                          [{| la_name := "Two Segments"; la_loops := 4 |}]).
Proof.
  destruct (completed_whole_loops Demo.host Demo.rules)
    as (Hwhole & _ & _ & _ & Hterminates).
  split.
  - destruct (result_eval
                (update Demo.host Demo.predictions 2
                   [{| la_name := "Two Segments"; la_loops := 4 |}])
                (λ run,
                   is_Some (st_progress (run_state run) !! "Two Segments")))
      as (run & Hrun & progression & Hprogression).
    { vm_compute. eexists. reflexivity. }
    exists run, progression. split; [exact Hrun|].
    split; [exact Hprogression|].
    exact (Hwhole 2%nat _ run Hrun "Two Segments" progression Hprogression).
  - apply Hterminates. intros name p l Hp Hl.
    exists (num 100). split; [qc_decide|]. intros progression segment.
    unfold initPredictions in Hp. rewrite map_lookup_imap in Hp.
    destruct (Demo.rules !! name) as [params|] eqn:Hrule; [|done].
    injection Hp as <-. simpl in Hl.
    apply elem_of_list_to_map_2 in Hrule.
    repeat (apply elem_of_cons in Hrule as [[= -> ->]|Hrule];
            [try done; injection Hl as <-; qc_decide|]).
    by apply elem_of_nil in Hrule.
Defined.

(** ** The accounting of a repetition *)

Lemma set_mana_twice (state : State) (m m' : Qc) :
  set_mana (set_mana state m) m' = set_mana state m'.
Proof. unfold set_mana, set_resources. simpl. by rewrite insert_insert_eq. Qed.

Lemma set_mana_same (state : State) :
  is_Some (st_resources state !! "mana") → set_mana state (mana state) = state.
Proof.
  intros [m Hm]. unfold set_mana, set_resources, mana, getR. rewrite Hm. simpl.
  rewrite insert_id by done. by destruct state.
Qed.

Lemma guild_restores (state : State) :
  guildAfter "Adventure Guild" (guildBefore "Adventure Guild" state)
  = set_mana state (mana state).
Proof.
  unfold guildAfter, guildBefore.
  rewrite !bool_decide_eq_true_2 by done.
  rewrite set_mana_twice, mana_set_mana. f_equal.
  unfold set_mana at 1. simpl. rewrite getR_insert_ne by done. ring.
Qed.

Lemma timeSpent_set_mana (g : Host) (state : State) (m spent : Qc) :
  timeSpent g (set_mana state m) spent = timeSpent g state spent.
Proof. unfold timeSpent. simpl. by rewrite getR_insert_ne. Qed.

(** The accounting leaves the mana as [predict] left it, whatever the
    action. *)
Lemma account_mana (g : Host) (name : string) (currentMana : Qc) (e : Entry)
    (state : State) :
  mana (en_state (account g name currentMana e state)) = mana state.
Proof.
  unfold account, guildAfter, guildBefore. simpl.
  case_bool_decide; [|done].
  rewrite set_mana_twice, !mana_set_mana.
  unfold set_mana at 1. simpl. rewrite getR_insert_ne by done. ring.
Qed.

(** C5.  For a repetition of ['Adventure Guild'], the mana is lowered by
    [adventures * 200] for the measure of the mana spent that goes to the
    total, and raised by as much right after: the total grows by the mana
    before the repetition minus the lowered mana, the time is computed from
    the mana as [predict] left it, and the effects run on resources that are
    those [predict] left. *)
Theorem guild_accounting (g : Host) (fuel : nat) (p : Prediction.t)
    (e : Entry) (state : State) :
  predict g fuel p (en_state e) = Ok state →
  ∃ e',
    repetition g fuel "Adventure Guild" p e = Ok e'
    ∧ en_total e'
      = en_total e
        + (mana (en_state e)
           - (mana state - getR (st_resources state) "adventures" * num 200))
    ∧ en_totalTicks e'
      = en_totalTicks e + timeSpent g state (mana (en_state e) - mana state)
    ∧ en_state e' = runEffects p (set_mana state (mana state))
    ∧ (is_Some (st_resources state !! "mana") →
       en_state e' = runEffects p state).
Proof.
  intros Hpredict. unfold repetition. rewrite Hpredict. simpl.
  eexists. split; [done|]. simpl. rewrite guild_restores.
  rewrite mana_set_mana, timeSpent_set_mana.
  repeat split; try done.
  - unfold guildBefore. rewrite bool_decide_eq_true_2 by done.
    by rewrite mana_set_mana.
  - intros Hmana. by rewrite set_mana_same.
Qed.

(** ** The start condition *)

Lemma repetitions_blocked (g : Host) (fuel : nat) (name : string)
    (p : Prediction.t) (n : nat) (e : Entry) :
  evalCanStart (Prediction.canStart p) (st_resources (en_state e)) = false →
  repetitions g fuel name p n e = Ok e.
Proof.
  intros Hstart. destruct n; [done|]. by rewrite repetitions_S, Hstart.
Qed.

Lemma repetitions_stop (g : Host) (fuel : nat) (name : string)
    (p : Prediction.t) (k n : nat) (e e' : Entry) :
  repetitions g fuel name p k e = Ok e' →
  evalCanStart (Prediction.canStart p) (st_resources (en_state e')) = false →
  (k ≤ n)%nat →
  repetitions g fuel name p n e = Ok e'.
Proof.
  revert n e. induction k as [|k IH]; intros n e Hk Hstart Hle.
  - injection Hk as <-. by apply repetitions_blocked.
  - destruct n as [|n]; [lia|]. rewrite repetitions_S in *.
    destruct (evalCanStart (Prediction.canStart p)
                (st_resources (en_state e))) eqn:Hstart0.
    + inv_bind Hk. rewrite Ha. apply IH; [done..|lia].
    + by injection Hk as <-.
Qed.

Lemma ensureProgress_resources (g : Host) (p : Prediction.t) (state : State) :
  st_resources (ensureProgress g p state) = st_resources state
  ∧ st_stats (ensureProgress g p state) = st_stats state
  ∧ st_skills (ensureProgress g p state) = st_skills state.
Proof.
  unfold ensureProgress.
  by destruct (Prediction.loop p), (st_progress state !! Prediction.name p).
Qed.

(** C6.  [canStart] is evaluated on the current resources before every
    repetition: when it holds the repetition runs and the test is made again
    on what it leaves; the first time it fails no repetition of the entry
    runs any more, whatever the count asked for.  When it fails before the
    first repetition, the entry leaves the resources, the stats, the skills
    and the totals as they were and is reported valid with the current
    resources, and the simulation goes on with the rest of the list. *)
Theorem canStart_guard (g : Host) (predictions : gmap string Prediction.t)
    (fuel : nat) (name : string) (p : Prediction.t) :
  (∀ n e,
     evalCanStart (Prediction.canStart p) (st_resources (en_state e)) = true →
     repetitions g fuel name p (S n) e
     = repetition g fuel name p e ≫= repetitions g fuel name p n)
  ∧ (∀ k n e e',
       repetitions g fuel name p k e = Ok e' →
       evalCanStart (Prediction.canStart p) (st_resources (en_state e'))
         = false →
       (k ≤ n)%nat →
       repetitions g fuel name p n e = Ok e')
  ∧ (∀ affected run listedAction rest,
       predictions !! la_name listedAction = Some p →
       evalCanStart (Prediction.canStart p) (st_resources (run_state run))
         = false →
       ∃ run',
         entry g predictions fuel affected run listedAction = Ok run'
         ∧ st_resources (run_state run') = st_resources (run_state run)
         ∧ st_stats (run_state run') = st_stats (run_state run)
         ∧ st_skills (run_state run') = st_skills (run_state run)
         ∧ run_total run' = run_total run
         ∧ run_totalTicks run' = run_totalTicks run
         ∧ (∃ report,
              run_reports run' = run_reports run ++ [report]
              ∧ rp_isValid report = true
              ∧ rp_resources report
                = (λ x, (x, getR (st_resources (run_state run)) x))
                    <$> affected)
         ∧ entries g predictions fuel affected run (listedAction :: rest)
           = entries g predictions fuel affected run' rest).
Proof.
  split; [|split].
  - intros n e Hstart. by rewrite repetitions_S, Hstart.
  - apply repetitions_stop.
  - intros affected run listedAction rest Hp Hstart.
    destruct (ensureProgress_resources g p (run_state run))
      as (Hresources & Hstats & Hskills).
    unfold entries at 1. unfold entry. rewrite Hp.
    rewrite repetitions_blocked by (simpl; by rewrite Hresources).
    simpl. eexists. split; [done|]. simpl.
    repeat split; try done.
    eexists. split; [done|]. simpl. by rewrite Hresources.
Qed.

Lemma canStart_guard_witness :
  ∃ run',
    entry Demo.host Demo.predictions 2 ["rep"]
      (initialRun Demo.host Demo.predictions
         [{| la_name := "Haggle"; la_loops := 3 |}])
      {| la_name := "Haggle"; la_loops := 3 |} = Ok run'
    ∧ getR (st_resources (run_state run')) "mana" = num 250
    ∧ run_total run' = 0
    ∧ ∃ report, run_reports run' = [report] ∧ rp_isValid report = true.
Proof.
  destruct (canStart_guard Demo.host Demo.predictions 2 "Haggle"
              (Demo.prediction "Haggle" Demo.haggle)) as (_ & _ & Hentry).
  destruct (Hentry ["rep"]
              (initialRun Demo.host Demo.predictions
                 [{| la_name := "Haggle"; la_loops := 3 |}])
              {| la_name := "Haggle"; la_loops := 3 |} [])
    as (run' & Hrun & Hresources & _ & _ & Htotal & _ & Hreport & _).
  { reflexivity. }
  { vm_compute. reflexivity. }
  exists run'. split; [exact Hrun|]. split.
  { rewrite Hresources. qc_eq. }
  split; [exact Htotal|].
  destruct Hreport as (report & Hreports & Hvalid & _).
  exists report. by split.
Defined.

Lemma guild_accounting_witness :
  ∃ e',
    repetition Demo.host 2 "Adventure Guild"
      (Demo.prediction "Adventure Guild"
         (Demo.loopRule ["gold"; "adventures"] Demo.guild))
      (Demo.firstEntry
         (Demo.firstState "Adventure Guild" Demo.guild ["gold"; "adventures"]))
    = Ok e'
    ∧ en_total e'
      = 0 + (mana (Demo.firstState "Adventure Guild" Demo.guild
                     ["gold"; "adventures"])
             - (num 198 - 1 * num 200))
    ∧ mana (en_state e') = num 198.
Proof.
  destruct (result_eval
              (predict Demo.host 2
                 (Demo.prediction "Adventure Guild"
                    (Demo.loopRule ["gold"; "adventures"] Demo.guild))
                 (Demo.firstState "Adventure Guild" Demo.guild
                    ["gold"; "adventures"]))
              (λ state, mana state = num 198
                        ∧ getR (st_resources state) "adventures" = 1
                        ∧ is_Some (st_resources state !! "mana")))
    as (state & Hpredict & Hmana & Hadventures & Hpresent).
  { vm_compute. split; [apply Qc_is_canon; reflexivity|].
    split; [apply Qc_is_canon; reflexivity|]. eexists. reflexivity. }
  destruct (guild_accounting Demo.host 2
              (Demo.prediction "Adventure Guild"
                 (Demo.loopRule ["gold"; "adventures"] Demo.guild))
              (Demo.firstEntry
                 (Demo.firstState "Adventure Guild" Demo.guild
                    ["gold"; "adventures"]))
              state Hpredict)
    as (e' & Hrep & Htotal & _ & _ & Hstate).
  exists e'. split; [exact Hrep|]. split.
  - rewrite Htotal, Hmana, Hadventures. reflexivity.
  - rewrite (Hstate Hpresent). exact Hmana.
Defined.

(** ** The validity flag *)

Lemma repetition_inv (g : Host) (fuel : nat) (name : string)
    (p : Prediction.t) (e e' : Entry) :
  repetition g fuel name p e = Ok e' →
  ∃ state,
    predict g fuel p (en_state e) = Ok state
    ∧ e' = {| en_state :=
                runEffects p
                  (en_state (account g name (mana (en_state e)) e state));
              en_isValid := en_isValid e && bool_decide (0 ≤ mana state);
              en_total :=
                en_total (account g name (mana (en_state e)) e state);
              en_totalTicks :=
                en_totalTicks (account g name (mana (en_state e)) e state) |}.
Proof.
  unfold repetition. intros Hrep. inv_bind Hrep. exists a.
  split; [done|]. by injection Hrep as <-.
Qed.

Lemma repetition_withValid (g : Host) (fuel : nat) (name : string)
    (p : Prediction.t) (e e' : Entry) (b : bool) :
  repetition g fuel name p e = Ok e' →
  ∃ b', repetition g fuel name p (withValid e b) = Ok (withValid e' b').
Proof.
  intros Hrep. apply repetition_inv in Hrep as (state & Hpredict & ->).
  exists (b && bool_decide (0 ≤ mana state)).
  unfold repetition. change (en_state (withValid e b)) with (en_state e).
  by rewrite Hpredict.
Qed.

(** [exp] moves the experience of stats that are there; it adds none. *)
Lemma exp_dom (g : Host) (_ticks : Z) (a : Action) (s s' : gmap string Qc) :
  Prediction.exp g _ticks a s = Ok s' → dom s' = dom s.
Proof.
  unfold Prediction.exp. generalize (statList g) as l. intros l. revert s.
  induction l as [|i l IH]; intros s Hexp; cbn [foldl] in Hexp.
  - by injection Hexp as <-.
  - destruct (Prediction.addStatExp g _ticks a (Ok s) i) as [s1| |] eqn:Hstep.
    + apply IH in Hexp. rewrite Hexp.
      unfold Prediction.addStatExp in Hstep. simpl in Hstep.
      destruct (a_stats a !! i); [|by injection Hstep as <-].
      destruct (s !! i) eqn:Hi; [|by injection Hstep as <-].
      inv_bind Hstep. injection Hstep as <-.
      by apply dom_insert_lookup_L.
    + exfalso. clear -Hexp. by induction l.
    + exfalso. clear -Hexp. by induction l.
Qed.

(** Without a loop every tick goes on, and [n] ticks take [n] mana. *)
Lemma predictLoop_noLoop (g : Host) (fuel : nat) (p : Prediction.t)
    (_ticks : Z) (n : nat) (state : State) :
  Prediction.loop p = None → _ticks ≠ 0%Z →
  ∃ state',
    predictLoop g fuel p _ticks n state = Ok state'
    ∧ mana state' = mana state - num (Z.of_nat n)
    ∧ dom (st_stats state') = dom (st_stats state).
Proof.
  intros Hloop Hticks. revert state.
  induction n as [|n IH]; intros state.
  - exists state. split; [done|]. split; [|done].
    change (num (Z.of_nat 0)) with (num 0). rewrite num_0. ring.
  - simpl. unfold tick. simpl.
    destruct (exp_returns g _ticks (Prediction.action p) (st_stats state)
                Hticks) as [s Hs].
    rewrite Hs. simpl. rewrite Hloop. simpl.
    destruct (IH (set_stats (set_mana state (mana state - 1)) s))
      as (state' & -> & Hmana & Hdom).
    exists state'. split; [done|]. split.
    + rewrite Hmana.
      change (mana (set_stats (set_mana state (mana state - 1)) s))
        with (mana (set_mana state (mana state - 1))).
      rewrite mana_set_mana.
      change (num (Z.pos (Pos.of_succ_nat n))) with (num (Z.of_nat (S n))).
      rewrite num_succ. ring.
    + rewrite Hdom. simpl. by apply exp_dom in Hs.
Qed.

Lemma runEffects_none (p : Prediction.t) (state : State) :
  Prediction.loop p = None → Prediction.effect p = None →
  runEffects p state = state.
Proof.
  intros Hloop Heffect. unfold runEffects. rewrite Hloop, Heffect. simpl.
  by destruct state.
Qed.

(** A repetition of an action with no loop and no effect that takes a tick
    or more takes as much mana as it takes ticks, and keeps the stats that
    are there. *)
Lemma repetition_noLoop (g : Host) (fuel : nat) (name : string)
    (p : Prediction.t) (e : Entry) :
  Prediction.loop p = None →
  Prediction.effect p = None →
  (1 ≤ Prediction.updateTicks g (Prediction.action p)
         (st_stats (en_state e)))%Z →
  ∃ e',
    repetition g fuel name p e = Ok e'
    ∧ mana (en_state e')
      = mana (en_state e)
        - num (Prediction.updateTicks g (Prediction.action p)
                 (st_stats (en_state e)))
    ∧ dom (st_stats (en_state e')) = dom (st_stats (en_state e)).
Proof.
  intros Hloop Heffect Ht.
  destruct (predictLoop_noLoop g fuel p
              (Prediction.updateTicks g (Prediction.action p)
                 (st_stats (en_state e)))
              (Z.to_nat (Prediction.updateTicks g (Prediction.action p)
                           (st_stats (en_state e))))
              (en_state e) Hloop) as (state & Hpredict & Hmana & Hdom); [lia|].
  exists {| en_state :=
              runEffects p
                (en_state (account g name (mana (en_state e)) e state));
            en_isValid :=
              en_isValid (account g name (mana (en_state e)) e state);
            en_total := en_total (account g name (mana (en_state e)) e state);
            en_totalTicks :=
              en_totalTicks (account g name (mana (en_state e)) e state) |}.
  split.
  { unfold repetition, predict. rewrite ticks_nonzero by lia.
    simpl. by rewrite Hpredict. }
  cbn [en_state]. rewrite runEffects_none by done. split.
  - rewrite account_mana, Hmana. by rewrite Z2Nat.id by lia.
  - rewrite <- Hdom. unfold account, guildAfter, guildBefore. simpl.
    by repeat case_bool_decide.
Qed.

(** An entry adds its report, if it has one, after those that are there. *)
Lemma entry_reports (g : Host) (predictions : gmap string Prediction.t)
    (fuel : nat) (affected : list string) (run run' : Run)
    (listedAction : ListedAction) :
  entry g predictions fuel affected run listedAction = Ok run' →
  ∃ reports, run_reports run' = run_reports run ++ reports.
Proof.
  unfold entry. intros Hentry.
  destruct (predictions !! la_name listedAction).
  - inv_bind Hentry. injection Hentry as <-. by eexists.
  - destruct (inherited _); injection Hentry as <-; [by eexists|].
    exists []. by rewrite app_nil_r.
Qed.

(** The flag after the repetitions of an entry is false exactly when it was
    false before them or one of the repetitions that ran left negative mana
    when its ticks were over. *)
Lemma repetitions_flag (g : Host) (fuel : nat) (name : string)
    (p : Prediction.t) (n : nat) (e e' : Entry) :
  repetitions g fuel name p n e = Ok e' →
  en_isValid e' = false
  ↔ en_isValid e = false
    ∨ ∃ k e_k state,
        (k < n)%nat
        ∧ repetitions g fuel name p k e = Ok e_k
        ∧ evalCanStart (Prediction.canStart p) (st_resources (en_state e_k))
          = true
        ∧ predict g fuel p (en_state e_k) = Ok state
        ∧ mana state < 0.
Proof.
  revert e. induction n as [|n IH]; intros e Hreps.
  { injection Hreps as <-. split; [by left|].
    intros [?|(k & _ & _ & Hk & _)]; [done|lia]. }
  rewrite repetitions_S in Hreps.
  destruct (evalCanStart (Prediction.canStart p) (st_resources (en_state e)))
    eqn:Hstart.
  - inv_bind Hreps. rename a into e1.
    pose proof Ha as Hrep.
    apply repetition_inv in Ha as (state1 & Hpredict & He1).
    assert (en_isValid e1 = en_isValid e && bool_decide (0 ≤ mana state1))
      as Hflag by (by rewrite He1).
    rewrite (IH e1 Hreps), Hflag. split.
    + intros [Hfalse|(k & e_k & state & Hk & Hk_reps & Hk_start & Hk_predict
                        & Hneg)].
      * apply andb_false_iff in Hfalse as [?|Hfalse]; [by left|right].
        exists 0%nat, e, state1. split; [lia|]. split; [done|].
        split; [exact Hstart|]. split; [exact Hpredict|].
        apply bool_decide_eq_false in Hfalse. by apply Qcnot_le_lt.
      * right. exists (S k), e_k, state. split; [lia|].
        split; [|done]. by rewrite repetitions_S, Hstart, Hrep.
    + intros [Hfalse|(k & e_k & state & Hk & Hk_reps & Hk_start & Hk_predict
                        & Hneg)].
      * left. by rewrite Hfalse.
      * destruct k as [|k].
        -- injection Hk_reps as <-. left.
           rewrite Hpredict in Hk_predict. injection Hk_predict as <-.
           rewrite bool_decide_eq_false_2, andb_false_r; [done|].
           by apply Qclt_not_le.
        -- right. exists k, e_k, state. split; [lia|].
           split; [|done].
           by rewrite repetitions_S, Hstart, Hrep in Hk_reps.
  - injection Hreps as <-. split; [by left|].
    intros [?|(k & e_k & state & _ & Hk_reps & Hk_start & _)]; [done|].
    rewrite repetitions_blocked in Hk_reps by done.
    injection Hk_reps as <-. congruence.
Qed.

Lemma Qcdiv_nonneg (x y : Qc) : 0 ≤ x → 0 ≤ y → 0 ≤ x / y.
Proof.
  intros Hx Hy. unfold Qcdiv, Qcinv. qc_to_q.
  apply Qmult_le_0_compat; [done|]. by apply Qinv_le_0_compat.
Qed.

(** With a mana cost, stat weights and levels that are not negative, a tick
    count is not negative. *)
Lemma updateTicks_nonneg (g : Host) (a : Action) (s : gmap string Qc) :
  0 ≤ a_manaCost a →
  (∀ i w, a_stats a !! i = Some w → 0 ≤ w) →
  (∀ x, 0 ≤ getLevelFromExp g x) →
  (0 ≤ Prediction.updateTicks g a s)%Z.
Proof.
  intros Hcost Hweights Hlevel. unfold Prediction.updateTicks.
  assert (∀ l c, 0 ≤ c → 0 ≤ foldl (Prediction.addStatCost g a s) c l)
    as Hfold.
  { induction l as [|i l IH]; intros c Hc; [done|]. cbn [foldl]. apply IH.
    unfold Prediction.addStatCost.
    assert (0 ≤ match a_stats a !! i, s !! i with
                | Some w, Some e => w / (1 + getLevelFromExp g e / num 100)
                | _, _ => 0
                end) as Hterm.
    { destruct (a_stats a !! i) as [w|] eqn:Hw, (s !! i) as [e|]; try done.
      apply Qcdiv_nonneg; [by eapply Hweights|].
      assert (0 ≤ getLevelFromExp g e / num 100) as Hdiv.
      { apply Qcdiv_nonneg; [done|]. rewrite <- num_0. by apply num_le. }
      revert Hdiv. generalize (getLevelFromExp g e / num 100) as x.
      intros x Hx. qc_lra. }
    revert Hterm. generalize (match a_stats a !! i, s !! i with
                              | Some w, Some e =>
                                  w / (1 + getLevelFromExp g e / num 100)
                              | _, _ => 0
                              end) as x.
    intros x Hx. qc_lra. }
  specialize (Hfold (statList g) 0 (Qcle_refl 0)).
  assert (0 ≤ a_manaCost a * foldl (Prediction.addStatCost g a s) 0 (statList g))
    as Hprod.
  { revert Hfold Hcost.
    generalize (foldl (Prediction.addStatCost g a s) 0 (statList g)) as c.
    generalize (a_manaCost a) as m. intros m c Hc Hm. qc_to_q.
    by apply Qmult_le_0_compat. }
  revert Hprod.
  generalize (a_manaCost a * foldl (Prediction.addStatCost g a s) 0 (statList g))
    as x.
  intros x Hx. unfold ceil.
  destruct (Z_lt_le_dec (Qceiling (x - epsilon)%Qc) 0) as [Hneg|]; [|done].
  exfalso. pose proof (Qle_ceiling (x - epsilon)%Qc) as Hceil.
  assert (inject_Z (Qceiling (x - epsilon)%Qc) <= inject_Z (-1))%Q as Hle.
  { rewrite <- Zle_Qle. lia. }
  assert (- (1) < this (x - epsilon)%Qc)%Q as Hlt.
  { unfold epsilon. revert Hx. clear. intros Hx. qc_to_q. lra. }
  unfold inject_Z in Hle at 2. lra.
Qed.

(** C4, amended.  The validity flag belongs to an entry: it starts at
    [true] with every entry, and after each repetition that runs it is
    tested on the mana left when the ticks of the repetition are over,
    before the effect of the repetition runs.  So it holds after a
    repetition exactly when it held before and that mana is not negative;
    once false it stays false for the rest of the entry's repetitions; and
    the flag in the report of an entry is false exactly when one of the
    repetitions of that entry that ran left negative mana after its ticks,
    whatever was reported before.  The report of an entry stays in the
    reports for the rest of the run.  The flag stops nothing: the
    repetitions run the same with the flag set or not; a repetition of an
    action with no loop and no effect takes as much mana as it takes ticks,
    whatever mana is left; and for such an action with no start condition,
    whose mana cost, stat weights and levels are not negative, [n]
    repetitions take at least [n] mana, unless one of them comes to a tick
    count of zero, on which the simulation ends with a [TypeError]. *)
Theorem validity_flag (g : Host) (fuel : nat) (name : string)
    (p : Prediction.t) :
  (∀ e state,
     predict g fuel p (en_state e) = Ok state →
     ∃ e',
       repetition g fuel name p e = Ok e'
       ∧ en_isValid e' = en_isValid e && bool_decide (0 ≤ mana state)
       ∧ (mana state < 0 → en_isValid e' = false))
  ∧ (∀ n e e',
       en_isValid e = false →
       repetitions g fuel name p n e = Ok e' →
       en_isValid e' = false)
  ∧ (∀ predictions affected run run' loops,
       predictions !! name = Some p →
       entry g predictions fuel affected run
         {| la_name := name; la_loops := loops |} = Ok run' →
       ∃ report,
         run_reports run' = run_reports run ++ [report]
         ∧ rp_name report = name
         ∧ (rp_isValid report = false
            ↔ ∃ k e state,
                (k < Z.to_nat loops)%nat
                ∧ repetitions g fuel name p k
                    (startEntry run (ensureProgress g p (run_state run)))
                  = Ok e
                ∧ evalCanStart (Prediction.canStart p)
                    (st_resources (en_state e)) = true
                ∧ predict g fuel p (en_state e) = Ok state
                ∧ mana state < 0))
  ∧ (∀ n e e' b,
       repetitions g fuel name p n e = Ok e' →
       ∃ b', repetitions g fuel name p n (withValid e b)
             = Ok (withValid e' b'))
  ∧ (Prediction.loop p = None →
     Prediction.effect p = None →
     ∀ e,
       (1 ≤ Prediction.updateTicks g (Prediction.action p)
              (st_stats (en_state e)))%Z →
       ∃ e',
         repetition g fuel name p e = Ok e'
         ∧ mana (en_state e')
           = mana (en_state e)
             - num (Prediction.updateTicks g (Prediction.action p)
                      (st_stats (en_state e))))
  ∧ (Prediction.loop p = None →
     Prediction.effect p = None →
     Prediction.canStart p = CanStartBool true →
     0 ≤ a_manaCost (Prediction.action p) →
     (∀ i w, a_stats (Prediction.action p) !! i = Some w → 0 ≤ w) →
     (∀ x, 0 ≤ getLevelFromExp g x) →
     ∀ n e,
       (∃ k e_k,
          (k < n)%nat
          ∧ repetitions g fuel name p k e = Ok e_k
          ∧ Prediction.updateTicks g (Prediction.action p)
              (st_stats (en_state e_k)) = 0%Z
          ∧ repetitions g fuel name p n e = TypeError)
       ∨ ∃ e',
           repetitions g fuel name p n e = Ok e'
           ∧ mana (en_state e') ≤ mana (en_state e) - num (Z.of_nat n))
  ∧ (∀ predictions affected actions run run',
       entries g predictions fuel affected run actions = Ok run' →
       ∃ later, run_reports run' = run_reports run ++ later).
Proof.
  split; [|split; [|split; [|split; [|split; [|split]]]]].
  - intros e state Hpredict. unfold repetition. rewrite Hpredict. simpl.
    eexists. split; [done|]. simpl. split; [done|].
    intros Hneg. rewrite bool_decide_eq_false_2, andb_false_r; [done|].
    by apply Qclt_not_le.
  - intros n e e' Hflag Hreps.
    apply (repetitions_flag _ _ _ _ _ _ _ Hreps). by left.
  - intros predictions affected run run' loops Hp Hentry.
    unfold entry in Hentry. cbn [la_name la_loops] in Hentry.
    rewrite Hp in Hentry. inv_bind Hentry. injection Hentry as <-.
    eexists. split; [reflexivity|]. split; [reflexivity|].
    cbn [rp_isValid]. rewrite (repetitions_flag _ _ _ _ _ _ _ Ha).
    split; [|by right]. by intros [?|?].
  - intros n. induction n as [|n IH]; intros e e' b Hreps.
    + injection Hreps as <-. by exists b.
    + rewrite repetitions_S in *.
      change (en_state (withValid e b)) with (en_state e).
      destruct (evalCanStart _ _); [|injection Hreps as <-; by exists b].
      inv_bind Hreps.
      destruct (repetition_withValid g fuel name p e a b Ha) as [b1 ->].
      by apply IH.
  - intros Hloop Heffect e Hticks.
    destruct (repetition_noLoop g fuel name p e Hloop Heffect Hticks)
      as (e' & Hrep & Hmana & _).
    by exists e'.
  - intros Hloop Heffect Hstart Hcost Hweights Hlevel n.
    induction n as [|n IH]; intros e.
    { right. exists e. split; [done|]. change (num (Z.of_nat 0)) with (num 0).
      rewrite num_0. generalize (mana (en_state e)) as m. intros m. qc_lra. }
    pose proof (updateTicks_nonneg g (Prediction.action p)
                  (st_stats (en_state e)) Hcost Hweights Hlevel) as Hnonneg.
    destruct (decide (Prediction.updateTicks g (Prediction.action p)
                        (st_stats (en_state e)) = 0%Z)) as [Hzero|Hpos].
    { left. exists 0%nat, e. split; [lia|]. split; [done|].
      split; [exact Hzero|].
      rewrite repetitions_S, Hstart. cbn [evalCanStart].
      unfold repetition, predict. rewrite Hzero. reflexivity. }
    destruct (repetition_noLoop g fuel name p e Hloop Heffect)
      as (e1 & Hrep & Hone & _); [lia|].
    assert (∀ k, repetitions g fuel name p (S k) e
                 = repetitions g fuel name p k e1) as Hstep.
    { intros k. rewrite repetitions_S, Hstart. cbn [evalCanStart].
      by rewrite Hrep. }
    destruct (IH e1) as [(k & e_k & Hk & Hk_reps & Hk_zero & Herror)
                        |(e' & Hreps & Hle)].
    + left. exists (S k), e_k. split; [lia|].
      by rewrite !Hstep.
    + right. exists e'. rewrite Hstep. split; [exact Hreps|].
      rewrite num_succ.
      assert (num 1 ≤ num (Prediction.updateTicks g (Prediction.action p)
                             (st_stats (en_state e)))) as Htick.
      { apply num_le. lia. }
      rewrite num_1 in Htick.
      revert Hle Hone Htick.
      generalize (num (Prediction.updateTicks g (Prediction.action p)
                         (st_stats (en_state e)))) as t.
      generalize (mana (en_state e')) as m'.
      generalize (mana (en_state e1)) as m1.
      generalize (mana (en_state e)) as m.
      generalize (num (Z.of_nat n)) as c.
      intros c m m1 m' t Hle Hone Htick. rewrite Hone in Hle. qc_lra.
  - intros predictions affected actions.
    induction actions as [|listedAction actions IH]; intros run run' Hrun.
    + injection Hrun as <-. exists []. by rewrite app_nil_r.
    + simpl in Hrun. inv_bind Hrun.
      destruct (IH a run' Hrun) as [later ->].
      apply entry_reports in Ha as [report ->].
      eexists. by rewrite <- app_assoc.
Qed.

(** With 250 mana, thirty repetitions of ['Train Strength'], of ten ticks
    each, leave -50 mana, and the entry is reported invalid: the 26th
    repetition is the first to end below 0.  The ['Haggle'] that follows
    cannot start, and is reported valid although the mana is still -50. *)
Lemma validity_flag_witness :
  ∃ run1 run2 report1 report2 e',
    entry Demo.host Demo.predictions 2 []
      (initialRun Demo.host Demo.predictions [])
      {| la_name := "Train Strength"; la_loops := 30 |} = Ok run1
    ∧ entry Demo.host Demo.predictions 2 [] run1
        {| la_name := "Haggle"; la_loops := 1 |} = Ok run2
    ∧ run_reports run2 = [report1; report2]
    ∧ rp_isValid report1 = false
    ∧ rp_isValid report2 = true
    ∧ mana (run_state run2) < 0
    ∧ repetitions Demo.host 2 "Train Strength"
        (Demo.prediction "Train Strength" Demo.trainStrength) 30
        (Demo.firstEntry
           (run_state (initialRun Demo.host Demo.predictions []))) = Ok e'
    ∧ mana (en_state e') ≤ num 250 - num 30.
Proof.
  pose (strength := Demo.prediction "Train Strength" Demo.trainStrength).
  pose (haggle := Demo.prediction "Haggle" Demo.haggle).
  pose (run0 := initialRun Demo.host Demo.predictions []).
  destruct (validity_flag Demo.host 2 "Train Strength" strength)
    as (_ & _ & Hreport1 & _ & _ & Hmany & _).
  destruct (validity_flag Demo.host 2 "Haggle" haggle)
    as (_ & _ & Hreport2 & _).
  destruct (result_eval
              (run1 ← entry Demo.host Demo.predictions 2 [] run0
                         {| la_name := "Train Strength"; la_loops := 30 |};
               run2 ← entry Demo.host Demo.predictions 2 [] run1
                         {| la_name := "Haggle"; la_loops := 1 |};
               Ok (run1, run2))
              (λ r, evalCanStart (Prediction.canStart haggle)
                      (st_resources
                         (ensureProgress Demo.host haggle (run_state r.1)))
                    = false
                    ∧ mana (run_state r.2) < 0))
    as ([run1 run2] & Hruns & Hblocked & Hmana).
  { vm_compute. split; reflexivity. }
  cbn [fst snd] in Hblocked, Hmana.
  inv_bind Hruns. inv_bind Hruns. injection Hruns as -> ->.
  rename Ha into Hrun1, Ha0 into Hrun2.
  destruct (result_eval
              (e ← repetitions Demo.host 2 "Train Strength" strength 25
                     (startEntry run0
                        (ensureProgress Demo.host strength (run_state run0)));
               state ← predict Demo.host 2 strength (en_state e);
               Ok (e, state))
              (λ r, mana r.2 < 0))
    as ([e state] & Hlate & Hneg).
  { vm_compute. reflexivity. }
  cbn [snd] in Hneg.
  inv_bind Hlate. inv_bind Hlate. injection Hlate as -> ->.
  rename Ha into Hreps, Ha0 into Hpredict.
  destruct (Hreport1 Demo.predictions [] run0 run1 30%Z eq_refl Hrun1)
    as (report1 & Hreports1 & _ & Hvalid1).
  destruct (Hreport2 Demo.predictions [] run1 run2 1%Z eq_refl Hrun2)
    as (report2 & Hreports2 & _ & Hvalid2).
  destruct (Hmany eq_refl eq_refl eq_refl) with (n := 30%nat)
      (e := Demo.firstEntry (run_state run0))
    as [(k & e_k & _ & _ & _ & Herror)|(e' & Hthirty & Hle)].
  { qc_decide. }
  { intros i w Hw.
    change (a_stats (Prediction.action strength))
      with ({["strength" := num 10]} : gmap string Qc) in Hw.
    apply lookup_singleton_Some in Hw as [_ <-]. qc_decide. }
  { intros x. apply Qcle_refl. }
  { exfalso. revert Herror. vm_compute. discriminate. }
  exists run1, run2, report1, report2, e'.
  split; [exact Hrun1|]. split; [exact Hrun2|]. split.
  { rewrite Hreports2, Hreports1. reflexivity. }
  split.
  { apply Hvalid1. exists 25%nat, e, state.
    split; [lia|]. split; [exact Hreps|]. split; [reflexivity|].
    split; [exact Hpredict|exact Hneg]. }
  split.
  { destruct (rp_isValid report2); [reflexivity|exfalso].
    destruct (proj1 Hvalid2 eq_refl) as (k & e2 & _ & Hk & Hk_reps & Hstart & _).
    assert (k = 0%nat) as -> by lia.
    injection Hk_reps as <-. cbn [startEntry en_state] in Hstart.
    rewrite Hblocked in Hstart. discriminate Hstart. }
  split; [exact Hmana|]. split; [exact Hthirty|exact Hle].
Defined.

(** With 250 mana, ['Adventure Guild'] here takes 252 ticks and its first
    segment, finished on the last one, gives 200 mana back: the mana is -1
    after 251 ticks and 198 when the ticks are over, and the entry is
    reported valid. *)
Lemma flaggedWhenNegative_counterexample :
  ¬ flaggedWhenNegative Demo.host Demo.predictions 2
      {| la_name := "Adventure Guild"; la_loops := 1 |} 251.
Proof.
  unfold not. vm_compute. intros Hclaim.
  assert (true = false) as Hvalid; [|discriminate Hvalid].
  refine (Hclaim _ eq_refl _ eq_refl _ (list_elem_of_here _ _)).
  - discriminate.
  - repeat constructor.
Qed.

(** ** Snapshots *)

Lemma snap_lookup (this : Snapshot.t) (attrs : gmap string Qc) (i : string)
    (c : Snapshot.Comparison) :
  Snapshot._isInitialized this = true →
  Snapshot.attributes this !! i = Some c →
  Snapshot.attributes (Snapshot.snap this attrs) !! i
  = Some {| Snapshot.value := attrs !! i;
            Snapshot.delta := Snapshot.minus (attrs !! i) (Snapshot.value c) |}.
Proof.
  intros Hinit Hc. unfold Snapshot.snap. rewrite Hinit. simpl.
  by rewrite map_lookup_imap, Hc.
Qed.

Lemma snap_initialized (this : Snapshot.t) (attrs : gmap string Qc) :
  Snapshot._isInitialized (Snapshot.snap this attrs) = true.
Proof.
  unfold Snapshot.snap.
  destruct (Snapshot._isInitialized this) eqn:Hinit; simpl; done.
Qed.

Lemma observe_snoc (this : Snapshot.t) (observations : list (gmap string Qc))
    (attrs : gmap string Qc) :
  observe this (observations ++ [attrs])
  = Snapshot.snap (observe this observations) attrs.
Proof. apply foldl_snoc. Qed.

Lemma observe_initialized (this : Snapshot.t)
    (observations : list (gmap string Qc)) :
  Snapshot._isInitialized this = true →
  Snapshot._isInitialized (observe this observations) = true.
Proof.
  intros Hinit. induction observations as [|attrs l IH] using rev_ind; [done|].
  rewrite observe_snoc. apply snap_initialized.
Qed.

(** C9, amended.  For a snapshot constructed with attributes, and a key [i]
    of these: before any [snap] the delta is null and the value is the one
    given to the constructor; after every [snap] the value is the one last
    provided and the delta is that value minus the one provided before,
    never null again.  A snapshot constructed without attributes is
    initialised by its first [snap], which leaves the delta 0, not null. *)
Theorem snapshot_delta (attrs0 : gmap string Qc)
    (observations : list (gmap string Qc)) (i : string) (v0 : Qc) :
  attrs0 !! i = Some v0 →
  (∃ c,
     Snapshot.attributes
       (observe (Snapshot.constructor (Some attrs0)) observations) !! i
     = Some c
     ∧ Snapshot.value c = lastObservation attrs0 observations !! i
     ∧ Snapshot.delta c
       = match observations with
         | [] => Snapshot.Null
         | _ =>
             Snapshot.minus (lastObservation attrs0 observations !! i)
                            (previousObservation attrs0 observations !! i)
         end)
  ∧ Snapshot.attributes (Snapshot.snap (Snapshot.constructor None) attrs0) !! i
    = Some {| Snapshot.value := Some v0;
              Snapshot.delta := Snapshot.Diff 0 |}.
Proof.
  intros Hi. split.
  - induction observations as [|attrs l IH] using rev_ind.
    + exists {| Snapshot.value := Some v0; Snapshot.delta := Snapshot.Null |}.
      split; [|done]. simpl.
      rewrite lookup_union_l by apply lookup_empty.
      by rewrite lookup_fmap, Hi.
    + destruct IH as (c & Hc & Hvalue & _).
      rewrite observe_snoc.
      rewrite (snap_lookup _ _ _ c); [|by apply observe_initialized|done].
      eexists. split; [done|]. simpl.
      unfold previousObservation. rewrite removelast_last.
      unfold lastObservation at 1 2. rewrite last_snoc. simpl.
      split; [done|]. rewrite Hvalue. by destruct l.
  - unfold Snapshot.snap. simpl. rewrite map_lookup_imap.
    rewrite lookup_union_l by apply lookup_empty.
    rewrite lookup_fmap. unfold Snapshot.read. rewrite Hi. simpl.
    do 3 f_equal. ring.
Qed.

Lemma snapshot_delta_witness :
  ∃ c,
    Snapshot.attributes
      (observe (Snapshot.constructor (Some {["strength" := num 10]}))
               [{["strength" := num 30]}; {["strength" := num 70]}])
      !! "strength" = Some c
    ∧ Snapshot.value c = Some (num 70)
    ∧ Snapshot.delta c = Snapshot.Diff (num 70 - num 30).
Proof.
  destruct (snapshot_delta {["strength" := num 10]}
              [{["strength" := num 30]}; {["strength" := num 70]}]
              "strength" (num 10)) as [(c & Hc & Hvalue & Hdelta) _];
    [reflexivity|].
  exists c. split; [exact Hc|]. split; [exact Hvalue|exact Hdelta].
Defined.

(** A snapshot built without attributes and shown [{x: 5}] has delta 0 for
    [x] after this first observation. *)
Lemma nullAfterFirstObservation_counterexample :
  ¬ nullAfterFirstObservation {["x" := num 5]}.
Proof.
  intros Hclaim. specialize (Hclaim "x"). revert Hclaim.
  vm_compute. discriminate.
Qed.

(** * More properties *)

(** ** Helpers *)

Ltac getR_simpl :=
  repeat first [rewrite getR_insert | rewrite getR_insert_ne by done].

(** ** Entries that are skipped *)

Lemma affectedOf_filter (predictions : gmap string Prediction.t)
    (actions : list ListedAction) :
  affectedOf predictions (filter (found predictions) actions)
  = affectedOf predictions actions.
Proof.
  unfold affectedOf. do 2 f_equal.
  induction actions as [|x actions IH]; [done|].
  rewrite filter_cons. destruct (decide (found predictions x)) as [Hx|Hx].
  - by rewrite !bind_cons, IH.
  - rewrite bind_cons, IH. unfold found in Hx.
    destruct (predictions !! la_name x) eqn:Hp; [|done].
    exfalso. apply Hx. left. by eexists.
Qed.

Lemma entries_filter (g : Host) (predictions : gmap string Prediction.t)
    (fuel : nat) (affected : list string) (actions : list ListedAction)
    (run : Run) :
  entries g predictions fuel affected run (filter (found predictions) actions)
  = entries g predictions fuel affected run actions.
Proof.
  revert run. induction actions as [|x actions IH]; intros run; [done|].
  rewrite filter_cons. destruct (decide (found predictions x)) as [Hx|Hx].
  - simpl. destruct (entry g predictions fuel affected run x); simpl; auto.
  - rewrite IH. simpl. unfold entry, found in *.
    destruct (predictions !! la_name x) eqn:Hp;
      [exfalso; apply Hx; left; by eexists|].
    destruct (inherited (la_name x)) eqn:Hinherited; [|done].
    exfalso. apply Hx. by right.
Qed.

(** X1.  [update] skips the entries of the list whose name the rule table
    does not have, unless it is a name every object inherits from
    [Object.prototype] (['toString'], ['constructor'], ...), for which
    [this.predictions[name]] is truthy: the run of a list is the run of its
    other entries.  A list of skipped entries only (the empty list is one)
    costs nothing, takes no time, reports nothing and leaves the 250 mana and
    the town 0 of the start. *)
Theorem update_skips_unknown (g : Host)
    (predictions : gmap string Prediction.t) (fuel : nat)
    (actions : list ListedAction) :
  update g predictions fuel actions
  = update g predictions fuel (filter (found predictions) actions)
  ∧ ((∀ x, x ∈ actions →
           predictions !! la_name x = None ∧ inherited (la_name x) = false) →
     ∃ run,
       update g predictions fuel actions = Ok run
       ∧ run_reports run = []
       ∧ run_total run = 0
       ∧ run_totalTicks run = 0
       ∧ st_resources (run_state run) = <["town" := 0]> {["mana" := num 250]}
       ∧ st_progress (run_state run) = ∅).
Proof.
  assert (update g predictions fuel actions
          = update g predictions fuel (filter (found predictions) actions))
    as Hfilter.
  { unfold update, initialRun.
    by rewrite !affectedOf_filter, entries_filter. }
  split; [done|]. intros Hunknown.
  assert (filter (found predictions) actions = []) as Hnil.
  { clear Hfilter. induction actions as [|x actions IH]; [done|].
    rewrite filter_cons. destruct (Hunknown x) as [Hp Hinherited]; [left|].
    destruct (decide _) as [[[p Hp']|Hinherited']|_].
    - by rewrite Hp in Hp'.
    - by rewrite Hinherited in Hinherited'.
    - apply IH. intros y Hy. apply Hunknown. by right. }
  rewrite Hfilter, Hnil. eexists. split; [reflexivity|]. simpl.
  repeat split; try done. apply Qc_is_canon. reflexivity.
Qed.

Lemma update_skips_unknown_witness :
  ∃ run,
    update Demo.host Demo.predictions 0
      [{| la_name := "Wander"; la_loops := 3 |}] = Ok run
    ∧ run_reports run = []
    ∧ run_total run = 0
    ∧ run_totalTicks run = 0
    ∧ st_resources (run_state run) = <["town" := 0]> {["mana" := num 250]}
    ∧ st_progress (run_state run) = ∅.
Proof.
  apply (update_skips_unknown Demo.host Demo.predictions 0
           [{| la_name := "Wander"; la_loops := 3 |}]).
  intros x Hx. apply list_elem_of_singleton in Hx as ->.
  split; reflexivity.
Defined.

(** ** [Object.keys] *)

Lemma objectKeys_Permutation (created : list string) :
  objectKeys created ≡ₚ created.
Proof.
  unfold objectKeys. rewrite merge_sort_Permutation.
  apply filter_app_complement.
Qed.

(** Keys none of which is an array index are listed in the order of their
    creation. *)
Lemma objectKeys_names (created : list string) :
  (∀ x, x ∈ created → arrayIndex x = None) → objectKeys created = created.
Proof.
  intros Hnames. unfold objectKeys.
  assert (filter (λ x, is_Some (arrayIndex x)) created = []
          ∧ filter (λ x, ¬ is_Some (arrayIndex x)) created = created)
    as [-> ->]; [|done].
  induction created as [|x created IH]; [done|].
  destruct IH as [IH1 IH2]; [intros y Hy; apply Hnames; by right|].
  assert (arrayIndex x = None) as Hx by (apply Hnames; left).
  rewrite !filter_cons, IH1, IH2.
  destruct (decide (is_Some (arrayIndex x))) as [[n Hn]|_];
    [congruence|].
  destruct (decide (¬ is_Some (arrayIndex x))) as [_|Hnot]; [done|].
  exfalso. apply Hnot. rewrite Hx. by intros [n Hn].
Qed.

(** ** The reports of a run *)

Lemma entries_reports (g : Host) (predictions : gmap string Prediction.t)
    (fuel : nat) (affected : list string) (actions : list ListedAction)
    (run run' : Run) :
  entries g predictions fuel affected run actions = Ok run' →
  ∃ reports,
    run_reports run' = run_reports run ++ reports
    ∧ rp_name <$> reports = la_name <$> filter (found predictions) actions
    ∧ ∀ report, report ∈ reports → (rp_resources report).*1 = affected.
Proof.
  revert run. induction actions as [|x actions IH]; intros run Hrun.
  - injection Hrun as <-. exists []. rewrite app_nil_r. split; [done|].
    split; [done|]. intros report Hin. by apply elem_of_nil in Hin.
  - simpl in Hrun. inv_bind Hrun. apply IH in Hrun as (reports & -> & Hn & Hr).
    rewrite filter_cons.
    assert (∀ e, ∃ reports',
              run_reports (finishEntry affected run (la_name x) e) ++ reports
              = run_reports run ++ reports'
              ∧ rp_name <$> reports'
                = la_name x :: (la_name <$> filter (found predictions) actions)
              ∧ ∀ report, report ∈ reports' →
                          (rp_resources report).*1 = affected) as Hfinish.
    { intros e. cbn [finishEntry run_reports]. eexists (_ :: reports).
      rewrite <- app_assoc. split; [reflexivity|].
      split; [rewrite !fmap_cons; by rewrite Hn|].
      intros report [->|Hin]%elem_of_cons; [|by apply Hr]. simpl.
      rewrite <- list_fmap_compose. by rewrite list_fmap_id. }
    unfold entry in Ha.
    destruct (decide (found predictions x)) as [[[p Hp]|Hinherited]|Hx].
    + rewrite Hp in Ha. inv_bind Ha. injection Ha as <-. apply Hfinish.
    + destruct (predictions !! la_name x) as [p|].
      * inv_bind Ha. injection Ha as <-. apply Hfinish.
      * rewrite Hinherited in Ha. injection Ha as <-. apply Hfinish.
    + destruct (predictions !! la_name x) eqn:Hp;
        [exfalso; apply Hx; left; by eexists|].
      destruct (inherited (la_name x)) eqn:Hinherited;
        [exfalso; apply Hx; by right|].
      injection Ha as <-. by exists reports.
Qed.

(** X2.  A run that ends reports once on every entry for which
    [this.predictions[name]] is truthy, in the order of the list, whether
    the entry could start or not: those the rule table has a rule for, and
    those whose name every object inherits from [Object.prototype], such as
    ['toString'].  Every report lists the same resources, the affected
    resources of the whole list in the order of [Object.keys]: when none of
    them is an array index, the order of their first mention. *)
Theorem update_reports (g : Host) (predictions : gmap string Prediction.t)
    (fuel : nat) (actions : list ListedAction) (run : Run) :
  update g predictions fuel actions = Ok run →
  rp_name <$> run_reports run = la_name <$> filter (found predictions) actions
  ∧ (∀ report, report ∈ run_reports run →
               (rp_resources report).*1 = affectedOf predictions actions)
  ∧ ((∀ x, x ∈ affectedOf predictions actions → arrayIndex x = None) →
     affectedOf predictions actions
     = foldl addKey []
         (actions ≫= λ x, match predictions !! la_name x with
                          | Some p => Prediction.affected p
                          | None => []
                          end)).
Proof.
  unfold update. intros Hupdate. inv_bind Hupdate. injection Hupdate as <-.
  simpl. apply entries_reports in Ha as (reports & -> & Hnames & Hres).
  split; [done|]. split; [done|]. intros Hindex. unfold affectedOf.
  apply objectKeys_names. intros x Hx. apply Hindex. unfold affectedOf.
  by rewrite objectKeys_Permutation.
Qed.

Lemma update_reports_witness :
  ∃ run,
    update Demo.host Demo.predictions 2
      [ {| la_name := "Two Segments"; la_loops := 1 |};
        {| la_name := "Wander"; la_loops := 1 |};
        {| la_name := "toString"; la_loops := 1 |};
        {| la_name := "Haggle"; la_loops := 2 |} ] = Ok run
    ∧ rp_name <$> run_reports run = ["Two Segments"; "toString"; "Haggle"]
    ∧ ∀ report, report ∈ run_reports run →
                (rp_resources report).*1 = ["loops"; "segs"; "rep"].
Proof.
  pose proof (update_reports Demo.host Demo.predictions 2) as Hreports.
  destruct (result_eval
              (update Demo.host Demo.predictions 2
                 [ {| la_name := "Two Segments"; la_loops := 1 |};
                   {| la_name := "Wander"; la_loops := 1 |};
                   {| la_name := "toString"; la_loops := 1 |};
                   {| la_name := "Haggle"; la_loops := 2 |} ])
              (λ _, True)) as (run & Hrun & _).
  { vm_compute. exact I. }
  exists run. split; [exact Hrun|].
  destruct (Hreports _ run Hrun) as (Hnames & Hresources & _).
  split; [exact Hnames|exact Hresources].
Defined.

(** ** The resources a run starts with *)

Lemma addKey_fold (l keys : list string) :
  NoDup keys →
  NoDup (foldl addKey keys l)
  ∧ ∀ x, x ∈ foldl addKey keys l ↔ x ∈ keys ∨ x ∈ l.
Proof.
  revert keys. induction l as [|y l IH]; intros keys Hnodup; cbn [foldl].
  - split; [done|]. intros x. rewrite elem_of_nil. tauto.
  - unfold addKey at 2 4. destruct (decide (y ∈ keys)) as [Hy|Hy].
    + destruct (IH keys Hnodup) as [Hnodup' Hin]. split; [done|].
      intros x. rewrite Hin, elem_of_cons. split; [tauto|].
      intros [?|[->|?]]; tauto.
    + destruct (IH (keys ++ [y])) as [Hnodup' Hin].
      { apply NoDup_app. split; [done|]. split; [|apply NoDup_singleton].
        intros x Hx ->%list_elem_of_singleton. done. }
      split; [done|]. intros x.
      rewrite Hin, elem_of_app, list_elem_of_singleton, elem_of_cons. tauto.
Qed.

Lemma initAffected_fold (l : list string) (x : string) :
  foldl initAffected (<["town" := 0]> {["mana" := num 250]}) l !! x
  = if decide (x = "mana") then Some (num 250)
    else if decide (x = "town" ∨ x ∈ l) then Some 0
    else None.
Proof.
  revert x. induction l as [|y l IH] using rev_ind; intros x.
  - cbn [foldl]. repeat case_decide; subst; simplify_map_eq; try done.
    destruct H0 as [->|Hin]; [done|]. by apply elem_of_nil in Hin.
  - rewrite foldl_snoc. unfold initAffected at 1.
    set (r := foldl initAffected _ l) in *.
    assert (truthy (getR r y) = bool_decide (y = "mana")) as ->.
    { unfold getR. rewrite (IH y).
      case_bool_decide as Hy; [by rewrite decide_True by done|].
      rewrite decide_False by done. by case_decide. }
    assert (x ∈ l ++ [y] ↔ x ∈ l ∨ x = y) as Hsnoc.
    { by rewrite elem_of_app, list_elem_of_singleton. }
    case_bool_decide as Hy.
    + subst y. rewrite (IH x).
      destruct (decide (x = "mana")) as [->|Hx]; [done|].
      destruct (decide (x = "town" ∨ x ∈ l)) as [Hin|Hin],
               (decide (x = "town" ∨ x ∈ l ++ ["mana"])) as [Hin'|Hin'];
        try done; exfalso; rewrite Hsnoc in Hin'; tauto.
    + destruct (decide (x = y)) as [->|Hxy].
      * rewrite lookup_insert_eq, decide_False by done.
        rewrite decide_True; [done|]. rewrite Hsnoc. tauto.
      * rewrite lookup_insert_ne by done. rewrite (IH x).
        destruct (decide (x = "mana")) as [->|Hx]; [done|].
        destruct (decide (x = "town" ∨ x ∈ l)) as [Hin|Hin],
                 (decide (x = "town" ∨ x ∈ l ++ [y])) as [Hin'|Hin'];
          try done; exfalso; rewrite Hsnoc in Hin'; tauto.
Qed.

(** X3.  A run starts with 250 mana, the town 0 and, at 0, every affected
    resource of the entries of the list that the rule table knows, each
    listed once; it starts with no other resource, and listing the mana
    among the affected resources does not reset it. *)
Theorem initialRun_resources (g : Host)
    (predictions : gmap string Prediction.t) (actions : list ListedAction) :
  NoDup (affectedOf predictions actions)
  ∧ (∀ x, x ∈ affectedOf predictions actions
          ↔ ∃ listedAction p,
              listedAction ∈ actions
              ∧ predictions !! la_name listedAction = Some p
              ∧ x ∈ Prediction.affected p)
  ∧ (∀ x, st_resources (run_state (initialRun g predictions actions)) !! x
          = if decide (x = "mana") then Some (num 250)
            else if decide (x = "town" ∨ x ∈ affectedOf predictions actions)
                 then Some 0
                 else None).
Proof.
  unfold affectedOf.
  destruct (addKey_fold
              (actions ≫= λ x, match predictions !! la_name x with
                               | Some p => Prediction.affected p
                               | None => []
                               end) []) as [Hnodup Hin]; [apply NoDup_nil_2|].
  split; [by rewrite objectKeys_Permutation|]. split.
  - intros x.
    rewrite objectKeys_Permutation, Hin, elem_of_nil, list_elem_of_bind.
    split.
    + intros [[]|(listedAction & Hx & Hlisted)].
      destruct (predictions !! la_name listedAction) as [p|] eqn:Hp;
        [|by apply elem_of_nil in Hx].
      by exists listedAction, p.
    + intros (listedAction & p & Hlisted & Hp & Hx). right.
      exists listedAction. by rewrite Hp.
  - intros x. unfold initialRun. cbn [run_state st_resources].
    apply initAffected_fold.
Qed.

(** ** The experience of an action *)

(** [n] ticks of an action without a loop: [n] mana, [n] shares of
    experience, added one after the other, nothing else. *)
Lemma predictLoop_noLoop_state (g : Host) (fuel : nat) (p : Prediction.t)
    (_ticks : Z) (n : nat) (state : State) :
  Prediction.loop p = None → _ticks ≠ 0%Z → NoDup (statList g) →
  ∃ state',
    predictLoop g fuel p _ticks n state = Ok state'
    ∧ st_resources state'
      = match n with
        | O => st_resources state
        | S _ => <["mana" := mana state - num (Z.of_nat n)]> (st_resources state)
        end
    ∧ st_skills state' = st_skills state
    ∧ st_progress state' = st_progress state
    ∧ ∀ i,
        st_stats state' !! i
        = match a_stats (Prediction.action p) !! i, st_stats state !! i with
          | Some w, Some e =>
              Some (if decide (i ∈ statList g)
                    then Nat.iter n
                           (λ x, x + share g (Prediction.action p) _ticks i w)
                           e
                    else e)
          | _, _ => st_stats state !! i
          end.
Proof.
  intros Hloop Hticks Hnodup. revert state.
  induction n as [|n IH]; intros state.
  - exists state. repeat split; try done. intros i.
    destruct (a_stats _ !! i), (st_stats state !! i) eqn:Hs; try done.
    by destruct (decide _).
  - cbn [predictLoop]. unfold tick. cbn [st_stats set_mana set_resources].
    destruct (exp_lookup g _ticks (Prediction.action p) (statList g)
                (st_stats state) Hticks Hnodup) as (s & Hs & Hlookup).
    unfold Prediction.exp. rewrite Hs. simpl. rewrite Hloop. simpl.
    destruct (IH (set_stats (set_mana state (mana state - 1)) s))
      as (state' & -> & Hres & Hskills & Hprogress & Hstats).
    exists state'. split; [done|]. split; [|split; [done|split; [done|]]].
    + rewrite Hres.
      change (mana (set_stats (set_mana state (mana state - 1)) s))
        with (mana (set_mana state (mana state - 1))).
      rewrite mana_set_mana. simpl.
      change (num (Z.pos (Pos.of_succ_nat n))) with (num (Z.of_nat (S n))).
      rewrite num_succ. destruct n as [|n].
      * f_equal; change (num (Z.of_nat 0)) with (num 0); rewrite num_0; ring.
      * rewrite insert_insert_eq. f_equal; ring.
    + intros i. rewrite Hstats. cbn [st_stats set_stats]. rewrite Hlookup.
      destruct (a_stats _ !! i), (st_stats state !! i); try done.
      f_equal. destruct (decide _); [|done].
      apply (Nat.iter_swap n _
               (λ x, x + share g (Prediction.action p) _ticks i q)).
Qed.

(** X5.  A repetition of an action without a loop that takes [t >= 1] ticks
    costs [t] mana and adds [t] times, one tick after the other, the same
    share [w * expMult * (manaCost / t) * bonus] to each stat that the action
    trains, the state has and the host lists: the tick count [t] is the one
    computed when the repetition starts, not one that follows the experience
    as it grows.  Other stats, the skills, the progress and the other
    resources are left as they are. *)
Theorem predict_experience (g : Host) (fuel : nat) (p : Prediction.t)
    (state : State) :
  Prediction.loop p = None →
  NoDup (statList g) →
  (1 ≤ Prediction.updateTicks g (Prediction.action p) (st_stats state))%Z →
  let t := Prediction.updateTicks g (Prediction.action p) (st_stats state) in
  ∃ state',
    predict g fuel p state = Ok state'
    ∧ st_resources state'
      = <["mana" := mana state - num t]> (st_resources state)
    ∧ st_skills state' = st_skills state
    ∧ st_progress state' = st_progress state
    ∧ ∀ i,
        st_stats state' !! i
        = match a_stats (Prediction.action p) !! i, st_stats state !! i with
          | Some w, Some e =>
              Some (if decide (i ∈ statList g)
                    then Nat.iter (Z.to_nat t)
                           (λ x, x + w * a_expMult (Prediction.action p)
                                     * (a_manaCost (Prediction.action p)
                                        / num t)
                                     * getTotalBonusXP g i)
                           e
                    else e)
          | _, _ => st_stats state !! i
          end.
Proof.
  intros Hloop Hnodup Ht. cbn zeta.
  set (t := Prediction.updateTicks g (Prediction.action p) (st_stats state))
    in *.
  destruct (predictLoop_noLoop_state g fuel p t (Z.to_nat t) state Hloop)
    as (state' & Hpredict & Hres & Hskills & Hprogress & Hstats);
    [lia|done|].
  exists state'. split.
  { unfold predict. fold t. rewrite ticks_nonzero by lia. exact Hpredict. }
  split; [|split; [done|split; [done|exact Hstats]]].
  rewrite Hres. destruct (Z.to_nat t) eqn:Hn; [lia|].
  rewrite <- Hn, Z2Nat.id by lia. done.
Qed.

Lemma predict_experience_witness :
  ∃ state',
    predict Demo.host 0 (Demo.prediction "Train Strength" Demo.trainStrength)
      (run_state (initialRun Demo.host Demo.predictions [])) = Ok state'
    ∧ mana state' = num 240
    ∧ st_stats state' !! "strength"
      = Some (Nat.iter 10 (λ x, x + num 10 * 1 * (1 / num 10) * 1) 0).
Proof.
  destruct (predict_experience Demo.host 0
              (Demo.prediction "Train Strength" Demo.trainStrength)
              (run_state (initialRun Demo.host Demo.predictions [])))
    as (state' & Hpredict & Hres & _ & _ & Hstats).
  - reflexivity.
  - apply NoDup_singleton.
  - vm_compute. discriminate.
  - exists state'. split; [exact Hpredict|]. split.
    + unfold mana. rewrite Hres, getR_insert. qc_eq.
    + rewrite Hstats. reflexivity.
Defined.

(** ** An action that takes no tick *)

Lemma updateTicks_zero (g : Host) (a : Action) (s : gmap string Qc) :
  a_manaCost a = 0
  ∨ (∀ i, i ∈ statList g → a_stats a !! i = None ∨ s !! i = None) →
  Prediction.updateTicks g a s = 0%Z.
Proof.
  unfold Prediction.updateTicks. intros [Hcost|Hstats].
  - rewrite Hcost, Qcmult_0_l. by vm_compute.
  - assert (foldl (Prediction.addStatCost g a s) 0 (statList g) = 0) as ->.
    { induction (statList g) as [|i l IH] using rev_ind; [done|].
      rewrite foldl_snoc, IH.
      - unfold Prediction.addStatCost.
        destruct (Hstats i) as [-> | ->]; [apply elem_of_app; right; left|..].
        + ring.
        + destruct (a_stats a !! i); ring.
      - intros j Hj. apply Hstats, elem_of_app. by left. }
    rewrite Qcmult_0_r. by vm_compute.
Qed.

(** X6.  An action whose tick count comes out as 0, because its mana cost is
    0 or because it trains no stat of the host's list, cannot be simulated:
    [ticks()] falls back on [updateTicks()] without arguments, which raises a
    [TypeError].  In [update] the error comes up as soon as such an entry
    starts a repetition, whatever follows in the list. *)
Theorem predict_zero_ticks (g : Host) (fuel : nat) (p : Prediction.t) :
  (∀ state,
     a_manaCost (Prediction.action p) = 0
     ∨ (∀ i, i ∈ statList g →
             a_stats (Prediction.action p) !! i = None
             ∨ st_stats state !! i = None) →
     predict g fuel p state = TypeError)
  ∧ (∀ predictions x rest,
       predictions !! la_name x = Some p →
       (1 ≤ la_loops x)%Z →
       evalCanStart (Prediction.canStart p)
         (st_resources (run_state (initialRun g predictions (x :: rest))))
       = true →
       a_manaCost (Prediction.action p) = 0
       ∨ (∀ i, i ∈ statList g → a_stats (Prediction.action p) !! i = None) →
       update g predictions fuel (x :: rest) = TypeError).
Proof.
  assert (∀ state,
            a_manaCost (Prediction.action p) = 0
            ∨ (∀ i, i ∈ statList g →
                    a_stats (Prediction.action p) !! i = None
                    ∨ st_stats state !! i = None) →
            predict g fuel p state = TypeError) as Hpredict.
  { intros state Hzero. unfold predict.
    by rewrite (updateTicks_zero g _ _ Hzero). }
  split; [done|].
  intros predictions x rest Hp Hloops Hstart Hzero.
  unfold update. cbn [entries]. unfold entry at 1. rewrite Hp.
  destruct (Z.to_nat (la_loops x)) as [|n] eqn:Hn; [lia|].
  rewrite repetitions_S. cbn [startEntry en_state].
  destruct (ensureProgress_resources g p
              (run_state (initialRun g predictions (x :: rest))))
    as (-> & _ & _).
  rewrite Hstart. unfold repetition. cbn [startEntry en_state].
  rewrite Hpredict; [done|].
  destruct Hzero as [Hcost|Hstats]; [by left|right].
  intros i Hi. left. by apply Hstats.
Qed.

Lemma predict_zero_ticks_witness :
  predict Demo.host 0 idle
    (run_state (initialRun Demo.host {["Rest" := idle]} [])) = TypeError
  ∧ update Demo.host {["Rest" := idle]} 0
      [ {| la_name := "Rest"; la_loops := 1 |} ] = TypeError.
Proof.
  destruct (predict_zero_ticks Demo.host 0 idle) as [Hpredict Hupdate].
  split.
  - apply Hpredict. right. intros i Hi. by left.
  - apply Hupdate.
    + reflexivity.
    + reflexivity.
    + reflexivity.
    + right. intros i Hi. reflexivity.
Defined.

(** ** A tick that makes no progress *)

Lemma progression_plus_0 (pr : Progression) :
  {| pr_progress := pr_progress pr + 0; pr_completed := pr_completed pr;
     pr_total := pr_total pr |} = pr.
Proof. destruct pr. simpl. f_equal. ring. Qed.

(** The first [for] only looks at the costs from its segment on. *)
Lemma seek_ext_from (f h : Z → Qc) (fuel : nat) (segment : Z) (progress : Qc) :
  (∀ s, (segment ≤ s)%Z → f s = h s) →
  seek fuel f segment progress = seek fuel h segment progress.
Proof.
  revert segment progress.
  induction fuel as [|fuel IH]; intros segment progress Hext; simpl;
    rewrite (Hext segment) by lia; [done|].
  case_bool_decide; [|done]. apply IH. intros s Hs. apply Hext. lia.
Qed.

(** When the tick function of a loop gives 0, [predict] runs one tick and
    stops, provided the segments from 0 on cost at least some [c > 0]. *)
Lemma predict_no_progress (g : Host) (p : Prediction.t) (l : Loop)
    (state : State) (progression : Progression) (c : Qc) :
  Prediction.loop p = Some l →
  st_progress state !! Prediction.name p = Some progression →
  (∀ s k r segment,
     l_tick l progression (Prediction.action p) s k r segment = 0) →
  0 < c →
  (∀ segment, (0 ≤ segment)%Z →
              c ≤ l_cost l progression (Prediction.action p) segment) →
  (1 ≤ Prediction.updateTicks g (Prediction.action p) (st_stats state))%Z →
  ∃ n s',
    Prediction.exp g
      (Prediction.updateTicks g (Prediction.action p) (st_stats state))
      (Prediction.action p) (st_stats state) = Ok s'
    ∧ ∀ fuel, (n ≤ fuel)%nat →
        predict g fuel p state
        = Ok {| st_resources :=
                  <["mana" := mana state - 1]> (st_resources state);
                st_stats := s';
                st_skills := st_skills state;
                st_progress := st_progress state |}.
Proof.
  intros Hloop Hprogression Htick Hc Hcost Ht.
  set (t := Prediction.updateTicks g (Prediction.action p) (st_stats state))
    in *.
  destruct (exp_returns g t (Prediction.action p) (st_stats state))
    as [s' Hs']; [lia|].
  destruct (archimedes (pr_progress progression) c Hc) as [n Hn].
  destruct (seek_returns
              (λ s, l_cost l progression (Prediction.action p) (s `max` 0)) c
              n 0%Z (pr_progress progression) Hc) as [[segment progress] Hseek];
    [intros s; apply Hcost; lia|done|].
  rewrite (seek_ext_from _ (l_cost l progression (Prediction.action p)))
    in Hseek by (intros s Hs; f_equal; lia).
  exists n, s'. split; [done|]. intros fuel Hfuel.
  apply (seek_fuel_mono _ _ fuel) in Hseek; [|done].
  pose proof (seek_remainder _ _ _ _ _ _ Hseek) as [Hlt _].
  unfold predict. fold t. rewrite ticks_nonzero, bind_ret by lia.
  destruct (Z.to_nat t) as [|m] eqn:Hm; [lia|].
  cbn [predictLoop]. unfold tick. cbn [st_stats set_mana set_resources].
  rewrite Hs', bind_ret, Hloop.
  unfold tickLoop, set_stats, set_mana, set_resources.
  cbn [st_progress st_stats st_skills st_resources].
  rewrite Hprogression, Hseek, bind_ret.
  rewrite ticks_nonzero, bind_ret by lia.
  rewrite Htick.
  replace (0 * (a_manaCost (Prediction.action p) / num t)) with 0 by ring.
  rewrite walk_stop.
  2:{ unfold walkCond, walkStart. cbn [w_progression w_segment w_progress].
      rewrite progression_plus_0. rewrite bool_decide_eq_false_2; [done|].
      apply Qclt_not_le. by replace (progress + 0) with progress by ring. }
  rewrite !bind_ret. cbn [additionalProgress after].
  replace (truthy 0) with false by done. cbn [andb].
  unfold tickState, walkStart.
  cbn [w_resources w_skills w_progression st_resources st_stats st_skills
       st_progress].
  rewrite progression_plus_0. by rewrite (insert_id _ _ _ Hprogression).
Qed.

(** X7.  When the tick function of a loop gives 0 (the rule table does so for
    a dungeon past its last floor and for a ritual already performed),
    [predict] runs one tick and stops: the repetition costs 1 mana and one
    tick's share of experience; the progress, the skills and the other
    resources are untouched and no segment or loop effect runs. *)
Theorem predict_stalled (g : Host) (p : Prediction.t) (l : Loop)
    (state : State) (progression : Progression) :
  Prediction.loop p = Some l →
  st_progress state !! Prediction.name p = Some progression →
  (∀ s k r segment,
     l_tick l progression (Prediction.action p) s k r segment = 0) →
  boundedCosts l (Prediction.action p) →
  (1 ≤ Prediction.updateTicks g (Prediction.action p) (st_stats state))%Z →
  ∃ n s',
    Prediction.exp g
      (Prediction.updateTicks g (Prediction.action p) (st_stats state))
      (Prediction.action p) (st_stats state) = Ok s'
    ∧ ∀ fuel, (n ≤ fuel)%nat →
        predict g fuel p state
        = Ok {| st_resources :=
                  <["mana" := mana state - 1]> (st_resources state);
                st_stats := s';
                st_skills := st_skills state;
                st_progress := st_progress state |}.
Proof.
  intros Hloop Hprogression Htick (c & Hc & Hcost) Ht.
  apply (predict_no_progress g p l state progression c); try done;
    intros segment _; apply Hcost.
Qed.

Lemma predict_stalled_witness :
  ∃ n s',
    Prediction.exp Demo.host 1 (Demo.actions "Stalled")
      (st_stats (Demo.firstState "Stalled" Demo.stalled [])) = Ok s'
    ∧ ∀ fuel, (n ≤ fuel)%nat →
        predict Demo.host fuel
          (Demo.prediction "Stalled" (Demo.loopRule [] Demo.stalled))
          (Demo.firstState "Stalled" Demo.stalled [])
        = Ok {| st_resources :=
                  <["mana" :=
                      mana (Demo.firstState "Stalled" Demo.stalled []) - 1]>
                    (st_resources (Demo.firstState "Stalled" Demo.stalled []));
                st_stats := s';
                st_skills :=
                  st_skills (Demo.firstState "Stalled" Demo.stalled []);
                st_progress :=
                  st_progress (Demo.firstState "Stalled" Demo.stalled []) |}.
Proof.
  apply (predict_stalled Demo.host
           (Demo.prediction "Stalled" (Demo.loopRule [] Demo.stalled))
           Demo.stalled (Demo.firstState "Stalled" Demo.stalled [])
           {| pr_progress := 0; pr_completed := 0; pr_total := 7 |}).
  - reflexivity.
  - reflexivity.
  - intros s k r segment. apply num_0.
  - exists (num 100). split; [qc_decide|]. intros pr segment. qc_decide.
  - vm_compute. discriminate.
Defined.

(** ** The total of a run *)

Lemma initAffected_mana (r : gmap string Qc) (x : string) :
  getR r "mana" = num 250 → getR (initAffected r x) "mana" = num 250.
Proof.
  intros Hmana. unfold initAffected.
  destruct (truthy (getR r x)) eqn:Htruthy; [done|].
  destruct (decide (x = "mana")) as [->|Hx].
  - rewrite Hmana in Htruthy. exfalso. revert Htruthy. by vm_compute.
  - by rewrite getR_insert_ne.
Qed.

Lemma initialRun_mana (g : Host) (predictions : gmap string Prediction.t)
    (actions : list ListedAction) :
  mana (run_state (initialRun g predictions actions)) = num 250.
Proof.
  unfold initialRun, mana. cbn [run_state st_resources].
  generalize (affectedOf predictions actions) as l. intros l.
  induction l as [|x l IH] using rev_ind; [done|].
  rewrite foldl_snoc. by apply initAffected_mana.
Qed.

Lemma runEffects_mana (p : Prediction.t) (state : State) :
  keepsMana (Prediction.effect p) →
  (∀ l, Prediction.loop p = Some l → keepsMana (e_end (l_effect l))) →
  mana (runEffects p state) = mana state.
Proof.
  intros Heffect Hend. unfold runEffects, mana. cbn [st_resources].
  specialize (Heffect (st_resources state) (st_skills state)).
  destruct (run_effect (Prediction.effect p)
              (st_resources state, st_skills state)) as [r k].
  destruct (Prediction.loop p) as [l|]; [|done].
  by rewrite (Hend l eq_refl r k).
Qed.

Lemma repetition_conserves (g : Host) (fuel : nat) (name : string)
    (p : Prediction.t) (e e' : Entry) :
  name ≠ "Adventure Guild" →
  keepsMana (Prediction.effect p) →
  (∀ l, Prediction.loop p = Some l → keepsMana (e_end (l_effect l))) →
  repetition g fuel name p e = Ok e' →
  en_total e' + mana (en_state e') = en_total e + mana (en_state e).
Proof.
  intros Hname Heffect Hend Hrep.
  apply repetition_inv in Hrep as (state & _ & ->). cbn [en_total en_state].
  rewrite runEffects_mana by done. rewrite account_mana.
  unfold account, guildBefore. rewrite bool_decide_eq_false_2 by done.
  cbn [en_total]. ring.
Qed.

Lemma repetitions_conserves (g : Host) (fuel : nat) (name : string)
    (p : Prediction.t) (n : nat) (e e' : Entry) :
  name ≠ "Adventure Guild" →
  keepsMana (Prediction.effect p) →
  (∀ l, Prediction.loop p = Some l → keepsMana (e_end (l_effect l))) →
  repetitions g fuel name p n e = Ok e' →
  en_total e' + mana (en_state e') = en_total e + mana (en_state e).
Proof.
  intros Hname Heffect Hend. revert e.
  induction n as [|n IH]; intros e Hreps.
  - by injection Hreps as <-.
  - rewrite repetitions_S in Hreps.
    destruct (evalCanStart _ _); [|by injection Hreps as <-].
    inv_bind Hreps. rewrite (IH _ Hreps).
    by apply (repetition_conserves g fuel name p).
Qed.

Lemma entries_conserves (g : Host) (predictions : gmap string Prediction.t)
    (fuel : nat) (affected : list string) (actions : list ListedAction)
    (run run' : Run) :
  (∀ x, x ∈ actions → la_name x ≠ "Adventure Guild") →
  (∀ x p, x ∈ actions → predictions !! la_name x = Some p →
          keepsMana (Prediction.effect p)
          ∧ ∀ l, Prediction.loop p = Some l → keepsMana (e_end (l_effect l))) →
  entries g predictions fuel affected run actions = Ok run' →
  run_total run' + mana (run_state run')
  = run_total run + mana (run_state run).
Proof.
  revert run. induction actions as [|x actions IH]; intros run Hname Hkeeps Hrun.
  - by injection Hrun as <-.
  - cbn [entries] in Hrun. inv_bind Hrun.
    rewrite (IH a); [|intros y Hy; apply Hname; by right
                     |intros y p Hy; apply Hkeeps; by right|done].
    unfold entry in Ha.
    destruct (predictions !! la_name x) as [p|] eqn:Hp;
      [|destruct (inherited _); by injection Ha as <-].
    inv_bind Ha. injection Ha as <-. cbn [finishEntry run_total run_state].
    destruct (Hkeeps x p) as [Heffect Hend]; [left|done|].
    rewrite (repetitions_conserves _ _ _ _ _ _ _ (Hname x ltac:(left))
               Heffect Hend Ha0).
    cbn [startEntry en_total en_state]. unfold mana.
    by destruct (ensureProgress_resources g p (run_state run)) as (-> & _).
Qed.

(** X8.  When no entry of the list is ['Adventure Guild'] and the effects
    that run at the end of a repetition (the action's own effect and the
    [end] effect of its loop) leave the mana alone, the total of a run is the
    mana it spent: the 250 of the start minus the mana left, whatever the
    segment and loop effects did to the mana on the way. *)
Theorem update_total (g : Host) (predictions : gmap string Prediction.t)
    (fuel : nat) (actions : list ListedAction) (run : Run) :
  (∀ x, x ∈ actions → la_name x ≠ "Adventure Guild") →
  (∀ x p, x ∈ actions → predictions !! la_name x = Some p →
          keepsMana (Prediction.effect p)
          ∧ ∀ l, Prediction.loop p = Some l → keepsMana (e_end (l_effect l))) →
  update g predictions fuel actions = Ok run →
  run_total run = num 250 - mana (run_state run).
Proof.
  intros Hname Hkeeps Hupdate. unfold update in Hupdate.
  inv_bind Hupdate. injection Hupdate as <-. cbn [run_total run_state].
  pose proof (entries_conserves _ _ _ _ _ _ _ Hname Hkeeps Ha) as Htotal.
  rewrite initialRun_mana in Htotal. cbn [initialRun run_total] in Htotal.
  replace (run_total a)
    with (run_total a + mana (run_state a) - mana (run_state a)) by ring.
  rewrite Htotal. ring.
Qed.

Lemma update_total_witness :
  ∃ run,
    update Demo.host Demo.predictions 2
      [ {| la_name := "Train Strength"; la_loops := 3 |};
        {| la_name := "Two Segments"; la_loops := 2 |} ] = Ok run
    ∧ run_total run = num 250 - mana (run_state run).
Proof.
  destruct (result_eval
              (update Demo.host Demo.predictions 2
                 [ {| la_name := "Train Strength"; la_loops := 3 |};
                   {| la_name := "Two Segments"; la_loops := 2 |} ])
              (λ _, True)) as (run & Hrun & _).
  { vm_compute. exact I. }
  exists run. split; [exact Hrun|].
  apply (update_total Demo.host Demo.predictions 2
           [ {| la_name := "Train Strength"; la_loops := 3 |};
             {| la_name := "Two Segments"; la_loops := 2 |} ]).
  - intros x Hx.
    apply elem_of_cons in Hx as [->|Hx]; [simpl; discriminate|].
    apply list_elem_of_singleton in Hx as ->. simpl. discriminate.
  - intros x p Hx Hp.
    apply elem_of_cons in Hx as [->|Hx].
    + assert (p = Demo.prediction "Train Strength" Demo.trainStrength) as ->.
      { apply (inj Some). rewrite <- Hp. reflexivity. }
      split; [intros r k; reflexivity|]. intros l. discriminate.
    + apply list_elem_of_singleton in Hx as ->.
      assert (p = Demo.prediction "Two Segments"
                    (Demo.loopRule ["loops"; "segs"] Demo.twoSegments)) as ->.
      { apply (inj Some). rewrite <- Hp. reflexivity. }
      split; [intros r k; reflexivity|].
      intros l [= <-] r k. reflexivity.
  - exact Hrun.
Defined.

(** ** The time of a run *)

Lemma timeSpent_plain (g : Host) (state : State) (spent : Qc) :
  getBuffLevel g "Ritual" ≤ 0 →
  pow g (1 + getSkillLevel g "Chronomancy" / num 60) (Q2Qc (1 # 4)) = 1 →
  timeSpent g state spent = spent.
Proof.
  intros Hritual Hpow. unfold timeSpent. rewrite Hpow.
  set (ritual := getBuffLevel g "Ritual") in *.
  assert (bool_decide (0 < ritual) = false) as ->.
  { apply bool_decide_eq_false. by apply Qcle_not_lt. }
  assert (bool_decide (num 20 < ritual) = false) as ->.
  { apply bool_decide_eq_false. clearbody ritual. clear -Hritual.
    intros Hlt. qc_linear. }
  assert (bool_decide (num 40 < ritual) = false) as ->.
  { apply bool_decide_eq_false. clearbody ritual. clear -Hritual.
    intros Hlt. qc_linear. }
  rewrite !andb_false_r. field. discriminate.
Qed.

Lemma repetitions_time (g : Host) (fuel : nat) (name : string)
    (p : Prediction.t) (n : nat) (e e' : Entry) :
  name ≠ "Adventure Guild" →
  getBuffLevel g "Ritual" ≤ 0 →
  pow g (1 + getSkillLevel g "Chronomancy" / num 60) (Q2Qc (1 # 4)) = 1 →
  repetitions g fuel name p n e = Ok e' →
  en_totalTicks e' - en_total e' = en_totalTicks e - en_total e.
Proof.
  intros Hname Hritual Hpow. revert e.
  induction n as [|n IH]; intros e Hreps.
  - by injection Hreps as <-.
  - rewrite repetitions_S in Hreps.
    destruct (evalCanStart _ _); [|by injection Hreps as <-].
    inv_bind Hreps. rewrite (IH _ Hreps).
    apply repetition_inv in Ha as (state & _ & ->).
    cbn [en_total en_totalTicks]. unfold account, guildBefore, guildAfter.
    rewrite !bool_decide_eq_false_2 by done.
    cbn [en_total en_totalTicks]. rewrite timeSpent_plain by done. ring.
Qed.

(** X9.  Without the Ritual buff and with a Chronomancy factor of 1, the
    time of a run that has no ['Adventure Guild'] entry is its total mana at
    50 mana a second. *)
Theorem update_time (g : Host) (predictions : gmap string Prediction.t)
    (fuel : nat) (actions : list ListedAction) (run : Run) :
  (∀ x, x ∈ actions → la_name x ≠ "Adventure Guild") →
  getBuffLevel g "Ritual" ≤ 0 →
  pow g (1 + getSkillLevel g "Chronomancy" / num 60) (Q2Qc (1 # 4)) = 1 →
  update g predictions fuel actions = Ok run →
  run_totalTicks run = run_total run / num 50.
Proof.
  intros Hname Hritual Hpow Hupdate. unfold update in Hupdate.
  inv_bind Hupdate. injection Hupdate as <-.
  cbn [run_total run_totalTicks]. f_equal.
  assert (∀ run0 run',
            run_totalTicks run0 = run_total run0 →
            entries g predictions fuel (affectedOf predictions actions) run0
              actions = Ok run' →
            run_totalTicks run' = run_total run') as Hentries.
  { clear Ha. generalize (affectedOf predictions actions) as affected.
    intros affected. induction actions as [|x actions IH];
      intros run0 run' Hrun0 Hrun'.
    - by injection Hrun' as <-.
    - cbn [entries] in Hrun'. inv_bind Hrun'.
      assert (∀ y, y ∈ actions → la_name y ≠ "Adventure Guild") as Hname'.
      { intros y Hy. apply Hname. by right. }
      apply (IH Hname' a0 run'); [|done].
      unfold entry in Ha0.
      destruct (predictions !! la_name x) as [p|];
        [|destruct (inherited _); by injection Ha0 as <-].
      inv_bind Ha0. injection Ha0 as <-.
      cbn [finishEntry run_total run_totalTicks].
      apply repetitions_time in Ha1; [|apply Hname; left|done|done].
      cbn [startEntry en_total en_totalTicks] in Ha1. rewrite Hrun0 in Ha1.
      set (x1 := en_totalTicks a1) in *. set (x2 := en_total a1) in *.
      set (x3 := run_total run0) in *. clearbody x1 x2 x3.
      clear -Ha1. qc_lra. }
  by apply (Hentries (initialRun g predictions actions) a).
Qed.

Lemma update_time_witness :
  ∃ run,
    update Demo.host Demo.predictions 2
      [ {| la_name := "Train Strength"; la_loops := 3 |};
        {| la_name := "Two Segments"; la_loops := 2 |} ] = Ok run
    ∧ run_totalTicks run = run_total run / num 50.
Proof.
  destruct (result_eval
              (update Demo.host Demo.predictions 2
                 [ {| la_name := "Train Strength"; la_loops := 3 |};
                   {| la_name := "Two Segments"; la_loops := 2 |} ])
              (λ _, True)) as (run & Hrun & _).
  { vm_compute. exact I. }
  exists run. split; [exact Hrun|].
  apply (update_time Demo.host Demo.predictions 2
           [ {| la_name := "Train Strength"; la_loops := 3 |};
             {| la_name := "Two Segments"; la_loops := 2 |} ]).
  - intros x Hx.
    apply elem_of_cons in Hx as [->|Hx]; [simpl; discriminate|].
    apply list_elem_of_singleton in Hx as ->. simpl. discriminate.
  - by vm_compute.
  - reflexivity.
  - exact Hrun.
Defined.

(** ** The keys of the stats and of the snapshots *)

Lemma initial_stats_dom (l : list string) (stats : gmap string Qc) :
  dom (foldl (λ stats name, <[name := 0]> stats) stats l)
  = list_to_set l ∪ dom stats.
Proof.
  revert stats. induction l as [|i l IH]; intros stats; cbn [foldl].
  - simpl. by rewrite union_empty_l_L.
  - rewrite IH, dom_insert_L. simpl.
    rewrite (comm_L (∪) {[i]} (list_to_set l)). by rewrite (assoc_L (∪)).
Qed.

Lemma tick_stats_dom (g : Host) (fuel : nat) (p : Prediction.t) (_ticks : Z)
    (state state' : State) (continue : bool) :
  tick g fuel p _ticks state = Ok (continue, state') →
  dom (st_stats state') = dom (st_stats state).
Proof.
  intros Htick. apply tick_inv in Htick as (s & Hs & Hstate).
  apply exp_dom in Hs. rewrite <- Hs.
  destruct (Prediction.loop p).
  - by destruct Hstate as (lt & _ & _ & ->).
  - by destruct Hstate as [_ ->].
Qed.

Lemma predictLoop_stats_dom (g : Host) (fuel : nat) (p : Prediction.t)
    (_ticks : Z) (n : nat) (state state' : State) :
  predictLoop g fuel p _ticks n state = Ok state' →
  dom (st_stats state') = dom (st_stats state).
Proof.
  revert state. induction n as [|n IH]; intros state Hpredict.
  - by injection Hpredict as <-.
  - cbn [predictLoop] in Hpredict. inv_bind Hpredict.
    destruct a as [continue state1]. apply tick_stats_dom in Ha.
    cbn [set_mana set_resources st_stats] in Ha. rewrite <- Ha.
    destruct continue; [by apply IH|by injection Hpredict as <-].
Qed.

Lemma repetition_stats_dom (g : Host) (fuel : nat) (name : string)
    (p : Prediction.t) (e e' : Entry) :
  repetition g fuel name p e = Ok e' →
  dom (st_stats (en_state e')) = dom (st_stats (en_state e)).
Proof.
  intros Hrep. apply repetition_inv in Hrep as (state & Hpredict & ->).
  unfold predict in Hpredict. inv_bind Hpredict.
  apply predictLoop_stats_dom in Hpredict. rewrite <- Hpredict.
  unfold account, guildAfter, guildBefore. cbn [en_state runEffects st_stats].
  by repeat case_bool_decide.
Qed.

Lemma repetitions_stats_dom (g : Host) (fuel : nat) (name : string)
    (p : Prediction.t) (n : nat) (e e' : Entry) :
  repetitions g fuel name p n e = Ok e' →
  dom (st_stats (en_state e')) = dom (st_stats (en_state e)).
Proof.
  revert e. induction n as [|n IH]; intros e Hreps.
  - by injection Hreps as <-.
  - rewrite repetitions_S in Hreps.
    destruct (evalCanStart _ _); [|by injection Hreps as <-].
    inv_bind Hreps. rewrite (IH _ Hreps).
    by apply repetition_stats_dom in Ha.
Qed.

Lemma snap_dom (this : Snapshot.t) (attrs : gmap string Qc) :
  Snapshot._isInitialized this = true →
  dom (Snapshot.attributes (Snapshot.snap this attrs))
  = dom (Snapshot.attributes this).
Proof.
  intros Hinit. unfold Snapshot.snap. rewrite Hinit. cbn [Snapshot.attributes].
  apply set_eq. intros i. rewrite !elem_of_dom, map_lookup_imap.
  destruct (Snapshot.attributes this !! i); simpl; split; intros [? ?]; eauto.
Qed.

Lemma constructor_dom (attrs : gmap string Qc) :
  dom (Snapshot.attributes (Snapshot.constructor (Some attrs))) = dom attrs.
Proof.
  unfold Snapshot.constructor, Snapshot.init. cbn [Snapshot.attributes].
  rewrite dom_union_L, dom_fmap_L, dom_empty_L. apply union_empty_r_L.
Qed.

Lemma entries_keys (g : Host) (predictions : gmap string Prediction.t)
    (fuel : nat) (affected : list string) (actions : list ListedAction)
    (S K : gset string) (run run' : Run) :
  dom (st_stats (run_state run)) = S →
  Snapshot._isInitialized (run_stats run) = true →
  dom (Snapshot.attributes (run_stats run)) = S →
  Snapshot._isInitialized (run_skills run) = true →
  dom (Snapshot.attributes (run_skills run)) = K →
  (∀ report, report ∈ run_reports run →
             dom (rp_stats report) = S ∧ dom (rp_skills report) = K) →
  entries g predictions fuel affected run actions = Ok run' →
  dom (st_stats (run_state run')) = S
  ∧ ∀ report, report ∈ run_reports run' →
              dom (rp_stats report) = S ∧ dom (rp_skills report) = K.
Proof.
  revert run.
  induction actions as [|x actions IH];
    intros run Hstats Hinit1 Hdom1 Hinit2 Hdom2 Hreports Hrun.
  - by injection Hrun as <-.
  - cbn [entries] in Hrun. inv_bind Hrun.
    assert (∀ e, dom (st_stats (en_state e)) = S →
                 a = finishEntry affected run (la_name x) e →
                 dom (st_stats (run_state run')) = S
                 ∧ ∀ report, report ∈ run_reports run' →
                     dom (rp_stats report) = S ∧ dom (rp_skills report) = K)
      as Hfinish.
    { intros e He ->.
      apply IH in Hrun;
        cbn [finishEntry run_state run_stats run_skills run_reports];
        try done; try apply snap_initialized; try by rewrite snap_dom.
      intros report [Hin|Hin]%elem_of_app; [by apply Hreports|].
      apply list_elem_of_singleton in Hin as ->.
      split.
      * change (dom (Snapshot.attributes
                       (Snapshot.snap (run_stats run) (st_stats (en_state e))))
                = S).
        by rewrite snap_dom.
      * change (dom (Snapshot.attributes
                       (Snapshot.snap (run_skills run)
                          (st_skills (en_state e)))) = K).
        by rewrite snap_dom. }
    unfold entry in Ha.
    destruct (predictions !! la_name x) as [p|] eqn:Hp.
    + inv_bind Ha. injection Ha as <-.
      apply repetitions_stats_dom in Ha0. cbn [startEntry en_state] in Ha0.
      destruct (ensureProgress_resources g p (run_state run))
        as (_ & Hensure & _).
      rewrite Hensure, Hstats in Ha0. by eapply Hfinish.
    + destruct (inherited _).
      * injection Ha as Ha.
        by apply (Hfinish (startEntry run (run_state run))).
      * injection Ha as <-. by apply IH in Hrun.
Qed.

(** X10.  A run neither adds nor removes a stat: the stats of the final state
    are those of the host's list, and in every report the stats table has
    exactly the stats of the host's list and the skills table exactly the
    skills of the host, whatever skills the effects of the rules added to
    the state. *)
Theorem update_keys (g : Host) (predictions : gmap string Prediction.t)
    (fuel : nat) (actions : list ListedAction) (run : Run) :
  update g predictions fuel actions = Ok run →
  dom (st_stats (run_state run)) = list_to_set (statList g)
  ∧ ∀ report, report ∈ run_reports run →
              dom (rp_stats report) = list_to_set (statList g)
              ∧ dom (rp_skills report) = dom (skills g).
Proof.
  unfold update. intros Hupdate. inv_bind Hupdate. injection Hupdate as <-.
  cbn [run_state run_reports].
  assert (dom (foldl (λ stats name, <[name := 0]> stats) (∅ : gmap string Qc)
                 (statList g)) = list_to_set (statList g)) as Hinitial.
  { rewrite initial_stats_dom, dom_empty_L. apply union_empty_r_L. }
  apply (entries_keys _ _ _ _ _ (list_to_set (statList g)) (dom (skills g)))
    in Ha; try done.
  - unfold initialRun. cbn [run_stats]. by rewrite constructor_dom.
  - unfold initialRun. cbn [run_skills]. by rewrite constructor_dom.
  - intros report Hin. by apply elem_of_nil in Hin.
Qed.

Lemma update_keys_witness :
  ∃ run,
    update Demo.host Demo.predictions 2
      [ {| la_name := "Train Strength"; la_loops := 3 |};
        {| la_name := "Two Segments"; la_loops := 2 |} ] = Ok run
    ∧ dom (st_stats (run_state run)) = {["strength"]}
    ∧ ∀ report, report ∈ run_reports run →
                dom (rp_stats report) = {["strength"]}
                ∧ dom (rp_skills report) = ∅.
Proof.
  destruct (result_eval
              (update Demo.host Demo.predictions 2
                 [ {| la_name := "Train Strength"; la_loops := 3 |};
                   {| la_name := "Two Segments"; la_loops := 2 |} ])
              (λ _, True)) as (run & Hrun & _).
  { vm_compute. exact I. }
  exists run. split; [exact Hrun|].
  destruct (update_keys Demo.host Demo.predictions 2 _ run Hrun)
    as [Hstats Hreports].
  split.
  - rewrite Hstats. simpl. apply union_empty_r_L.
  - intros report Hin. destruct (Hreports report Hin) as [-> ->].
    split; [simpl; apply union_empty_r_L|apply dom_empty_L].
Defined.

(** X11.  The keys a snapshot tracks are fixed when it is initialised: those
    it was constructed with or, constructed without attributes, those of the
    first observation.  Later observations add no key and remove none. *)
Theorem snapshot_keys (attrs0 : gmap string Qc)
    (observations : list (gmap string Qc)) :
  dom (Snapshot.get (observe (Snapshot.constructor (Some attrs0)) observations))
  = dom attrs0
  ∧ dom (Snapshot.get
           (observe (Snapshot.constructor None) (attrs0 :: observations)))
    = dom attrs0.
Proof.
  assert (∀ this,
            Snapshot._isInitialized this = true →
            dom (Snapshot.attributes (observe this observations))
            = dom (Snapshot.attributes this)) as Hobserve.
  { intros this Hinit.
    induction observations as [|attrs l IH] using rev_ind; [done|].
    rewrite observe_snoc, snap_dom; [done|by apply observe_initialized]. }
  unfold Snapshot.get. split.
  - rewrite Hobserve by done. apply constructor_dom.
  - unfold observe. cbn [foldl]. fold (observe (Snapshot.snap
      (Snapshot.constructor None) attrs0) observations).
    rewrite Hobserve by apply snap_initialized.
    unfold Snapshot.snap. cbn [Snapshot.constructor Snapshot._isInitialized].
    change (Snapshot._isInitialized (Snapshot.init _ attrs0)) with true.
    cbn [Snapshot.attributes].
    apply set_eq. intros i. rewrite !elem_of_dom, map_lookup_imap.
    unfold Snapshot.init. cbn [Snapshot.attributes].
    rewrite lookup_union_l by apply lookup_empty. rewrite lookup_fmap.
    destruct (attrs0 !! i); simpl; split; intros [? ?]; eauto; done.
Qed.

(** ** The time of a repetition *)

(** X12.  The time of a repetition is the mana spent, divided by the
    Chronomancy factor and by a Ritual factor between 1 and 3: the factor is
    1 unless the Ritual buff is positive and the town is 0, 1 or 2. *)
Theorem timeSpent_bounds (g : Host) (state : State) (spent : Qc) :
  ∃ d,
    timeSpent g state spent
    = spent / pow g (1 + getSkillLevel g "Chronomancy" / num 60) (Q2Qc (1 # 4))
      / d
    ∧ 1 ≤ d ∧ d ≤ num 3
    ∧ (d ≠ 1 →
       0 < getBuffLevel g "Ritual"
       ∧ (getR (st_resources state) "town" = 0
          ∨ getR (st_resources state) "town" = 1
          ∨ getR (st_resources state) "town" = 2)).
Proof.
  unfold timeSpent.
  set (temp := spent / pow g _ _). set (ritual := getBuffLevel g "Ritual").
  set (town := getR (st_resources state) "town").
  assert (∀ x c : Qc, 0 < x → num 10 ≤ c →
            1 ≤ 1 + Qcmin x (num 20) / c
            ∧ 1 + Qcmin x (num 20) / c ≤ num 3) as Hfactor.
  { intros x c Hx Hc.
    assert (0 < c) as Hc0.
    { eapply Qclt_le_trans; [|exact Hc]. qc_decide. }
    assert (c ≠ 0) as Hcne by (intros ->; by apply (Qclt_not_eq 0 0)).
    set (m := Qcmin x (num 20)).
    assert (0 ≤ m ∧ m ≤ num 20) as [Hm0 Hm20].
    { unfold m, Qcmin. case_bool_decide as Hle.
      - split; [by apply Qclt_le_weak|done].
      - split; qc_decide. }
    assert (m / c * c = m) as Hdiv by (field; done).
    set (q := m / c) in *. clearbody q m.
    assert (0 ≤ q) as Hq0.
    { destruct (Qclt_le_dec q 0) as [Hneg|]; [|done]. exfalso.
      assert (q * c < 0 * c) as Hlt by (by apply Qcmult_lt_compat_r).
      rewrite Hdiv, Qcmult_0_l in Hlt. by apply Qclt_not_le in Hlt. }
    assert (q ≤ 2) as Hq2.
    { destruct (Qclt_le_dec 2 q) as [Hbig|]; [|done]. exfalso.
      assert (2 * c < q * c) as Hlt by (by apply Qcmult_lt_compat_r).
      rewrite Hdiv in Hlt.
      assert (num 20 ≤ 2 * c) as Hle.
      { clear -Hc. qc_linear. }
      apply Qclt_not_le in Hlt. apply Hlt.
      by eapply Qcle_trans. }
    split.
    - replace 1 with (1 + 0) at 1 by ring. by apply Qcplus_le_compat.
    - replace (num 3) with (1 + 2) by qc_eq. by apply Qcplus_le_compat. }
  destruct (bool_decide (town = 0) && bool_decide (0 < ritual)) eqn:H0.
  { apply andb_prop in H0 as [Ht%bool_decide_eq_true Hr%bool_decide_eq_true].
    eexists. split; [reflexivity|].
    destruct (Hfactor ritual (num 10) Hr) as [? ?]; [done|]. auto. }
  destruct (bool_decide (town = 1) && bool_decide (num 20 < ritual)) eqn:H1.
  { apply andb_prop in H1 as [Ht%bool_decide_eq_true Hr%bool_decide_eq_true].
    eexists. split; [reflexivity|].
    assert (0 < ritual - num 20) as Hr'.
    { clear -Hr. clearbody ritual. qc_linear. }
    destruct (Hfactor (ritual - num 20) (num 20) Hr') as [? ?];
      [qc_decide|].
    split; [done|]. split; [done|]. intros _. split; [|auto].
    clear -Hr. clearbody ritual. qc_linear. }
  destruct (bool_decide (town = 2) && bool_decide (num 40 < ritual)) eqn:H2.
  { apply andb_prop in H2 as [Ht%bool_decide_eq_true Hr%bool_decide_eq_true].
    eexists. split; [reflexivity|].
    assert (0 < ritual - num 40) as Hr'.
    { clear -Hr. clearbody ritual. qc_linear. }
    destruct (Hfactor (ritual - num 40) (num 40) Hr') as [? ?];
      [qc_decide|].
    split; [done|]. split; [done|]. intros _. split; [|auto].
    clear -Hr. clearbody ritual. qc_linear. }
  exists 1. split; [|split; [done|split; [qc_decide|done]]].
  field. discriminate.
Qed.

(** ** The effect of an action without a loop *)

Lemma sameButMana_refl (r : gmap string Qc) : sameButMana r r.
Proof. by left. Qed.

Lemma sameButMana_insert (r r' : gmap string Qc) (m : Qc) :
  sameButMana r r' → sameButMana r (<["mana" := m]> r').
Proof.
  intros [->|[m' ->]]; right; exists m; [done|]. by rewrite insert_insert_eq.
Qed.

Lemma sameButMana_trans (r r' r'' : gmap string Qc) :
  sameButMana r r' → sameButMana r' r'' → sameButMana r r''.
Proof.
  intros H1 [->|[m ->]]; [done|]. by apply sameButMana_insert.
Qed.

(** The ticks of an action without a loop touch no resource but the mana,
    of which each takes 1, and no skill. *)
Lemma predictLoop_noLoop_exact (g : Host) (fuel : nat) (p : Prediction.t)
    (_ticks : Z) (n : nat) (state state' : State) :
  Prediction.loop p = None →
  predictLoop g fuel p _ticks n state = Ok state' →
  st_resources state'
  = match n with
    | O => st_resources state
    | S _ => <["mana" := mana state - num (Z.of_nat n)]> (st_resources state)
    end
  ∧ st_skills state' = st_skills state
  ∧ st_progress state' = st_progress state.
Proof.
  intros Hloop. revert state. induction n as [|n IH]; intros state Hpredict.
  - by injection Hpredict as <-.
  - cbn [predictLoop] in Hpredict. inv_bind Hpredict.
    destruct a as [continue state1].
    apply tick_inv in Ha as (s & _ & Hstate). rewrite Hloop in Hstate.
    destruct Hstate as [-> ->].
    apply IH in Hpredict as (-> & -> & ->). split; [|done].
    change (mana (set_stats (set_mana state (mana state - 1)) s))
      with (mana (set_mana state (mana state - 1))).
    rewrite mana_set_mana. cbn [set_stats set_mana set_resources st_resources].
    rewrite num_nat_S. destruct n as [|n].
    + f_equal; change (num (Z.of_nat 0)) with (num 0); rewrite num_0; ring.
    + rewrite insert_insert_eq. f_equal; ring.
Qed.

Lemma predict_noLoop_resources (g : Host) (fuel : nat) (p : Prediction.t)
    (state state' : State) :
  Prediction.loop p = None →
  predict g fuel p state = Ok state' →
  sameButMana (st_resources state) (st_resources state')
  ∧ st_skills state' = st_skills state
  ∧ st_progress state' = st_progress state.
Proof.
  intros Hloop Hpredict. unfold predict in Hpredict. inv_bind Hpredict.
  apply predictLoop_noLoop_exact in Hpredict as (-> & -> & ->); [|done].
  split; [|done]. destruct (Z.to_nat a); [by left|right; by eexists].
Qed.

Lemma account_resources (g : Host) (name : string) (currentMana : Qc)
    (e : Entry) (state : State) :
  sameButMana (st_resources state)
    (st_resources (en_state (account g name currentMana e state)))
  ∧ st_skills (en_state (account g name currentMana e state))
    = st_skills state
  ∧ st_progress (en_state (account g name currentMana e state))
    = st_progress state.
Proof.
  unfold account, guildAfter, guildBefore. cbn [en_state].
  case_bool_decide; [|split; [apply sameButMana_refl|done]].
  rewrite set_mana_twice. split; [|done]. right. by eexists.
Qed.

(** X13.  A repetition of an action without a loop that takes [t >= 1] ticks
    (other than ['Adventure Guild']) adds [t] to the total, whatever its
    effect does to the mana afterwards; it is valid when the mana covers the
    [t] ticks, mana that the effect adds coming too late; and the effect runs
    once, on the resources as the ticks left them. *)
Theorem repetition_effect (g : Host) (fuel : nat) (name : string)
    (p : Prediction.t) (e : Entry) :
  Prediction.loop p = None →
  name ≠ "Adventure Guild" →
  (1 ≤ Prediction.updateTicks g (Prediction.action p)
         (st_stats (en_state e)))%Z →
  let t := num (Prediction.updateTicks g (Prediction.action p)
                  (st_stats (en_state e))) in
  let rk := run_effect (Prediction.effect p)
              (<["mana" := mana (en_state e) - t]>
                 (st_resources (en_state e)),
               st_skills (en_state e)) in
  ∃ e',
    repetition g fuel name p e = Ok e'
    ∧ en_total e' = en_total e + t
    ∧ en_isValid e' = (en_isValid e && bool_decide (t ≤ mana (en_state e)))
    ∧ st_resources (en_state e') = rk.1
    ∧ st_skills (en_state e') = rk.2.
Proof.
  intros Hloop Hname Ht. cbn zeta.
  set (t := Prediction.updateTicks g (Prediction.action p)
              (st_stats (en_state e))) in *.
  destruct (predictLoop_noLoop g fuel p t (Z.to_nat t) (en_state e) Hloop)
    as (state & Hpredict & Hmana & _); [lia|].
  rewrite Z2Nat.id in Hmana by lia.
  assert (predict g fuel p (en_state e) = Ok state) as Hpredict'.
  { unfold predict. fold t. by rewrite ticks_nonzero by lia. }
  apply predictLoop_noLoop_exact in Hpredict as (Hres & Hskills & _);
    [|done].
  destruct (Z.to_nat t) as [|n] eqn:Hn; [lia|].
  rewrite <- Hn, Z2Nat.id in Hres by lia.
  unfold repetition. rewrite Hpredict'. eexists. split; [reflexivity|].
  unfold account, guildBefore, guildAfter.
  rewrite !bool_decide_eq_false_2 by done.
  cbn [en_total en_isValid en_state]. rewrite Hmana.
  split; [ring|]. split.
  { f_equal. apply bool_decide_ext. set (x := mana (en_state e)).
    set (y := num t). clearbody x y. split; intros H; qc_lra. }
  unfold runEffects. rewrite Hloop. cbn [st_resources st_skills].
  by rewrite Hres, Hskills.
Qed.

Lemma repetition_effect_witness :
  ∃ e',
    repetition Demo.host 0 "Buy Mana"
      (Demo.prediction "Buy Mana" Rules.buyMana)
      (Demo.firstEntry (stateWith [("gold", num 3)])) = Ok e'
    ∧ en_total e' = 0 + num 1
    ∧ en_isValid e' = true
    ∧ getR (st_resources (en_state e')) "mana" = num 399
    ∧ getR (st_resources (en_state e')) "gold" = 0.
Proof.
  destruct (repetition_effect Demo.host 0 "Buy Mana"
              (Demo.prediction "Buy Mana" Rules.buyMana)
              (Demo.firstEntry (stateWith [("gold", num 3)])))
    as (e' & Hrep & Htotal & Hvalid & Hres & _).
  - reflexivity.
  - discriminate.
  - vm_compute. discriminate.
  - exists e'. split; [exact Hrep|]. split; [exact Htotal|].
    split; [rewrite Hvalid; by vm_compute|].
    rewrite Hres. split; [|reflexivity].
    cbn [run_effect Demo.prediction Prediction.constructor Prediction.effect
         Rules.buyMana par_effect fst snd].
    getR_simpl. qc_eq.
Defined.

(** ** Resources a start condition guards *)

(** X14.  For an action without a loop, a property of the resources that
    does not depend on the mana, and that the effect of the action keeps
    whenever the start condition holds, is kept by any number of
    repetitions, provided the start condition does not look at the mana:
    with ['Craft Armor'], which starts on [hide >= 2] and takes 2 hide, the
    hide never becomes negative. *)
Theorem guarded_resources (g : Host) (fuel : nat) (name : string)
    (p : Prediction.t) (I : gmap string Qc → Prop) (n : nat) (e e' : Entry) :
  Prediction.loop p = None →
  (∀ r m, I r → I (<["mana" := m]> r)) →
  (∀ r m, evalCanStart (Prediction.canStart p) (<["mana" := m]> r)
          = evalCanStart (Prediction.canStart p) r) →
  (∀ r k, I r → evalCanStart (Prediction.canStart p) r = true →
          I (run_effect (Prediction.effect p) (r, k)).1) →
  I (st_resources (en_state e)) →
  repetitions g fuel name p n e = Ok e' →
  I (st_resources (en_state e')).
Proof.
  intros Hloop Hmana Hstart Heffect. revert e.
  assert (∀ r r', sameButMana r r' →
            (I r → I r')
            ∧ evalCanStart (Prediction.canStart p) r'
              = evalCanStart (Prediction.canStart p) r) as Hsame.
  { intros r r' [->|[m ->]]; [done|]. split; [by apply Hmana|apply Hstart]. }
  induction n as [|n IH]; intros e HI Hreps.
  - by injection Hreps as <-.
  - rewrite repetitions_S in Hreps.
    destruct (evalCanStart _ _) eqn:Hcan; [|by injection Hreps as <-].
    inv_bind Hreps. apply (IH a); [|done].
    apply repetition_inv in Ha as (state & Hpredict & ->). cbn [en_state].
    apply predict_noLoop_resources in Hpredict as (Hres & _); [|done].
    destruct (account_resources g name (mana (en_state e)) e state)
      as (Hres' & _).
    pose proof (sameButMana_trans _ _ _ Hres Hres') as Hres''.
    destruct (Hsame _ _ Hres'') as [HI' Hcan'].
    unfold runEffects. rewrite Hloop. cbn [st_resources].
    apply Heffect; [by apply HI'|by rewrite Hcan'].
Qed.

Lemma guarded_resources_witness :
  ∃ e',
    repetitions Demo.host 0 "Craft Armor"
      (Demo.prediction "Craft Armor" Rules.craftArmor) 4
      (Demo.firstEntry (stateWith [("hide", num 5)])) = Ok e'
    ∧ 0 ≤ getR (st_resources (en_state e')) "hide".
Proof.
  destruct (result_eval
              (repetitions Demo.host 0 "Craft Armor"
                 (Demo.prediction "Craft Armor" Rules.craftArmor) 4
                 (Demo.firstEntry (stateWith [("hide", num 5)])))
              (λ _, True)) as (e' & Hreps & _).
  { vm_compute. exact I. }
  exists e'. split; [exact Hreps|].
  apply (guarded_resources Demo.host 0 "Craft Armor"
           (Demo.prediction "Craft Armor" Rules.craftArmor)
           (λ r, 0 ≤ getR r "hide") 4
           (Demo.firstEntry (stateWith [("hide", num 5)])) e').
  - reflexivity.
  - intros r m Hr. by rewrite getR_insert_ne.
  - intros r m. cbn [evalCanStart Demo.prediction Prediction.constructor
                     Prediction.canStart Prediction.canStart_or_true
                     Rules.craftArmor par_canStart].
    by rewrite getR_insert_ne.
  - intros r k Hr Hcan.
    cbn [evalCanStart Demo.prediction Prediction.constructor
         Prediction.canStart Prediction.canStart_or_true
         Rules.craftArmor par_canStart] in Hcan.
    apply bool_decide_eq_true in Hcan.
    cbn [run_effect Demo.prediction Prediction.constructor Prediction.effect
         Rules.craftArmor par_effect fst snd].
    getR_simpl. set (x := getR r "hide") in *. clearbody x.
    clear -Hcan. qc_lra.
  - by vm_compute.
  - exact Hreps.
Defined.

(** ** Whole and fractional parts *)

Lemma floor_spec (x : Qc) : num (floor x) ≤ x ∧ x < num (floor x) + 1.
Proof.
  unfold floor, num, Qc_of_Z. split.
  - qc_to_q. apply Qfloor_le.
  - qc_to_q. pose proof (Qlt_floor x) as Hlt.
    rewrite inject_Z_plus in Hlt. exact Hlt.
Qed.

Lemma floor_unique (x : Qc) (n : Z) :
  num n ≤ x → x < num n + 1 → floor x = n.
Proof.
  intros Hle Hlt. destruct (floor_spec x) as [Hle' Hlt'].
  assert (num n < num (floor x + 1)) as H1.
  { rewrite num_add, num_1. by eapply Qcle_lt_trans. }
  assert (num (floor x) < num (n + 1)) as H2.
  { rewrite num_add, num_1. by eapply Qcle_lt_trans. }
  apply (proj1 (num_lt _ _)) in H1. apply (proj1 (num_lt _ _)) in H2. lia.
Qed.

Lemma floor_le (x : Qc) (n : Z) : num n ≤ x → (n ≤ floor x)%Z.
Proof.
  intros Hle. destruct (floor_spec x) as [_ Hlt].
  assert (num n < num (floor x + 1)) as Hn.
  { rewrite num_add, num_1. by eapply Qcle_lt_trans. }
  apply (proj1 (num_lt _ _)) in Hn. lia.
Qed.

Lemma trunc_floor (x : Qc) : 0 ≤ x → trunc x = floor x.
Proof. intros Hx. unfold trunc. by rewrite bool_decide_eq_true_2. Qed.

(** For a positive divisor and a dividend that is not negative, [x % y] is
    what is left of [x] after the whole multiples of [y]. *)
Lemma rem_spec (x y : Qc) :
  0 ≤ x → 0 < y →
  rem x y = x - y * num (floor (x / y)) ∧ 0 ≤ rem x y ∧ rem x y < y.
Proof.
  intros Hx Hy.
  assert (y ≠ 0) as Hy0 by (intros ->; by apply (Qclt_not_eq 0 0)).
  assert (x / y * y = x) as Hdiv by (field; done).
  assert (0 ≤ x / y) as Hq.
  { destruct (Qclt_le_dec (x / y) 0) as [Hneg|]; [|done]. exfalso.
    assert (x / y * y < 0 * y) as Hlt by (by apply Qcmult_lt_compat_r).
    rewrite Hdiv, Qcmult_0_l in Hlt. by apply Qclt_not_le in Hlt. }
  unfold rem. rewrite trunc_floor by done. split; [done|].
  destruct (floor_spec (x / y)) as [Hle Hlt].
  set (q := x / y) in *. set (n := num (floor q)) in *.
  assert (n * y ≤ q * y) as Hle'.
  { by apply Qcmult_le_compat_r; [|apply Qclt_le_weak]. }
  assert (q * y < (n + 1) * y) as Hlt' by (by apply Qcmult_lt_compat_r).
  rewrite Hdiv in Hle', Hlt'.
  replace ((n + 1) * y) with (n * y + y) in Hlt' by ring.
  replace (y * n) with (n * y) by ring.
  remember (n * y) as ny. clear -Hle' Hlt'. split; qc_lra.
Qed.

(** X15.  For a total time [T >= 0] in seconds, the hours, minutes and
    seconds computed for the display add up to the whole seconds of [T],
    with minutes and seconds from 0 to 59 and hours that are not negative
    (and not reduced to a day). *)
Theorem clock_decomposition (T : Qc) :
  0 ≤ T →
  (3600 * c_h (clock T) + 60 * c_m (clock T) + c_s (clock T))%Z = floor T
  ∧ (0 ≤ c_h (clock T))%Z
  ∧ (0 ≤ c_m (clock T) < 60)%Z
  ∧ (0 ≤ c_s (clock T) < 60)%Z.
Proof.
  intros HT. unfold clock. cbn [c_h c_m c_s].
  assert (0 < num 3600) as H3600 by qc_decide.
  assert (0 < num 60) as H60 by qc_decide.
  destruct (rem_spec T (num 3600) HT H3600) as (Hr1 & Hr1pos & Hr1lt).
  set (r1 := rem T (num 3600)) in *.
  destruct (rem_spec r1 (num 60) Hr1pos H60) as (Hr2 & Hr2pos & Hr2lt).
  set (r2 := rem r1 (num 60)) in *.
  set (h := floor (T / num 3600)) in *.
  set (m := floor (r1 / num 60)) in *.
  destruct (floor_spec r2) as [Hs Hs'].
  set (s := floor r2) in *.
  clearbody r1 r2 h m s.
  assert (num (-1) < num h ∧ num (-1) < num m ∧ num m < num 60
          ∧ num (-1) < num s ∧ num s < num 60) as Hbounds.
  { clear -HT Hr1 Hr1pos Hr1lt Hr2 Hr2pos Hr2lt Hs Hs'.
    repeat split; qc_linear. }
  destruct Hbounds as (Hh & Hm1 & Hm2 & Hs1 & Hs2).
  apply (proj1 (num_lt _ _)) in Hh, Hm1, Hm2, Hs1, Hs2.
  split.
  { symmetry. apply floor_unique; rewrite !num_add, !num_mul.
    - clear -Hr1 Hr2 Hs. qc_linear.
    - clear -Hr1 Hr2 Hs'. qc_linear. }
  split; [lia|]. split; lia.
Qed.

Lemma clock_decomposition_witness :
  clock (num 90000 + Q2Qc (1 # 2)) = {| c_h := 25; c_m := 0; c_s := 0 |}
  ∧ (3600 * 25 + 60 * 0 + 0)%Z = floor (num 90000 + Q2Qc (1 # 2)).
Proof.
  split; [by vm_compute|].
  destruct (clock_decomposition (num 90000 + Q2Qc (1 # 2))) as [Hsum _].
  - by vm_compute.
  - exact Hsum.
Defined.

(** ** Rules of the table *)

Lemma times_S (n : nat) (e : option Effect)
    (rk : gmap string Qc * gmap string Qc) :
  times (S n) e rk = run_effect e (times n e rk).
Proof. done. Qed.

Lemma times_0 (e : option Effect) (rk : gmap string Qc * gmap string Qc) :
  times 0 e rk = rk.
Proof. done. Qed.

(** X16.  A rule that pays for its first [good] uses only (['Smash Pots'],
    ['Pick Locks'] and the like), used [n] times from a fresh counter, has
    counted [n] uses and paid [min(n, good)] times its gain (nothing when
    [good] is negative); it touches no other resource and no skill. *)
Theorem limited_gain (counter resource : string) (good : Z) (gain : Qc)
    (n : nat) (r k : gmap string Qc) :
  counter ≠ resource →
  getR r counter = 0 →
  let rk := times n (Some (Rules.limited counter resource (num good) gain))
                  (r, k) in
  getR rk.1 counter = num (Z.of_nat n)
  ∧ getR rk.1 resource
    = getR r resource + num (Z.of_nat n `min` (good `max` 0)) * gain
  ∧ (∀ x, x ≠ counter → x ≠ resource → getR rk.1 x = getR r x)
  ∧ rk.2 = k.
Proof.
  intros Hne Hfresh. cbn zeta. induction n as [|n IH].
  - rewrite times_0. cbn [fst snd]. rewrite Hfresh.
    replace (Z.of_nat 0 `min` (good `max` 0))%Z with 0%Z by lia.
    change (Z.of_nat 0) with 0%Z. rewrite num_0.
    repeat split; try done. ring.
  - rewrite times_S.
    destruct (times n _ (r, k)) as [rn kn].
    cbn [fst snd] in IH. destruct IH as (Hcounter & Hresource & Hother & ->).
    cbn [run_effect fst snd]. unfold Rules.limited. cbn [fst snd].
    getR_simpl.
    split; [|split; [|split; [|done]]].
    + by rewrite Hcounter, num_nat_S.
    + rewrite Hresource, Hcounter, <- num_nat_S.
      case_bool_decide as Hle.
      * apply (proj1 (num_le _ _)) in Hle.
        replace (Z.of_nat (S n) `min` (good `max` 0))%Z
          with (Z.of_nat (S n)) by lia.
        replace (Z.of_nat n `min` (good `max` 0))%Z with (Z.of_nat n) by lia.
        rewrite num_nat_S. ring.
      * rewrite num_le in Hle.
        replace (Z.of_nat (S n) `min` (good `max` 0))%Z
          with (Z.of_nat n `min` (good `max` 0))%Z by lia.
        ring.
    + intros x Hx1 Hx2. getR_simpl. by apply Hother.
Qed.

Lemma limited_gain_witness :
  let rk := times 5 (par_effect (Rules.smashPots (num 3) (num 100)))
                  ({["mana" := num 250]}, ∅) in
  getR rk.1 "temp1" = num 5 ∧ getR rk.1 "mana" = num 250 + num 3 * num 100.
Proof.
  destruct (limited_gain "temp1" "mana" 3 (num 100) 5 {["mana" := num 250]} ∅)
    as (Hcounter & Hresource & _); [done|done|].
  split; [exact Hcounter|exact Hresource].
Defined.

(** X17.  ['Haggle'] used [n] times from no discount leaves a discount of
    [min(n, 15)] and takes [n] reputation; ['Buy Supplies'] then costs
    [300 - 20 * min(n, 15)] gold: the price never goes below 0, and 15
    hagglings make the supplies free. *)
Theorem haggle_discount (n : nat) (r k : gmap string Qc) :
  getR r "supplyDiscount" = 0 →
  let rk := times n (par_effect Rules.haggle) (r, k) in
  getR rk.1 "supplyDiscount" = num (Z.of_nat n `min` 15)
  ∧ getR rk.1 "rep" = getR r "rep" - num (Z.of_nat n)
  ∧ getR rk.1 "gold" = getR r "gold"
  ∧ getR (run_effect (par_effect Rules.buySupplies) rk).1 "gold"
    = getR r "gold" - num (300 - 20 * (Z.of_nat n `min` 15))
  ∧ getR (run_effect (par_effect Rules.buySupplies) rk).1 "gold"
    ≤ getR r "gold".
Proof.
  intros Hfresh. cbn zeta.
  assert (getR (times n (par_effect Rules.haggle) (r, k)).1 "supplyDiscount"
          = num (Z.of_nat n `min` 15)
          ∧ getR (times n (par_effect Rules.haggle) (r, k)).1 "rep"
            = getR r "rep" - num (Z.of_nat n)
          ∧ getR (times n (par_effect Rules.haggle) (r, k)).1 "gold"
            = getR r "gold") as (Hdiscount & Hrep & Hgold).
  { induction n as [|n IH].
    - rewrite times_0. cbn [fst]. rewrite Hfresh.
      change (Z.of_nat 0) with 0%Z. rewrite num_0.
      repeat split; try done; try ring. qc_eq.
    - rewrite times_S. destruct (times n _ (r, k)) as [rn kn].
      cbn [fst] in IH. destruct IH as (Hdiscount & Hrep & Hgold).
      cbn [run_effect Rules.haggle par_effect fst snd].
      getR_simpl. split; [|split; [|done]].
      + rewrite Hdiscount. case_bool_decide as Hle.
        * apply (proj1 (num_le _ _)) in Hle. f_equal. lia.
        * rewrite num_le in Hle.
          replace (Z.of_nat (S n) `min` 15)%Z
            with (Z.of_nat n `min` 15 + 1)%Z by lia.
          by rewrite num_add, num_1.
      + rewrite Hrep, num_nat_S. ring. }
  split; [done|]. split; [done|]. split; [done|].
  destruct (times n _ (r, k)) as [rn kn]. cbn [fst] in *.
  cbn [run_effect Rules.buySupplies par_effect fst snd].
  getR_simpl. rewrite Hgold, Hdiscount.
  assert (Qcmax (num (Z.of_nat n `min` 15) * num 20) 0
          = num (20 * (Z.of_nat n `min` 15))) as ->.
  { unfold Qcmax. rewrite <- num_mul. case_bool_decide as Hle.
    - rewrite <- num_0 in Hle. apply (proj1 (num_le _ _)) in Hle.
      rewrite <- num_0. f_equal. lia.
    - f_equal. lia. }
  assert (num 300 - num (20 * (Z.of_nat n `min` 15))
          = num (300 - 20 * (Z.of_nat n `min` 15))) as ->.
  { symmetry. apply Z2Qc_inj_sub. }
  split; [done|].
  assert (0 ≤ num (300 - 20 * (Z.of_nat n `min` 15))) as Hprice.
  { rewrite <- num_0. apply num_le. lia. }
  set (price := num (300 - 20 * (Z.of_nat n `min` 15))) in *.
  set (gold := getR r "gold"). clearbody price gold. clear -Hprice. qc_lra.
Qed.

Lemma haggle_discount_witness :
  let rk := times 20 (par_effect Rules.haggle)
              (<["rep" := num 20]> (<["gold" := num 300]> {["mana" := num 250]}),
               ∅) in
  getR rk.1 "supplyDiscount" = num 15
  ∧ getR rk.1 "rep" = num 20 - num 20
  ∧ getR (run_effect (par_effect Rules.buySupplies) rk).1 "gold"
    = num 300 - num 0.
Proof.
  destruct (haggle_discount 20
              (<["rep" := num 20]> (<["gold" := num 300]> {["mana" := num 250]}))
              ∅) as (Hdiscount & Hrep & _ & Hgold & _); [done|].
  split; [exact Hdiscount|]. split; [exact Hrep|exact Hgold].
Defined.

(** X18.  ['Gather Team'] hires the [n]-th member for [200 * n] gold: [n]
    hirings from no team cost [100 * n * (n + 1)] gold in all. *)
Theorem gatherTeam_cost (n : nat) (r k : gmap string Qc) :
  getR r "team" = 0 →
  let rk := times n (par_effect Rules.gatherTeam) (r, k) in
  getR rk.1 "team" = num (Z.of_nat n)
  ∧ getR rk.1 "gold"
    = getR r "gold" - num (100 * Z.of_nat n * (Z.of_nat n + 1)).
Proof.
  intros Hfresh. cbn zeta. induction n as [|n IH].
  - rewrite times_0. cbn [fst]. rewrite Hfresh.
    change (Z.of_nat 0) with 0%Z. rewrite Z.mul_0_r, Z.mul_0_l, num_0.
    split; [done|ring].
  - rewrite times_S. destruct (times n _ (r, k)) as [rn kn].
    cbn [fst] in IH. destruct IH as (Hteam & Hgold).
    cbn [run_effect Rules.gatherTeam par_effect fst snd].
    getR_simpl. rewrite Hteam, Hgold. split; [by rewrite num_nat_S|].
    replace (100 * Z.of_nat (S n) * (Z.of_nat (S n) + 1))%Z
      with (100 * Z.of_nat n * (Z.of_nat n + 1)
            + (Z.of_nat n + 1) * 200)%Z by lia.
    rewrite num_add, (num_mul (Z.of_nat n + 1)), num_add, num_1. ring.
Qed.

Lemma gatherTeam_cost_witness :
  let rk := times 3 (par_effect Rules.gatherTeam) ({["gold" := num 2000]}, ∅) in
  getR rk.1 "team" = num 3 ∧ getR rk.1 "gold" = num 2000 - num 1200.
Proof.
  destruct (gatherTeam_cost 3 {["gold" := num 2000]} ∅) as [Hteam Hgold];
    [done|].
  split; [exact Hteam|exact Hgold].
Defined.

(** ** ['Dark Ritual'] *)

(** X19.  ['Dark Ritual'] once performed makes no progress: when [completed]
    has reached the segments of the action (at least 1), its tick function
    gives 0, and [predict] is one tick that costs 1 mana and one tick's
    share of experience and leaves the progress, the skills and the other
    resources alone. *)
Theorem darkRitual_performed (g : Host) (getSkillLevelFromExp : Qc → Qc)
    (witch : Qc) (state : State) (progression : Progression) :
  let p := Prediction.constructor g "Dark Ritual"
             (Rules.darkRitual g getSkillLevelFromExp witch) in
  st_progress state !! "Dark Ritual" = Some progression →
  (1 ≤ a_segments (Prediction.action p) ≤ pr_completed progression)%Z →
  (1 ≤ Prediction.updateTicks g (Prediction.action p) (st_stats state))%Z →
  (∀ l, Prediction.loop p = Some l →
        ∀ s k r segment,
          l_tick l progression (Prediction.action p) s k r segment = 0)
  ∧ ∃ n s',
      Prediction.exp g
        (Prediction.updateTicks g (Prediction.action p) (st_stats state))
        (Prediction.action p) (st_stats state) = Ok s'
      ∧ ∀ fuel, (n ≤ fuel)%nat →
          predict g fuel p state
          = Ok {| st_resources :=
                    <["mana" := mana state - 1]> (st_resources state);
                  st_stats := s';
                  st_skills := st_skills state;
                  st_progress := st_progress state |}.
Proof.
  intros p Hprogression Hcompleted Ht.
  assert (∀ l, Prediction.loop p = Some l →
               ∀ s k r segment,
                 l_tick l progression (Prediction.action p) s k r segment = 0)
    as Htick.
  { intros l [= <-] s k r segment. cbn [l_tick].
    rewrite bool_decide_eq_false_2; [done|].
    assert (1 ≤ floor (num (pr_completed progression)
                       / num (a_segments (Prediction.action p))
                       + Q2Qc (1 # 10000000)))%Z; [|lia].
    apply floor_le.
    set (segments := a_segments (Prediction.action p)) in *.
    assert (num segments ≠ 0) as Hne.
    { rewrite <- num_0. intros Heq. apply Z2Qc_inj in Heq. lia. }
    assert (0 < num segments) as Hpos.
    { rewrite <- num_0. apply num_lt. lia. }
    assert (num segments ≤ num (pr_completed progression)) as Hle.
    { apply num_le. lia. }
    assert (num (pr_completed progression) / num segments * num segments
            = num (pr_completed progression)) as Hdiv by (field; done).
    set (q := num (pr_completed progression) / num segments) in *.
    assert (1 ≤ q) as Hq.
    { destruct (Qclt_le_dec q 1) as [Hlt|]; [|done]. exfalso.
      assert (q * num segments < 1 * num segments) as Hlt'
        by (by apply Qcmult_lt_compat_r).
      rewrite Hdiv, Qcmult_1_l in Hlt'. by apply Qclt_not_le in Hlt'. }
    rewrite num_1. clearbody q. clear -Hq.
    assert (0 ≤ Q2Qc (1 # 10000000)) as Heps by qc_decide.
    set (eps := Q2Qc (1 # 10000000)) in *. clearbody eps. qc_lra. }
  split; [done|].
  eapply (predict_no_progress g p _ state progression (num 1000000)); try done.
  - by apply Htick.
  - intros segment Hsegment. cbn [l_cost].
    apply (proj2 (num_le _ _)) in Hsegment. rewrite num_0 in Hsegment.
    set (x := num segment) in *. clearbody x.
    assert (num 1000000 * (x * 2 + 1) = num 1000000 + num 2000000 * x) as ->.
    { replace (num 2000000) with (num 1000000 * 2) by qc_eq. ring. }
    clear -Hsegment. qc_linear.
Qed.

Lemma darkRitual_performed_witness :
  ∃ n s',
    ∀ fuel, (n ≤ fuel)%nat →
      predict Demo.host fuel
        (Prediction.constructor Demo.host "Dark Ritual"
           (Rules.darkRitual Demo.host (λ _, num 10) 0))
        {| st_resources := <["town" := 0]> {["mana" := num 250]};
           st_stats := {["strength" := 0]};
           st_skills := ∅;
           st_progress :=
             {["Dark Ritual" := {| pr_progress := 0; pr_completed := 2;
                                   pr_total := 1 |}]} |}
      = Ok {| st_resources := <["mana" := num 250 - 1]>
                                (<["town" := 0]> {["mana" := num 250]});
              st_stats := s';
              st_skills := ∅;
              st_progress :=
                {["Dark Ritual" := {| pr_progress := 0; pr_completed := 2;
                                      pr_total := 1 |}]} |}.
Proof.
  destruct (darkRitual_performed Demo.host (λ _, num 10) 0
              {| st_resources := <["town" := 0]> {["mana" := num 250]};
                 st_stats := {["strength" := 0]};
                 st_skills := ∅;
                 st_progress :=
                   {["Dark Ritual" := {| pr_progress := 0; pr_completed := 2;
                                         pr_total := 1 |}]} |}
              {| pr_progress := 0; pr_completed := 2; pr_total := 1 |})
    as (_ & n & s' & _ & Hpredict).
  - reflexivity.
  - by vm_compute.
  - by vm_compute.
  - exists n, s'. exact Hpredict.
Defined.

(** ** The [max] of a loop *)

Lemma costOfSegments_S (cost : Z → Qc) (n : nat) :
  costOfSegments cost (S n) = costOfSegments cost n + cost (Z.of_nat n).
Proof. done. Qed.

Lemma costOfSegments_ext (f h : Z → Qc) (n : nat) :
  (∀ i, (0 ≤ i)%Z → f i = h i) → costOfSegments f n = costOfSegments h n.
Proof.
  intros Hext. induction n as [|n IH]; [done|].
  rewrite !costOfSegments_S, IH, Hext; [done|lia].
Qed.

Lemma costOfSegments_mono (cost : Z → Qc) (n m : nat) :
  (∀ i, (0 ≤ i)%Z → 0 < cost i) → (n ≤ m)%nat →
  costOfSegments cost n ≤ costOfSegments cost m.
Proof.
  intros Hpos Hle. induction Hle as [|m Hle IH]; [apply Qcle_refl|].
  rewrite costOfSegments_S.
  pose proof (Hpos (Z.of_nat m) ltac:(lia)) as Hm.
  set (x := costOfSegments cost n) in *. set (y := costOfSegments cost m) in *.
  set (z := cost (Z.of_nat m)) in *. clearbody x y z. clear -IH Hm. qc_lra.
Qed.

Lemma costOfSegments_pos (cost : Z → Qc) (n : nat) :
  (∀ i, (0 ≤ i)%Z → 0 < cost i) → (1 ≤ n)%nat →
  0 < costOfSegments cost n.
Proof.
  intros Hpos Hn.
  pose proof (costOfSegments_mono cost 1 n Hpos Hn) as Hle.
  pose proof (Hpos 0%Z ltac:(lia)) as H0.
  change (costOfSegments cost 1) with (0 + cost (Z.of_nat 0)) in Hle.
  change (Z.of_nat 0) with 0%Z in Hle.
  set (x := costOfSegments cost n) in *. set (z := cost 0%Z) in *.
  clearbody x z. clear -Hle H0. qc_lra.
Qed.

(** The first [for] of [tick] takes the costs of the segments it passes. *)
Lemma seek_sum (cost : Z → Qc) (fuel : nat) (segment : Z) (progress : Qc)
    (segment' : Z) (progress' : Qc) :
  (0 ≤ segment)%Z →
  seek fuel cost segment progress = Ok (segment', progress') →
  (segment ≤ segment')%Z
  ∧ costOfSegments cost (Z.to_nat segment) + progress
    = costOfSegments cost (Z.to_nat segment') + progress'
  ∧ ((segment < segment')%Z → 0 ≤ progress').
Proof.
  revert segment progress.
  induction fuel as [|fuel IH]; intros segment progress Hsegment Hseek;
    simpl in Hseek.
  - case_bool_decide; [done|]. injection Hseek as <- <-.
    split; [lia|]. split; [done|lia].
  - case_bool_decide as Hcost.
    + apply IH in Hseek as (Hle & Hsum & Hrest); [|lia].
      split; [lia|]. split.
      * rewrite <- Hsum.
        replace (Z.to_nat (segment + 1)) with (S (Z.to_nat segment)) by lia.
        rewrite costOfSegments_S, Z2Nat.id by done. ring.
      * intros _. destruct (decide (segment + 1 = segment')%Z) as [Heq|Hne].
        -- subst segment'.
           assert (progress' = progress - cost segment) as ->.
           { clear -Hsum Hsegment.
             set (x := costOfSegments cost (Z.to_nat (segment + 1))) in *.
             clearbody x. qc_lra. }
           set (c := cost segment) in *. clearbody c. clear -Hcost. qc_lra.
        -- apply Hrest. lia.
    + injection Hseek as <- <-. split; [lia|]. split; [done|lia].
Qed.

Section Cap.

Variables (l : Loop) (a : Action).
Hypothesis Hregular : regularLoop l a.

Lemma below_within (segment : Z) :
  (segment ≤ a_segments a - 1)%Z → below segment (maxSegments l a) = true.
Proof.
  destruct Hregular as (Hseg & Hmax & _). intros Hsegment.
  unfold below, maxSegments. destruct (l_max l) as [mx|] eqn:Hmx; [|done].
  apply bool_decide_eq_true. specialize (Hmax mx eq_refl). nia.
Qed.

Lemma walkCond_uncapped (w : Walk) :
  (w_segment w ≤ a_segments a - 1)%Z →
  walkCond (uncapped l) a w = walkCond l a w.
Proof.
  intros Hsegment. unfold walkCond. rewrite below_within by done.
  by unfold maxSegments.
Qed.

(** The second [for] of [tick] keeps the segment index within the loop, so
    the [max] does not stop it. *)
Lemma walk_uncapped (fuel : nat) (w : Walk) :
  (w_segment w ≤ a_segments a - 1)%Z →
  walk fuel l a w = walk fuel (uncapped l) a w.
Proof.
  destruct Hregular as (Hseg & _). revert w.
  induction fuel as [|fuel IH]; intros w Hsegment.
  - simpl. by rewrite walkCond_uncapped.
  - destruct (walkCond l a w) eqn:Hcond.
    + rewrite !walk_step by by rewrite ?walkCond_uncapped.
      change (walkNext (uncapped l) a (walkBody (uncapped l) a w))
        with (walkNext l a (walkBody l a w)).
      apply IH. unfold walkNext, walkBody, completeLoop. cbn [w_segment].
      case_bool_decide; cbn [w_segment]; lia.
    + by rewrite !walk_stop by by rewrite ?walkCond_uncapped.
Qed.

(** The segment the first [for] finds is within the loop. *)
Lemma seek_within (fuel : nat) (progression : Progression) (segment : Z)
    (rest : Qc) :
  withinLoop l a progression →
  seek fuel (l_cost l progression a) 0%Z (pr_progress progression)
    = Ok (segment, rest) →
  (0 ≤ segment ≤ a_segments a - 1)%Z.
Proof.
  destruct Hregular as (Hseg & _ & Hpos & _). intros Hwithin Hseek.
  apply seek_sum in Hseek as (Hle & Hsum & Hrest); [|done].
  split; [done|].
  destruct (decide (segment ≤ a_segments a - 1)%Z) as [|Hbig]; [done|].
  exfalso. unfold withinLoop in Hwithin.
  pose proof (costOfSegments_mono (l_cost l progression a)
                (Z.to_nat (a_segments a)) (Z.to_nat segment)
                (Hpos progression) ltac:(lia)) as Hmono.
  specialize (Hrest ltac:(lia)).
  change (costOfSegments (l_cost l progression a) (Z.to_nat 0)) with 0 in Hsum.
  set (x := costOfSegments _ (Z.to_nat (a_segments a))) in *.
  set (y := costOfSegments _ (Z.to_nat segment)) in *.
  set (z := pr_progress progression) in *. clearbody x y z.
  clear -Hwithin Hmono Hrest Hsum. qc_lra.
Qed.

(** The second [for]: either a loop completes, and the stored progress ends
    at 0, or the progression is left as it is and the progress left accounts
    for the segments passed. *)
Lemma walk_track (fuel : nat) (w w' : Walk) :
  walk fuel l a w = Ok w' →
  (0 ≤ w_segment w ≤ a_segments a - 1)%Z →
  (0 ≤ w_segment w' ≤ a_segments a - 1)%Z
  ∧ (pr_progress (w_progression w') = 0
     ∨ w_progression w' = w_progression w
       ∧ costOfSegments (l_cost l (w_progression w) a)
                        (Z.to_nat (w_segment w)) + w_progress w
         = costOfSegments (l_cost l (w_progression w) a)
                          (Z.to_nat (w_segment w')) + w_progress w').
Proof.
  destruct Hregular as (Hseg & _). revert w.
  induction fuel as [|fuel IH]; intros w Hwalk Hsegment.
  - simpl in Hwalk. destruct (walkCond l a w); [done|].
    injection Hwalk as <-. split; [done|by right].
  - destruct (walkCond l a w) eqn:Hcond.
    + rewrite walk_step in Hwalk by done.
      assert (0 ≤ w_segment (walkNext l a (walkBody l a w))
              ≤ a_segments a - 1)%Z as Hnext.
      { unfold walkNext, walkBody, completeLoop. cbn [w_segment].
        case_bool_decide; cbn [w_segment]; lia. }
      destruct (IH _ Hwalk Hnext) as [Hsegment' Hcases].
      split; [done|].
      rewrite walkBody_progression in Hcases.
      case_bool_decide as Hlast.
      * left. destruct Hcases as [?|[-> _]]; done.
      * destruct Hcases as [?|[-> Hsum]]; [by left|right].
        split; [done|]. rewrite <- Hsum.
        assert (w_segment (walkBody l a w) = w_segment w) as Hsame.
        { unfold walkBody. by rewrite bool_decide_eq_false_2. }
        assert (w_progression (walkBody l a w) = w_progression w) as Hsame'.
        { unfold walkBody. by rewrite bool_decide_eq_false_2. }
        unfold walkNext. cbn [w_segment w_progress].
        rewrite Hsame, Hsame', walkBody_progress.
        replace (Z.to_nat (w_segment w + 1)) with (S (Z.to_nat (w_segment w)))
          by lia.
        rewrite costOfSegments_S, Z2Nat.id by lia. ring.
    + rewrite walk_stop in Hwalk by done. injection Hwalk as <-.
      split; [done|by right].
Qed.

(** A tick leaves the loop within its current loop. *)
Lemma tickLoop_within (fuel : nat) (p : Prediction.t) (_ticks : Z)
    (state : State) (progression : Progression) (lt : LoopTick) :
  Prediction.action p = a →
  st_progress state !! Prediction.name p = Some progression →
  withinLoop l a progression →
  tickLoop fuel p l _ticks state = Ok lt →
  withinLoop l a (w_progression (after lt))
  ∧ (w_segment (after lt) ≤ a_segments a - 1)%Z.
Proof.
  intros Haction Hprogression Hwithin Htick.
  pose proof Hregular as (Hseg & _ & Hpos & Hindep).
  apply tickLoop_inv in Htick
    as (progression' & segment & rest & Hprogression' & Hseek & _ & _ & Hwalk).
  rewrite Hprogression in Hprogression'. injection Hprogression' as <-.
  rewrite Haction in Hseek, Hwalk.
  pose proof (seek_within _ _ _ _ Hwithin Hseek) as Hsegment.
  apply seek_sum in Hseek as (_ & Hsum & _); [|done].
  change (costOfSegments (l_cost l progression a) (Z.to_nat 0)) with 0 in Hsum.
  pose proof (walk_exit _ _ _ _ _ Hwalk) as Hexit.
  apply walk_track in Hwalk as (Hsegment' & Hcases); [|done].
  set (w' := after lt) in *. clearbody w'. split; [|lia].
  unfold withinLoop. destruct Hcases as [-> | [Hsame Hsum']].
  - apply costOfSegments_pos; [apply Hpos|lia].
  - unfold walkCond in Hexit. rewrite below_within in Hexit by lia.
    rewrite andb_true_r in Hexit. apply bool_decide_eq_false in Hexit.
    apply Qcnot_le_lt in Hexit.
    pose proof (costOfSegments_mono (l_cost l (w_progression w') a)
                  (S (Z.to_nat (w_segment w'))) (Z.to_nat (a_segments a))
                  (Hpos _) ltac:(lia)) as Hmono.
    rewrite costOfSegments_S, Z2Nat.id in Hmono by lia.
    rewrite Hsame in *.
    unfold walkStart in Hsum', Hexit, Hmono |- *.
    cbn [w_progression w_segment w_progress pr_progress] in *.
    rewrite (costOfSegments_ext (l_cost l progression a)
               (l_cost l {| pr_progress :=
                              pr_progress progression + additionalProgress lt;
                            pr_completed := pr_completed progression;
                            pr_total := pr_total progression |} a)) in Hsum
      by (intros; symmetry; apply Hindep).
    set (c := l_cost l _ a) in *.
    set (x := costOfSegments c (Z.to_nat (a_segments a))) in *.
    set (y := costOfSegments c (Z.to_nat (w_segment w'))) in *.
    set (z := c (w_segment w')) in *.
    set (s := costOfSegments c (Z.to_nat segment)) in *.
    set (d := additionalProgress lt) in *.
    set (old := pr_progress progression) in *.
    set (left := w_progress w') in *.
    clearbody x y z s d old left.
    clear -Hsum Hsum' Hexit Hmono. qc_lra.
Qed.

(** A tick of the loop is what it is without the [max]. *)
Lemma tickLoop_uncapped (fuel : nat) (p p' : Prediction.t) (_ticks : Z)
    (state : State) :
  Prediction.action p = a →
  Prediction.action p' = a →
  Prediction.name p' = Prediction.name p →
  (∀ progression,
     st_progress state !! Prediction.name p = Some progression →
     withinLoop l a progression) →
  tickLoop fuel p l _ticks state = tickLoop fuel p' (uncapped l) _ticks state.
Proof.
  intros Haction Haction' Hname Hwithin.
  unfold tickLoop. rewrite Hname, Haction, Haction'.
  destruct (st_progress state !! Prediction.name p) as [progression|];
    [|done].
  specialize (Hwithin progression eq_refl).
  cbn [uncapped l_cost l_tick].
  destruct (seek fuel (l_cost l progression a) 0%Z (pr_progress progression))
    as [[segment rest]| |] eqn:Hseek; [|done..].
  apply seek_within in Hseek; [|done]. rewrite !bind_ret.
  destruct (Prediction.ticks _ticks) as [n| |]; [|done..].
  rewrite !bind_ret. rewrite walk_uncapped; [done|].
  unfold walkStart. cbn [w_segment]. lia.
Qed.

End Cap.

Lemma withinLoops_progress (g : Host) (rules : gmap string Parameters)
    (state state' : State) :
  st_progress state' = st_progress state →
  withinLoops g rules state → withinLoops g rules state'.
Proof.
  intros Heq Hwithin name params l progression Hrule Hl Hp.
  rewrite Heq in Hp. by eapply Hwithin.
Qed.

Section Run.

Variables (g : Host) (rules : gmap string Parameters).
Hypothesis Hregular : regularRules g rules.

Variables (name : string) (params : Parameters).
Hypothesis Hrule : rules !! name = Some params.

Local Abbreviation p := (Prediction.constructor g name params).
Local Abbreviation p' := (Prediction.constructor g name (uncappedRule params)).

Lemma tick_uncapped (fuel : nat) (_ticks : Z) (state : State) :
  withinLoops g rules state →
  tick g fuel p _ticks state = tick g fuel p' _ticks state
  ∧ ∀ continue state',
      tick g fuel p _ticks state = Ok (continue, state') →
      withinLoops g rules state'.
Proof.
  intros Hwithin. split.
  - unfold tick. change (Prediction.action p') with (Prediction.action p).
    destruct (Prediction.exp g _ticks (Prediction.action p) (st_stats state))
      as [s| |]; [|done..].
    rewrite !bind_ret.
    change (Prediction.loop p) with (par_loop params).
    change (Prediction.loop p') with (uncapped <$> par_loop params).
    destruct (par_loop params) as [l|] eqn:Hl; [|done]. cbn [fmap option_fmap option_map].
    pose proof (Hregular name params l Hrule Hl) as Hl'.
    rewrite <- (tickLoop_uncapped l (translateClassNames g name) Hl' fuel p p');
      [|done|done|done|intros progression Hp; by eapply Hwithin].
    destruct (tickLoop fuel p l _ticks (set_stats state s)) as [lt| |] eqn:Htick;
      [|done..].
    rewrite !bind_ret.
    destruct (st_progress (set_stats state s) !! Prediction.name p)
      as [progression|] eqn:Hp.
    + eapply tickLoop_within in Htick as [_ Hsegment]; [|done|done|done|].
      * rewrite below_within by done. by unfold maxSegments.
      * by eapply Hwithin.
    + unfold tickLoop in Htick. by rewrite Hp in Htick.
  - intros continue state' Htick.
    apply tick_inv in Htick as (s & _ & Hstate).
    change (Prediction.loop p) with (par_loop params) in Hstate.
    destruct (par_loop params) as [l|] eqn:Hl.
    + destruct Hstate as (lt & Htick & _ & ->).
      pose proof (Hregular name params l Hrule Hl) as Hl'.
      intros name' params' l' progression' Hrule' Hl'' Hp'.
      cbn [tickState st_progress] in Hp'.
      change (Prediction.name p) with name in Hp'.
      destruct (decide (name' = name)) as [->|Hne].
      * rewrite lookup_insert_eq in Hp'. injection Hp' as <-.
        rewrite Hrule in Hrule'. injection Hrule' as <-.
        rewrite Hl in Hl''. injection Hl'' as <-.
        destruct (st_progress (set_stats state s) !! Prediction.name p)
          as [progression|] eqn:Hp.
        -- eapply tickLoop_within in Htick as [Hnew _]; try done.
           by eapply Hwithin.
        -- unfold tickLoop in Htick. by rewrite Hp in Htick.
      * rewrite lookup_insert_ne in Hp' by done. by eapply Hwithin.
    + destruct Hstate as [_ ->]. by eapply withinLoops_progress.
Qed.

Lemma predictLoop_uncapped (fuel : nat) (_ticks : Z) (n : nat)
    (state : State) :
  withinLoops g rules state →
  predictLoop g fuel p _ticks n state = predictLoop g fuel p' _ticks n state
  ∧ ∀ state',
      predictLoop g fuel p _ticks n state = Ok state' →
      withinLoops g rules state'.
Proof.
  revert state. induction n as [|n IH]; intros state Hwithin.
  - split; [done|]. by intros state' [= <-].
  - cbn [predictLoop].
    assert (withinLoops g rules (set_mana state (mana state - 1))) as Hwithin'.
    { by eapply withinLoops_progress. }
    destruct (tick_uncapped fuel _ticks _ Hwithin') as [<- Hnext].
    destruct (tick g fuel p _ticks (set_mana state (mana state - 1)))
      as [[continue state1]| |]; [|done..].
    rewrite !bind_ret. specialize (Hnext _ _ eq_refl).
    destruct continue; [by apply IH|].
    split; [done|]. by intros state' [= <-].
Qed.

Lemma predict_uncapped (fuel : nat) (state : State) :
  withinLoops g rules state →
  predict g fuel p state = predict g fuel p' state
  ∧ ∀ state', predict g fuel p state = Ok state' → withinLoops g rules state'.
Proof.
  intros Hwithin. unfold predict.
  change (Prediction.action p') with (Prediction.action p).
  destruct (Prediction.ticks _) as [n| |]; [|done..].
  rewrite !bind_ret. by apply predictLoop_uncapped.
Qed.

Lemma runEffects_uncapped (state : State) :
  runEffects p' state = runEffects p state.
Proof.
  unfold runEffects.
  change (Prediction.effect p') with (Prediction.effect p).
  change (Prediction.loop p) with (par_loop params).
  change (Prediction.loop p') with (uncapped <$> par_loop params).
  by destruct (par_loop params).
Qed.

Lemma repetition_uncapped (fuel : nat) (e : Entry) :
  withinLoops g rules (en_state e) →
  repetition g fuel name p e = repetition g fuel name p' e
  ∧ ∀ e', repetition g fuel name p e = Ok e' →
          withinLoops g rules (en_state e').
Proof.
  intros Hwithin. unfold repetition.
  destruct (predict_uncapped fuel _ Hwithin) as [<- Hnext].
  destruct (predict g fuel p (en_state e)) as [state| |]; [|done..].
  rewrite !bind_ret, runEffects_uncapped. split; [done|].
  intros e' [= <-]. cbn [en_state].
  eapply withinLoops_progress; [|by apply Hnext].
  by unfold runEffects, account, guildAfter, guildBefore;
    repeat case_bool_decide.
Qed.

Lemma repetitions_uncapped (fuel : nat) (n : nat) (e : Entry) :
  withinLoops g rules (en_state e) →
  repetitions g fuel name p n e = repetitions g fuel name p' n e
  ∧ ∀ e', repetitions g fuel name p n e = Ok e' →
          withinLoops g rules (en_state e').
Proof.
  revert e. induction n as [|n IH]; intros e Hwithin.
  - split; [done|]. by intros e' [= <-].
  - rewrite !repetitions_S.
    change (Prediction.canStart p') with (Prediction.canStart p).
    destruct (evalCanStart _ _); [|split; [done|by intros e' [= <-]]].
    destruct (repetition_uncapped fuel _ Hwithin) as [<- Hnext].
    destruct (repetition g fuel name p e) as [e1| |]; [|done..].
    rewrite !bind_ret. by apply IH, Hnext.
Qed.

Lemma ensureProgress_uncapped (state : State) :
  withinLoops g rules state →
  ensureProgress g p' state = ensureProgress g p state
  ∧ withinLoops g rules (ensureProgress g p state).
Proof.
  intros Hwithin. unfold ensureProgress.
  change (Prediction.loop p) with (par_loop params).
  change (Prediction.loop p') with (uncapped <$> par_loop params).
  change (Prediction.name p') with name.
  change (Prediction.name p) with name.
  change (Prediction.action p') with (Prediction.action p).
  destruct (par_loop params) as [l|] eqn:Hl; [|done].
  cbn [fmap option_fmap option_map].
  destruct (st_progress state !! name) eqn:Hp; [done|]. split; [done|].
  intros name' params' l' progression' Hrule' Hl' Hp'.
  cbn [st_progress] in Hp'.
  destruct (decide (name' = name)) as [->|Hne].
  - rewrite lookup_insert_eq in Hp'. injection Hp' as <-.
    destruct (Hregular name params' l' Hrule' Hl') as (Hseg & _ & Hpos & _).
    unfold withinLoop. cbn [pr_progress].
    apply costOfSegments_pos; [apply Hpos|lia].
  - rewrite lookup_insert_ne in Hp' by done. by eapply Hwithin.
Qed.

End Run.

Section Update.

Variables (g : Host) (rules : gmap string Parameters).
Hypothesis Hregular : regularRules g rules.

Lemma lookup_uncapped (name : string) :
  initPredictions g (uncappedRule <$> rules) !! name
  = (λ params, Prediction.constructor g name (uncappedRule params))
      <$> rules !! name.
Proof.
  unfold initPredictions. rewrite map_lookup_imap, lookup_fmap.
  by destruct (rules !! name).
Qed.

Lemma lookup_capped (name : string) :
  initPredictions g rules !! name
  = Prediction.constructor g name <$> rules !! name.
Proof.
  unfold initPredictions. rewrite map_lookup_imap.
  by destruct (rules !! name).
Qed.

Lemma affectedOf_uncapped (actions : list ListedAction) :
  affectedOf (initPredictions g (uncappedRule <$> rules)) actions
  = affectedOf (initPredictions g rules) actions.
Proof.
  unfold affectedOf. do 2 f_equal.
  induction actions as [|x actions IH]; [done|].
  rewrite !bind_cons, IH. f_equal.
  rewrite lookup_uncapped, lookup_capped. by destruct (rules !! la_name x).
Qed.

Lemma entries_uncapped (fuel : nat) (affected : list string)
    (actions : list ListedAction) (run : Run) :
  withinLoops g rules (run_state run) →
  entries g (initPredictions g rules) fuel affected run actions
  = entries g (initPredictions g (uncappedRule <$> rules)) fuel affected run
      actions.
Proof.
  revert run. induction actions as [|x actions IH]; intros run Hwithin; [done|].
  cbn [entries].
  assert (entry g (initPredictions g rules) fuel affected run x
          = entry g (initPredictions g (uncappedRule <$> rules)) fuel affected
              run x
          ∧ ∀ run', entry g (initPredictions g rules) fuel affected run x
                    = Ok run' → withinLoops g rules (run_state run'))
    as [<- Hnext].
  { unfold entry. rewrite lookup_uncapped, lookup_capped.
    destruct (rules !! la_name x) as [params|] eqn:Hrule;
      [|cbn [fmap option_fmap option_map]; split; [done|];
        destruct (inherited _); by intros run' [= <-]].
    cbn [fmap option_fmap option_map].
    destruct (ensureProgress_uncapped g rules Hregular (la_name x) params
                (run_state run) Hwithin) as [-> Hensure].
    destruct (repetitions_uncapped g rules Hregular (la_name x) params Hrule
                fuel (Z.to_nat (la_loops x))
                (startEntry run
                   (ensureProgress g
                      (Prediction.constructor g (la_name x) params)
                      (run_state run))) Hensure)
      as [<- Hnext].
    destruct (repetitions _ _ _ _ _ _) as [e| |]; [|done..].
    rewrite !bind_ret. split; [done|]. intros run' [= <-]. by apply Hnext. }
  destruct (entry g (initPredictions g rules) fuel affected run x)
    as [run1| |]; [|done..].
  rewrite !bind_ret. by apply IH, Hnext.
Qed.

End Update.



(** ** The deltas of a report *)

Lemma constructor_upToDate (attrs : gmap string Qc) :
  upToDate (Snapshot.constructor (Some attrs)) attrs.
Proof.
  split; [done|]. intros i c. unfold Snapshot.constructor, Snapshot.init.
  cbn [Snapshot.attributes].
  rewrite lookup_union_l by apply lookup_empty. rewrite lookup_fmap.
  destruct (attrs !! i); [|done]. by intros [= <-].
Qed.

Lemma snap_upToDate (snapshot : Snapshot.t) (old new : gmap string Qc) :
  upToDate snapshot old →
  upToDate (Snapshot.snap snapshot new) new
  ∧ ∀ i, is_Some (Snapshot.attributes snapshot !! i) →
         Snapshot.get (Snapshot.snap snapshot new) !! i
         = Some {| Snapshot.value := new !! i;
                   Snapshot.delta := Snapshot.minus (new !! i) (old !! i) |}.
Proof.
  intros [Hinit Hvalue]. split; [split|].
  - apply snap_initialized.
  - intros i c Hc. destruct (Snapshot.attributes snapshot !! i) as [c'|] eqn:Hc'.
    + rewrite (snap_lookup _ _ _ c') in Hc by done. by injection Hc as <-.
    + unfold Snapshot.snap in Hc. rewrite Hinit in Hc.
      cbn [Snapshot.attributes] in Hc.
      by rewrite map_lookup_imap, Hc' in Hc.
  - intros i [c Hc]. unfold Snapshot.get.
    rewrite (snap_lookup _ _ _ c) by done. by rewrite (Hvalue i c Hc).
Qed.


